(** * Gray-Scott reaction-diffusion kernel (Ex2/rd_kernel.cu)

    A shallow embedding of [initializeConcentrations], [calculateLaplacian],
    [rd_kernel] and [rd], with [float] modelled as IEEE-754 binary32 through
    the bit-level specification of the Standard Library ([SpecFloat] at
    precision 24 and maximal exponent 128), [unsigned int] as [Z] with its
    wrap-around modulo [2^32] written out, and device arrays as lists
    indexed by position.  The properties that depend on the rounding of the
    arithmetic are proved from the real numbers the floats stand for. *)

From Stdlib Require Import ZArith Lia Bool List Reals Lra.
From Stdlib Require Import Floats.SpecFloat.
From stdpp Require Import base option list.

Local Open Scope Z_scope.

(** ** binary32 arithmetic *)

Module F32.

Definition prec : Z := 24.
Definition emax : Z := 128.

Definition float : Type := spec_float.

(** Conversion of an integer ([int] or [unsigned int]) to [float]:
    round to nearest, ties to even. *)
Definition of_Z (z : Z) : float := binary_normalize prec emax z 0 false.

Definition add : float -> float -> float := SFadd prec emax.
Definition sub : float -> float -> float := SFsub prec emax.
Definition mul : float -> float -> float := SFmul prec emax.
Definition div : float -> float -> float := SFdiv prec emax.
Definition ltb : float -> float -> bool := SFltb.

(** A decimal literal [num/den] with the [f] suffix: the nearest binary32
    number.  Both integers are small enough to be exact, so the correctly
    rounded quotient is the correctly rounded literal. *)
Definition lit (num den : Z) : float := div (of_Z num) (of_Z den).

(** Conversion [float -> int]: the fractional part is discarded.  The
    conversion is undefined on infinities and NaN; the caller checks the
    range of the result. *)
Definition to_Z_trunc (x : float) : option Z :=
  match x with
  | S754_zero _ => Some 0
  | S754_finite s m e =>
      let a := match e with
               | Zneg p => Z.shiftr (Zpos m) (Zpos p)
               | _ => Z.shiftl (Zpos m) e
               end in
      Some (if s then - a else a)
  | S754_infinity _ | S754_nan => None
  end.

Definition zero : float := S754_zero false.
Definition one : float := Eval vm_compute in of_Z 1.
Definition four : float := Eval vm_compute in of_Z 4.
Definition hundred : float := Eval vm_compute in of_Z 100.

Definition c0_5 : float := Eval vm_compute in lit 5 10.
Definition c0_25 : float := Eval vm_compute in lit 25 100.
Definition c2_0 : float := Eval vm_compute in of_Z 2.
Definition c0_48 : float := Eval vm_compute in lit 48 100.
Definition c0_52 : float := Eval vm_compute in lit 52 100.
Definition c0_02 : float := Eval vm_compute in lit 2 100.
Definition c0_01 : float := Eval vm_compute in lit 1 100.
Definition c0_0004 : float := Eval vm_compute in lit 4 10000.
Definition c0_0002 : float := Eval vm_compute in lit 2 10000.
Definition c0_012 : float := Eval vm_compute in lit 12 1000.
Definition c0_052 : float := Eval vm_compute in lit 52 1000.

End F32.

Abbreviation float := F32.float.

(** ** 32-bit unsigned and signed integers *)

Definition UINT_MOD : Z := 4294967296.
Definition INT_MAX : Z := 2147483647.

Definition wrap32 (z : Z) : Z := z mod UINT_MOD.

Definition uadd (a b : Z) : Z := wrap32 (a + b).
Definition usub (a b : Z) : Z := wrap32 (a - b).
Definition umul (a b : Z) : Z := wrap32 (a * b).
Definition umod (a b : Z) : Z := a mod b.
Definition udiv (a b : Z) : Z := a / b.

(** ** Device code *)

Record uint2 : Type := make_uint2 { x : Z; y : Z }.

(** [array[i]]: reading outside the allocation has no defined result. *)
Definition load (array : list float) (i : Z) : option float :=
  array !! Z.to_nat i.

Definition store (array : list float) (i : Z) (v : float) : option (list float) :=
  if decide (Z.to_nat i < length array)%nat
  then Some (<[Z.to_nat i := v]> array) else None.

Definition calculateLaplacian (dx : float) (array : list float) (coordinate : uint2)
    (value : float) (width height : Z) : option float :=
  let up := uadd (umul (umod (uadd (usub (y coordinate) 1) height) height) width)
                 (x coordinate) in
  let down := uadd (umul (umod (uadd (y coordinate) 1) height) width) (x coordinate) in
  let right := uadd (umul (y coordinate) width) (umod (uadd (x coordinate) 1) width) in
  let left := uadd (umul (y coordinate) width)
                   (umod (uadd (usub (x coordinate) 1) width) width) in
  r ← load array right;
  l ← load array left;
  u ← load array up;
  d ← load array down;
  Some (F32.div
          (F32.sub (F32.add (F32.add (F32.add r l) u) d) (F32.mul F32.four value))
          (F32.mul dx dx)).

(** The scalar arguments of a kernel launch. *)
Record kernel_args : Type := {
  k_width : Z; k_height : Z;
  k_dt : float; k_dx : float; k_Du : float; k_Dv : float; k_F : float; k_k : float
}.

Definition fields : Type := (list float * list float)%type.

Definition linear_index (a : kernel_args) (co : uint2) : Z :=
  uadd (umul (y co) (k_width a)) (x co).

(** One thread of [rd_kernel], cut where it stores: the loads and arithmetic
    up to the right-hand side of [U[idx] = ...] ... *)
Definition rd_kernel_computeU (a : kernel_args) (co : uint2) (st : fields)
    : option (float * float * float) :=
  let idx := linear_index a co in
  vU ← load st.1 idx;
  vV ← load st.2 idx;
  laplace ← calculateLaplacian (k_dx a) st.1 co vU (k_width a) (k_height a);
  let step := F32.add (F32.sub (F32.mul (k_Du a) laplace) (F32.mul (F32.mul vU vV) vV))
                      (F32.mul (k_F a) (F32.sub F32.one vU)) in
  Some (vU, vV, F32.add vU (F32.mul (k_dt a) step)).

Definition rd_kernel_storeU (a : kernel_args) (co : uint2) (newU : float) (st : fields)
    : option fields :=
  U' ← store st.1 (linear_index a co) newU; Some (U', st.2).

(** ... and the part after it, which works on the values [vU], [vV] held in
    registers and on the array [V]. *)
Definition rd_kernel_computeV (a : kernel_args) (co : uint2) (vU vV : float) (st : fields)
    : option float :=
  laplace ← calculateLaplacian (k_dx a) st.2 co vV (k_width a) (k_height a);
  let step := F32.sub (F32.add (F32.mul (k_Dv a) laplace) (F32.mul (F32.mul vU vV) vV))
                      (F32.mul (F32.add (k_F a) (k_k a)) vV) in
  Some (F32.add vV (F32.mul (k_dt a) step)).

Definition rd_kernel_storeV (a : kernel_args) (co : uint2) (newV : float) (st : fields)
    : option fields :=
  V' ← store st.2 (linear_index a co) newV; Some (st.1, V').

(** A thread that runs from its first to its last statement with no other
    thread in between. *)
Definition rd_kernel (a : kernel_args) (co : uint2) (st : fields) : option fields :=
  '(vU, vV, newU) ← rd_kernel_computeU a co st;
  st1 ← rd_kernel_storeU a co newU st;
  newV ← rd_kernel_computeV a co vU vV st1;
  rd_kernel_storeV a co newV st1.

(** ** Execution of a launch

    The launch [rd_kernel<<<dim3(width/16, height/16), dim3(16,16)>>>] starts
    one thread per pair of block and thread indices.  Nothing in the kernel
    orders threads of different warps, so a launch is run against a
    schedule: a list of groups of threads, the groups one after another and
    the threads of a group in lock-step (every thread of the group has
    finished its loads when the first store of the group happens). *)

Definition BLOCK : Z := 16.

Definition thread_coordinate (bx by_ tx ty : Z) : uint2 :=
  make_uint2 (uadd (umul bx BLOCK) tx) (uadd (umul by_ BLOCK) ty).

Definition zrange (n : Z) : list Z := map Z.of_nat (seq 0 (Z.to_nat n)).

(** The threads of warp [w] of a block: thread indices [threadIdx.y] in
    [2w, 2w+1] and every [threadIdx.x], [threadIdx.x] fastest. *)
Definition warp (bx by_ w : Z) : list uint2 :=
  ty ← [2 * w; 2 * w + 1]; tx ← zrange BLOCK; [thread_coordinate bx by_ tx ty].

Definition block_warps (bx by_ : Z) : list (list uint2) :=
  map (warp bx by_) (zrange 8).

Definition grid_blocks (width height : Z) : list (Z * Z) :=
  by_ ← zrange (udiv height BLOCK); bx ← zrange (udiv width BLOCK); [(bx, by_)].

(** All warps of the launch, block after block and warp after warp. *)
Definition warps_in_order (width height : Z) : list (list uint2) :=
  b ← grid_blocks width height; block_warps b.1 b.2.

(** All threads of the launch. *)
Definition threads (width height : Z) : list uint2 :=
  concat (warps_in_order width height).

Definition schedule : Type := list (list uint2).

Fixpoint computeU_all (a : kernel_args) (g : list uint2) (st : fields)
    : option (list (uint2 * (float * float * float))) :=
  match g with
  | [] => Some []
  | co :: g' =>
      r ← rd_kernel_computeU a co st;
      rs ← computeU_all a g' st;
      Some ((co, r) :: rs)
  end.

Fixpoint storeU_all (a : kernel_args) (rs : list (uint2 * (float * float * float)))
    (st : fields) : option fields :=
  match rs with
  | [] => Some st
  | (co, (_, _, newU)) :: rs' =>
      st' ← rd_kernel_storeU a co newU st; storeU_all a rs' st'
  end.

Fixpoint computeV_all (a : kernel_args) (rs : list (uint2 * (float * float * float)))
    (st : fields) : option (list (uint2 * float)) :=
  match rs with
  | [] => Some []
  | (co, (vU, vV, _)) :: rs' =>
      v ← rd_kernel_computeV a co vU vV st;
      vs ← computeV_all a rs' st;
      Some ((co, v) :: vs)
  end.

Fixpoint storeV_all (a : kernel_args) (vs : list (uint2 * float)) (st : fields)
    : option fields :=
  match vs with
  | [] => Some st
  | (co, newV) :: vs' =>
      st' ← rd_kernel_storeV a co newV st; storeV_all a vs' st'
  end.

(** A group of threads in lock-step. *)
Definition run_group (a : kernel_args) (g : list uint2) (st : fields) : option fields :=
  rs ← computeU_all a g st;
  st1 ← storeU_all a rs st;
  vs ← computeV_all a rs st1;
  storeV_all a vs st1.

Fixpoint rd_kernel_launch (a : kernel_args) (sched : schedule) (st : fields)
    : option fields :=
  match sched with
  | [] => Some st
  | g :: sched' => st' ← run_group a g st; rd_kernel_launch a sched' st'
  end.

(** The double-buffered step: every thread loads from the fields as they
    were before the step, and the results go to a second pair of buffers. *)
Fixpoint reference_values (a : kernel_args) (g : list uint2) (old : fields)
    : option (list (uint2 * (float * float))) :=
  match g with
  | [] => Some []
  | co :: g' =>
      '(vU, vV, newU) ← rd_kernel_computeU a co old;
      newV ← rd_kernel_computeV a co vU vV old;
      rs ← reference_values a g' old;
      Some ((co, (newU, newV)) :: rs)
  end.

Fixpoint reference_store (a : kernel_args) (rs : list (uint2 * (float * float)))
    (new : fields) : option fields :=
  match rs with
  | [] => Some new
  | (co, (newU, newV)) :: rs' =>
      n1 ← rd_kernel_storeU a co newU new;
      n2 ← rd_kernel_storeV a co newV n1;
      reference_store a rs' n2
  end.

Definition reference_step (a : kernel_args) (old : fields) : option fields :=
  rs ← reference_values a (threads (k_width a) (k_height a)) old;
  reference_store a rs old.

(** The constants [rd] passes to the kernel. *)
Definition rd_args (width height : Z) : kernel_args :=
  {| k_width := width; k_height := height;
     k_dt := F32.c0_5;
     k_dx := F32.c2_0;
     k_Du := F32.mul F32.c0_0004 (F32.div (F32.of_Z (umul width height)) F32.hundred);
     k_Dv := F32.mul F32.c0_0002 (F32.div (F32.of_Z (umul width height)) F32.hundred);
     k_F := F32.c0_012;
     k_k := F32.c0_052 |}.

(** ** Host code *)

Inductive fatal : Type :=
  | CudaAllocError        (* "Cuda error detected: ... Quitting." after cudaMalloc *)
  | DimensionError        (* "Image width and height must be a multiple of the block dimensions" *)
  | CudaKernelError.      (* "Cuda error detected in 'rd_kernel': ... Quitting." *)

Inductive event : Type :=
  | EvMalloc (cells : Z)
  | EvInitialize (width height : Z)
  | EvUpload (cells : Z)
  | EvLaunch (width height : Z)
  | EvCopyOut (cells : Z)
  | EvExit (f : fatal).

(** The function-local statics of [rd] ([U], [V], [first_pass]), the number
    of calls made to [rand] so far and the record of what the process did. *)
Record world : Type := {
  first_pass : bool;
  U : option (list float);
  V : option (list float);
  rand_calls : nat;
  trace : list event
}.

Definition initial_world : world :=
  {| first_pass := true; U := None; V := None; rand_calls := 0; trace := [] |}.

Inductive outcome : Type :=
  | Returned (w : world) (result : list float)
  | Exited (f : fatal) (w : world)
  | Undefined.

Section Host.

(** [RAND_MAX] of the platform's [<stdlib.h>], the values the successive
    calls of [rand] return, and the contents of memory that was allocated
    and not yet written. *)
Variable RAND_MAX : Z.
Variable rand : nat -> Z.
Variable junk : nat -> float.

Definition new_array (n : Z) : list float := map junk (seq 0 (Z.to_nat n)).

(** [for (i = 0; i < width * height; ++i) { _U[k] = 1.0f; _V[k++] = 0.0f; }] *)
Fixpoint fill_loop (count : nat) (k : Z) (uv : fields) : option fields :=
  match count with
  | O => Some uv
  | S count' =>
      U' ← store uv.1 k F32.one;
      V' ← store uv.2 k F32.zero;
      fill_loop count' (k + 1) (U', V')
  end.

(** [for (j = (0.48f)*width; j < (0.52f)*width; ++j) { ... }], entered with
    the current [j]; [fuel] bounds the number of passes. *)
Fixpoint patch_cols (fuel : nat) (width i j : Z) (uv : fields) : option fields :=
  if F32.ltb (F32.of_Z j) (F32.mul F32.c0_52 (F32.of_Z width)) then
    match fuel with
    | O => None
    | S fuel' =>
        let idx := uadd (umul i width) j in
        U' ← store uv.1 idx F32.c0_5;
        V' ← store uv.2 idx F32.c0_25;
        if decide (j < INT_MAX) then patch_cols fuel' width i (j + 1) (U', V')
        else None
    end
  else Some uv.

(** [for (i = (0.48f)*height; i < (0.52f)*height; ++i) { for (j ...) }] *)
Fixpoint patch_rows (fuel : nat) (width height i : Z) (uv : fields) : option fields :=
  if F32.ltb (F32.of_Z i) (F32.mul F32.c0_52 (F32.of_Z height)) then
    match fuel with
    | O => None
    | S fuel' =>
        j0 ← F32.to_Z_trunc (F32.mul F32.c0_48 (F32.of_Z width));
        if decide (j0 <= INT_MAX) then
          uv' ← patch_cols (Z.to_nat width) width i j0 uv;
          if decide (i < INT_MAX) then patch_rows fuel' width height (i + 1) uv'
          else None
        else None
    end
  else Some uv.

(** [0.02f*(float)rand() / RAND_MAX - 0.01f] for the value [n] of [rand()]. *)
Definition rRand (n : Z) : float :=
  F32.sub (F32.div (F32.mul F32.c0_02 (F32.of_Z n)) (F32.of_Z RAND_MAX)) F32.c0_01.

(** [if (a[k] < 1.0f) { float rRand = ...; a[k] += rRand * a[k]; }] *)
Definition perturb_cell (array : list float) (k : Z) (calls : nat)
    : option (list float * nat) :=
  v ← load array k;
  if F32.ltb v F32.one then
    array' ← store array k (F32.add v (F32.mul (rRand (rand calls)) v));
    Some (array', S calls)
  else Some (array, calls).

(** [for (k = 0; k < width * height; ++k) { ... }] *)
Fixpoint perturb_loop (count : nat) (k : Z) (uv : fields) (calls : nat)
    : option (fields * nat) :=
  match count with
  | O => Some (uv, calls)
  | S count' =>
      '(U', calls1) ← perturb_cell uv.1 k calls;
      '(V', calls2) ← perturb_cell uv.2 k calls1;
      perturb_loop count' (k + 1) (U', V') calls2
  end.

(** The host arrays [_U], [_V] as the first two loops leave them. *)
Definition seeded_fields (width height : Z) : option fields :=
  let n := umul width height in
  if decide (n <= INT_MAX) then
    uv ← fill_loop (Z.to_nat n) 0 (new_array n, new_array n);
    i0 ← F32.to_Z_trunc (F32.mul F32.c0_48 (F32.of_Z height));
    if decide (i0 <= INT_MAX) then patch_rows (Z.to_nat height) width height i0 uv
    else None
  else None.

(** [initializeConcentrations]: the arrays uploaded to the device and the
    number of calls made to [rand] once it returns. *)
Definition initializeConcentrations (width height : Z) (calls : nat)
    : option (fields * nat) :=
  uv ← seeded_fields width height;
  perturb_loop (Z.to_nat (umul width height)) 0 uv calls.

Definition log (e : event) (w : world) : world :=
  {| first_pass := first_pass w; U := U w; V := V w;
     rand_calls := rand_calls w; trace := trace w ++ [e] |}.

(** The body of [if (first_pass) { ... }].  [alloc_ok] tells whether the two
    [cudaMalloc] calls succeeded. *)
Definition rd_first_pass (alloc_ok : bool) (width height : Z) (w : world)
    : world + outcome :=
  let n := umul width height in
  let w1 := log (EvMalloc n) (log (EvMalloc n) w) in
  let w2 := {| first_pass := first_pass w1;
               U := if alloc_ok then Some (new_array n) else None;
               V := if alloc_ok then Some (new_array n) else None;
               rand_calls := rand_calls w1; trace := trace w1 |} in
  if alloc_ok then
    match initializeConcentrations width height (rand_calls w2) with
    | Some ((_U, _V), calls) =>
        inl {| first_pass := false; U := Some _U; V := Some _V;
               rand_calls := calls;
               trace := trace w2 ++ [EvInitialize width height; EvUpload n; EvUpload n] |}
    | None => inr Undefined
    end
  else inr (Exited CudaAllocError (log (EvExit CudaAllocError) w2)).

(** The rest of [rd], from the choice of the block dimensions on. [sched] is
    the order in which the device runs the threads of the launch and
    [launch_ok] tells whether the launch was accepted. *)
Definition rd_step (sched : schedule) (launch_ok : bool) (width height : Z)
    (result_devPtr : list float) (w : world) : outcome :=
  if decide (umod width BLOCK ≠ 0 ∨ umod height BLOCK ≠ 0) then
    Exited DimensionError (log (EvExit DimensionError) w)
  else
    match U w, V w with
    | Some u, Some v =>
        let w1 := log (EvLaunch width height) w in
        if launch_ok then
          match rd_kernel_launch (rd_args width height) sched (u, v) with
          | Some (u', v') =>
              let n := Z.to_nat (umul width height) in
              if decide (n <= length u' ∧ n <= length result_devPtr)%nat then
                Returned
                  {| first_pass := first_pass w1; U := Some u'; V := Some v';
                     rand_calls := rand_calls w1;
                     trace := trace w1 ++ [EvCopyOut (umul width height)] |}
                  (take n u' ++ drop n result_devPtr)
              else Undefined
          | None => Undefined
          end
        else Exited CudaKernelError (log (EvExit CudaKernelError) w1)
    | _, _ => Undefined
    end.

Definition rd (sched : schedule) (alloc_ok launch_ok : bool) (width height : Z)
    (result_devPtr : list float) (w : world) : outcome :=
  if first_pass w then
    match rd_first_pass alloc_ok width height w with
    | inl w' => rd_step sched launch_ok width height result_devPtr w'
    | inr o => o
    end
  else rd_step sched launch_ok width height result_devPtr w.

End Host.

(** ** The update the specification describes

    The formulas of the specification, written over the same binary32
    operations as the source and with sums and products associated from the
    left, the neighbours taken modulo the grid dimensions. *)

Module Spec.

Definition cell (F : list float) (width cx cy : Z) : option float :=
  F !! Z.to_nat (cy * width + cx).

Definition dt : float := F32.lit 5 10.
Definition dx : float := F32.of_Z 2.
Definition F : float := F32.lit 12 1000.
Definition k : float := F32.lit 52 1000.
Definition Du (width height : Z) : float :=
  F32.mul (F32.lit 4 10000) (F32.div (F32.of_Z (width * height)) (F32.of_Z 100)).
Definition Dv (width height : Z) : float :=
  F32.mul (F32.lit 2 10000) (F32.div (F32.of_Z (width * height)) (F32.of_Z 100)).

(** [(right + left + up + down - 4*center) / dx²] *)
Definition Laplacian (dx : float) (A : list float) (width height cx cy : Z)
    : option float :=
  right ← cell A width ((cx + 1) mod width) cy;
  left ← cell A width ((cx - 1) mod width) cy;
  up ← cell A width cx ((cy - 1) mod height);
  down ← cell A width cx ((cy + 1) mod height);
  center ← cell A width cx cy;
  Some (F32.div
          (F32.sub (F32.add (F32.add (F32.add right left) up) down)
                   (F32.mul (F32.of_Z 4) center))
          (F32.mul dx dx)).

(** [newU = U + dt·(Du·Laplacian(U) - U·V² + F·(1-U))] *)
Definition newU (width height : Z) (old : fields) (cx cy : Z) : option float :=
  u ← cell old.1 width cx cy;
  v ← cell old.2 width cx cy;
  lap ← Laplacian dx old.1 width height cx cy;
  Some (F32.add u
          (F32.mul dt
             (F32.add (F32.sub (F32.mul (Du width height) lap) (F32.mul (F32.mul u v) v))
                      (F32.mul F (F32.sub (F32.of_Z 1) u))))).

(** [newV = V + dt·(Dv·Laplacian(V) + U·V² - (F+k)·V)] *)
Definition newV (width height : Z) (old : fields) (cx cy : Z) : option float :=
  u ← cell old.1 width cx cy;
  v ← cell old.2 width cx cy;
  lap ← Laplacian dx old.2 width height cx cy;
  Some (F32.add v
          (F32.mul dt
             (F32.sub (F32.add (F32.mul (Dv width height) lap) (F32.mul (F32.mul u v) v))
                      (F32.mul (F32.add F k) v)))).

End Spec.

(** ** Reference inputs

    A platform whose [RAND_MAX] is [2^31 - 1], whose [rand] always returns
    [0] and whose fresh memory holds zeros. *)

Definition RAND_MAX_31 : Z := 2147483647.
Definition rand_zero (n : nat) : Z := 0.
Definition junk_zero (n : nat) : float := F32.zero.

(** A world in which [rd] has allocated, initialised or launched nothing. *)
Definition untouched (w : world) : Prop :=
  U w = None /\ V w = None /\ forall e, e ∈ trace w -> e = EvExit DimensionError.

(** The world the body of [if (first_pass)] leaves when it succeeds. *)
Definition after_first_pass (width height : Z) (uv : fields) (calls : nat) (w : world)
    : world :=
  {| first_pass := false; U := Some uv.1; V := Some uv.2; rand_calls := calls;
     trace := trace w ++ [EvMalloc (umul width height); EvMalloc (umul width height);
                          EvInitialize width height;
                          EvUpload (umul width height); EvUpload (umul width height)] |}.

(** * Definitions of the analysis *)

(** ** Binary32 numbers as real numbers *)

(** [2^e] as a real number. *)
Definition bpow (e : Z) : R := powerRZ 2 e.

(** The real number [m * 2^e]. *)
Definition F2R (m e : Z) : R := (IZR m * bpow e)%R.

(** The real number a float stands for; 0 for the infinities and NaN. *)
Definition B2R (f : spec_float) : R :=
  match f with
  | S754_finite s m e => F2R (cond_Zopp s (Zpos m)) e
  | _ => 0%R
  end.

(** Zeros and finite numbers, as opposed to the infinities and NaN. *)
Definition is_finite (f : spec_float) : bool :=
  match f with
  | S754_finite _ _ _ | S754_zero _ => true
  | _ => false
  end.

(** The exponent binary32 gives the mantissa of a number below [2^e]:
    24 bits of precision, and no exponent under -149. *)
Definition fexp32 (e : Z) : Z := Z.max (e - 24) (-149).

(** ** Right shifts and the location of the discarded bits *)

(** [x] lies where the record says: at [m·2^e], strictly between it and the
    midpoint to [(m+1)·2^e], at the midpoint, or beyond it. *)
Definition locates (mrs : shr_record) (e : Z) (x : R) : Prop :=
  let u := bpow e in
  let m := IZR (shr_m mrs) in
  match shr_r mrs, shr_s mrs with
  | false, false => x = (m * u)%R
  | false, true => (m * u < x < (m + / 2) * u)%R
  | true, false => x = ((m + / 2) * u)%R
  | true, true => ((m + / 2) * u < x < (m + 1) * u)%R
  end.

(** ** Rounding of a located mantissa *)

(** The float made of a rounded mantissa [m1 <= 2^24] at exponent [e1]. *)
Definition pack32 (s : bool) (m1 e1 : Z) : spec_float :=
  if m1 =? 0 then S754_zero s
  else if m1 =? 16777216 then
    (if e1 + 1 <=? 104 then S754_finite s 8388608 (e1 + 1) else S754_infinity s)
  else if e1 <=? 104 then S754_finite s (Z.to_pos m1) e1 else S754_infinity s.

(** What rounding [x], located by [(M, l)] at exponent [e], produces:
    the mantissa [m1] at the exponent [e1] of the format. *)
Definition rounds_to (M e : Z) (x : R) (m1 e1 : Z) : Prop :=
  (e1 = fexp32 (Zdigits2 M + e) /\ e <= e1) /\
  M / 2 ^ (e1 - e) <= m1 <= M / 2 ^ (e1 - e) + 1 /\
  (Rabs (F2R m1 e1 - x) <= bpow e1 / 2)%R /\
  (F2R (M / 2 ^ (e1 - e)) e1 <= x < F2R (M / 2 ^ (e1 - e) + 1) e1)%R /\
  (x = F2R (M / 2 ^ (e1 - e)) e1 -> m1 = M / 2 ^ (e1 - e)) /\
  (x = ((IZR (M / 2 ^ (e1 - e)) + / 2) * bpow e1)%R -> Z.even m1 = true) /\
  m1 <= 16777216 /\
  (0 < m1 < 16777216 -> fexp32 (Zdigits2 m1 + e1) = e1) /\
  -149 <= e1 /\
  (e1 = -149 \/ 8388608 <= M / 2 ^ (e1 - e)).

(** ** The numbers of the format and nearest rounding *)

(** A positive mantissa at the exponent the format gives it. *)
Definition canonical32 (m e : Z) : Prop :=
  0 < m < 16777216 /\ fexp32 (Zdigits2 m + e) = e.

(** The numbers of the format, with no upper bound on the exponent. *)
Definition in_format (y : R) : Prop :=
  y = 0%R \/ exists m e, canonical32 m e /\ (y = F2R m e \/ y = (- F2R m e)%R).

(** [y] is a number of the format and none is nearer to [x]. *)
Definition nearest (x y : R) : Prop :=
  in_format y /\ forall g, in_format g -> (Rabs (y - x) <= Rabs (g - x))%R.

(** The magnitude [r] with the sign bit [s]. *)
Definition signed (s : bool) (r : R) : R := if s then (- r)%R else r.

(** ** Rounding a signed integer mantissa *)

(** A well-formed binary32 value: a canonical mantissa and an exponent in
    range. *)
Definition valid (f : spec_float) : Prop := valid_binary 24 128 f = true.

(** [f] is the float of sign [s] whose magnitude is [x >= 0] rounded. *)
Definition rounded (s : bool) (x : R) (f : spec_float) : Prop :=
  exists M e m1 e1, 0 <= M /\ rounds_to M e x m1 e1 /\ f = pack32 s m1 e1.

(** ** Uniform fields *)

(** The coordinates of the cells of the grid. *)
Definition in_grid (width height : Z) (co : uint2) : Prop :=
  0 <= x co < width /\ 0 <= y co < height.

(** [(c + c + c + c - 4*c) / (dx*dx)] *)
Definition uniform_stencil (dx c : float) : float :=
  F32.div (F32.sub (F32.add (F32.add (F32.add c c) c) c) (F32.mul F32.four c))
          (F32.mul dx dx).

(** The flat steady state: U = 1.0f and V = 0.0f in each of [n] cells. *)
Definition flat (n : nat) : fields := (replicate n F32.one, replicate n F32.zero).

(** ** The bounds of the patch loops *)

(** [(0.52f)*n] and [(0.48f)*n] for a dimension [n]. *)
Definition upper_limit (n : Z) : float := F32.mul F32.c0_52 (F32.of_Z n).

Definition lower_limit (n : Z) : float := F32.mul F32.c0_48 (F32.of_Z n).

(** [(float)i < 0.52f * n], the condition of both patch loops. *)
Definition below_limit (n i : Z) : bool := F32.ltb (F32.of_Z i) (upper_limit n).

(** ** The fill and patch loops *)

(** [int i = (0.48f)*n]: the conversion to [int] truncates. *)
Definition first_index (n : Z) : option Z := F32.to_Z_trunc (lower_limit n).

(** The indices the loop [for (i = 0.48f*n; i < 0.52f*n; ++i)] runs over. *)
Definition in_patch_axis (n i : Z) : bool :=
  match first_index n with
  | Some i0 => (i0 <=? i) && below_limit n i
  | None => false
  end.

(** The cells the two nested patch loops write. *)
Definition in_patch (width height i j : Z) : bool :=
  in_patch_axis height i && in_patch_axis width j.

(** ** The seeded fields *)

(** The patch as the specification words it: the indices in the fractional
    range [0.48, 0.52) of the dimension. *)
Definition fractional_patch (width height i j : Z) : Prop :=
  48 * height <= 100 * i < 52 * height /\ 48 * width <= 100 * j < 52 * width.

(** ** The perturbation loop *)

(** Whether the perturbation loop draws a number for a cell value. *)
Definition below (o : option float) : nat :=
  match o with
  | Some v => if F32.ltb v F32.one then 1 else 0
  | None => 0
  end.

(** The number of calls of [rand] the perturbation loop has made when it
    reaches cell [k] of the arrays [uv]. *)
Fixpoint draw_index (uv : fields) (k : nat) : nat :=
  match k with
  | O => O
  | S k' => draw_index uv k' + below (uv.1 !! k') + below (uv.2 !! k')
  end.

(** [if (v < 1.0f) v += rRand * v], with [r] the value of [rand()]. *)
Definition perturbed (RAND_MAX : Z) (v : float) (r : Z) : float :=
  if F32.ltb v F32.one then F32.add v (F32.mul (rRand RAND_MAX r) v) else v.

(** ** The random factor *)

(** [0.02f*(float)r] and [0.02f*(float)r / RAND_MAX]. *)
Definition product (r : Z) : float := F32.mul F32.c0_02 (F32.of_Z r).

Definition quotient (RAND_MAX r : Z) : float :=
  F32.div (product r) (F32.of_Z RAND_MAX).

(** [(0.02f * (float)RAND_MAX) / RAND_MAX <= 0.02f]: the largest quotient the
    platform's [RAND_MAX] can produce does not exceed [0.02f]. *)
Definition platform_ok (RAND_MAX : Z) : bool :=
  negb (F32.ltb F32.c0_02 (quotient RAND_MAX RAND_MAX)).

(** ** Initialization *)

(** The values the first two loops of [initializeConcentrations] leave in a
    cell of [_U] and of [_V]. *)
Definition seedU (width height i j : Z) : float :=
  if in_patch width height i j then F32.c0_5 else F32.one.

Definition seedV (width height i j : Z) : float :=
  if in_patch width height i j then F32.c0_25 else F32.zero.

(** ** Round to nearest even on integers *)

(** [y] is [x >= 0] rounded to the nearest number of the format, ties to the
    even mantissa: [q] and [e1] locate [x] on the grid of the format. *)
Definition rne (x y : R) : Prop :=
  exists q e1 m1,
    -149 <= e1 /\ 0 <= q < 16777216 /\ (e1 = -149 \/ 8388608 <= q) /\
    (F2R q e1 <= x < F2R (q + 1) e1)%R /\
    q <= m1 <= q + 1 /\
    (Rabs (F2R m1 e1 - x) <= bpow e1 / 2)%R /\
    (x = ((IZR q + / 2) * bpow e1)%R -> Z.even m1 = true) /\
    y = F2R m1 e1.

(** ** The Laplacian of a uniform field *)

(** A finite number whose exponent is at most 101, so that its magnitude is
    below [2^125] and four times it is still finite. *)
Definition no_overflow (c : float) : bool :=
  match c with
  | S754_zero _ => true
  | S754_finite _ _ e => e <=? 101
  | _ => false
  end.

(** [FLT_MAX], the largest finite number of the format. *)
Definition FLT_MAX : float := S754_finite false 16777215 104.

(** ** A launch with a barrier *)

(** The lists a lock-step group passes from phase to phase, thread by
    thread: the values of the double-buffered step, the registers after the
    first phase and the new values of V. *)
Inductive same_threads :
  list (uint2 * (float * float)) -> list (uint2 * (float * float * float)) ->
  list (uint2 * float) -> Prop :=
| same_nil : same_threads [] [] []
| same_cons co newU newV vU vV rs rsU vs :
    same_threads rs rsU vs ->
    same_threads ((co, (newU, newV)) :: rs) ((co, (vU, vV, newU)) :: rsU) ((co, newV) :: vs).

(** ** The cells a launch touches *)

(** The position of the cell a thread owns in the arrays [U] and [V]. *)
Definition thread_index (a : kernel_args) (co : uint2) : nat :=
  Z.to_nat (linear_index a co).

(** ** Launches and calls of rd *)

(** The world a later call of [rd] starts from when an earlier call left
    the fields [u] and [v] on the device. *)
Definition world_with (u v : list float) : world :=
  {| first_pass := false; U := Some u; V := Some v; rand_calls := 0; trace := [] |}.

(** ** The calls of rand *)

(** The number of cells of the patch. *)
Definition patch_cells (width height : Z) : nat :=
  length (List.filter
            (fun k : nat => in_patch width height (Z.of_nat k / width) (Z.of_nat k mod width))
            (seq 0 (Z.to_nat (width * height)))).

(** * Properties *)

(** The arithmetic plays no part in the structural proofs: keep it folded. *)
Arguments F32.of_Z : simpl never.
Arguments F32.add : simpl never.
Arguments F32.sub : simpl never.
Arguments F32.mul : simpl never.
Arguments F32.div : simpl never.
Arguments F32.ltb : simpl never.
Arguments F32.lit : simpl never.
Arguments F32.to_Z_trunc : simpl never.
Arguments initializeConcentrations : simpl never.
Arguments seeded_fields : simpl never.
Arguments new_array : simpl never.
Arguments rd_kernel_launch : simpl nomatch.
Arguments umul : simpl never.
Arguments umod : simpl never.
Arguments Spec.dt : simpl never.
Arguments Spec.dx : simpl never.
Arguments Spec.F : simpl never.
Arguments Spec.k : simpl never.
Arguments Spec.Du : simpl never.
Arguments Spec.Dv : simpl never.

(** ** Index arithmetic *)

Lemma wrap32_small z : 0 <= z < UINT_MOD -> wrap32 z = z.
Proof. intros H. unfold wrap32. apply Z.mod_small. exact H. Qed.

Lemma wrap32_range z : 0 <= wrap32 z < UINT_MOD.
Proof. unfold wrap32, UINT_MOD. apply Z.mod_pos_bound. lia. Qed.

Lemma uadd_usub_wrap a n :
  0 <= a < n -> n <= 2147483648 -> umod (uadd (usub a 1) n) n = (a - 1) mod n.
Proof.
  intros Ha Hn. unfold umod, uadd, usub, wrap32.
  rewrite Zplus_mod_idemp_l.
  rewrite (Z.mod_small (a - 1 + n) UINT_MOD) by (unfold UINT_MOD; lia).
  replace (a - 1 + n) with (a - 1 + 1 * n) by ring.
  apply Z_mod_plus_full.
Qed.

Lemma uadd_succ_wrap a n :
  0 <= a < n -> n <= 2147483648 -> umod (uadd a 1) n = (a + 1) mod n.
Proof.
  intros Ha Hn. unfold umod, uadd.
  rewrite wrap32_small by (unfold UINT_MOD; lia). reflexivity.
Qed.

Lemma row_major_small width height cx cy :
  0 <= cx < width -> 0 <= cy < height -> width * height <= UINT_MOD ->
  uadd (umul cy width) cx = cy * width + cx.
Proof.
  intros Hx Hy Hwh. unfold uadd, umul.
  assert (0 <= cy * width /\ cy * width + cx < width * height) as [H1 H2] by nia.
  rewrite (wrap32_small (cy * width)) by lia.
  apply wrap32_small. lia.
Qed.

Lemma linear_index_small a co :
  0 <= x co < k_width a -> 0 <= y co < k_height a ->
  k_width a * k_height a <= UINT_MOD ->
  linear_index a co = y co * k_width a + x co.
Proof. intros. unfold linear_index. eapply row_major_small; eauto. Qed.

(** ** The stencil *)

(** The four loads of [calculateLaplacian] are the four wrapped neighbours. *)
Lemma calculateLaplacian_wraps (dx : float) (array : list float) (co : uint2)
    (value : float) (width height : Z) :
  0 < width <= 2147483648 -> 0 < height <= 2147483648 ->
  width * height <= UINT_MOD ->
  0 <= x co < width -> 0 <= y co < height ->
  Spec.cell array width (x co) (y co) = Some value ->
  calculateLaplacian dx array co value width height
  = Spec.Laplacian dx array width height (x co) (y co).
Proof.
  intros Hw Hh Hwh Hx Hy Hc.
  unfold calculateLaplacian, Spec.Laplacian, Spec.cell, load.
  rewrite uadd_usub_wrap, uadd_succ_wrap by lia.
  rewrite uadd_usub_wrap, uadd_succ_wrap by lia.
  pose proof (Z.mod_pos_bound (y co - 1) height ltac:(lia)).
  pose proof (Z.mod_pos_bound (y co + 1) height ltac:(lia)).
  pose proof (Z.mod_pos_bound (x co - 1) width ltac:(lia)).
  pose proof (Z.mod_pos_bound (x co + 1) width ltac:(lia)).
  rewrite !(row_major_small width height) by lia.
  unfold Spec.cell in Hc. rewrite Hc. simpl.
  destruct (array !! Z.to_nat (y co * width + (x co + 1) mod width)); simpl; [|reflexivity].
  destruct (array !! Z.to_nat (y co * width + (x co - 1) mod width)); simpl; [|reflexivity].
  destruct (array !! Z.to_nat ((y co - 1) mod height * width + x co)); simpl; [|reflexivity].
  destruct (array !! Z.to_nat ((y co + 1) mod height * width + x co)); simpl; reflexivity.
Qed.

(** C4: on a grid of positive dimensions whose cells a 32-bit index can
    address, at a coordinate of the grid and with the value of the centre
    cell passed as [value], [calculateLaplacian] returns
    [(right + left + up + down - 4*center)/dx²] with the column of the left
    and right neighbours taken modulo [width] and the row of the upper and
    lower neighbours taken modulo [height]. *)
Theorem calculateLaplacian_periodic (dx : float) (array : list float) (co : uint2)
    (value : float) (width height : Z) :
  0 < width <= 2147483648 -> 0 < height <= 2147483648 ->
  width * height <= UINT_MOD ->
  0 <= x co < width -> 0 <= y co < height ->
  Spec.cell array width (x co) (y co) = Some value ->
  calculateLaplacian dx array co value width height
  = Spec.Laplacian dx array width height (x co) (y co).
Proof. intros. apply calculateLaplacian_wraps; assumption. Qed.

Lemma calculateLaplacian_periodic_witness :
  calculateLaplacian F32.c2_0 (replicate 256 F32.one) (make_uint2 15 0) F32.one 16 16
  = Spec.Laplacian F32.c2_0 (replicate 256 F32.one) 16 16 15 0.
Proof.
  apply (calculateLaplacian_periodic F32.c2_0 (replicate 256 F32.one) (make_uint2 15 0)
           F32.one 16 16); simpl; try lia; try reflexivity.
  unfold UINT_MOD; lia.
Defined.

(** ** One thread *)

Lemma cell_is_Some (A : list float) (width height cx cy : Z) :
  length A = Z.to_nat (width * height) ->
  0 <= cx < width -> 0 <= cy < height ->
  is_Some (Spec.cell A width cx cy).
Proof.
  intros HA Hx Hy. unfold Spec.cell. apply lookup_lt_is_Some.
  rewrite HA. apply Z2Nat.inj_lt; nia.
Qed.

Lemma Laplacian_is_Some (d : float) (A : list float) (width height cx cy : Z) :
  length A = Z.to_nat (width * height) ->
  0 <= cx < width -> 0 <= cy < height ->
  is_Some (Spec.Laplacian d A width height cx cy).
Proof.
  intros HA Hx Hy. unfold Spec.Laplacian.
  pose proof (Z.mod_pos_bound (cx + 1) width ltac:(lia)) as H1.
  pose proof (Z.mod_pos_bound (cx - 1) width ltac:(lia)) as H2.
  pose proof (Z.mod_pos_bound (cy - 1) height ltac:(lia)) as H3.
  pose proof (Z.mod_pos_bound (cy + 1) height ltac:(lia)) as H4.
  destruct (cell_is_Some A width height _ cy HA H1 Hy) as [r ->].
  destruct (cell_is_Some A width height _ cy HA H2 Hy) as [l ->].
  destruct (cell_is_Some A width height cx _ HA Hx H3) as [u ->].
  destruct (cell_is_Some A width height cx _ HA Hx H4) as [d' ->].
  destruct (cell_is_Some A width height cx cy HA Hx Hy) as [c ->].
  simpl. eauto.
Qed.

Lemma store_Some (A : list float) (i : Z) (v : float) :
  (Z.to_nat i < length A)%nat -> store A i v = Some (<[Z.to_nat i := v]> A).
Proof. intros H. unfold store. destruct (decide _); [reflexivity | contradiction]. Qed.

Lemma store_length (A A' : list float) (i : Z) (v : float) :
  store A i v = Some A' -> length A' = length A.
Proof.
  unfold store. destruct (decide _); intros H; inversion H.
  apply length_insert.
Qed.

Lemma rd_args_spec (width height : Z) :
  0 <= width * height < UINT_MOD ->
  rd_args width height
  = {| k_width := width; k_height := height; k_dt := Spec.dt; k_dx := Spec.dx;
       k_Du := Spec.Du width height; k_Dv := Spec.Dv width height;
       k_F := Spec.F; k_k := Spec.k |}.
Proof.
  intros H. unfold rd_args, umul. rewrite wrap32_small by exact H. reflexivity.
Qed.

(** C3: the thread of cell [(x, y)] replaces [U[idx]] by
    [U + dt·(Du·Laplacian(U) - U·V² + F·(1-U))] and [V[idx]] by
    [V + dt·(Dv·Laplacian(V) + U·V² - (F+k)·V)], every [U] and [V] of the two
    right-hand sides being the value the cell had when the thread started
    (also the [U] of the second formula, computed after [U[idx]] was
    stored), with [dt = 0.5], [dx = 2.0], [F = 0.012], [k = 0.052],
    [Du = 0.0004·(width·height/100)] and [Dv = 0.0002·(width·height/100)],
    which are the constants [rd] launches the kernel with. *)
Theorem rd_kernel_update (width height : Z) (st : fields) (co : uint2) :
  0 < width <= 2147483648 -> 0 < height <= 2147483648 ->
  width * height < UINT_MOD ->
  length st.1 = Z.to_nat (width * height) ->
  length st.2 = Z.to_nat (width * height) ->
  0 <= x co < width -> 0 <= y co < height ->
  exists nu nv : float,
    Spec.newU width height st (x co) (y co) = Some nu /\
    Spec.newV width height st (x co) (y co) = Some nv /\
    rd_kernel (rd_args width height) co st
    = Some (<[Z.to_nat (y co * width + x co) := nu]> st.1,
            <[Z.to_nat (y co * width + x co) := nv]> st.2).
Proof.
  intros Hw Hh Hwh HU HV Hx Hy. destruct st as [Uo Vo]; simpl in *.
  rewrite rd_args_spec by nia.
  destruct (cell_is_Some Uo width height _ _ HU Hx Hy) as [u Hu].
  destruct (cell_is_Some Vo width height _ _ HV Hx Hy) as [v Hv].
  destruct (Laplacian_is_Some Spec.dx Uo width height _ _ HU Hx Hy) as [lu Hlu].
  destruct (Laplacian_is_Some Spec.dx Vo width height _ _ HV Hx Hy) as [lv Hlv].
  assert (Hidx : (Z.to_nat (y co * width + x co) < Z.to_nat (width * height))%nat)
    by (apply Z2Nat.inj_lt; nia).
  unfold Spec.newU, Spec.newV; simpl. rewrite Hu, Hv, Hlu, Hlv; simpl.
  eexists _, _. split; [reflexivity|]. split; [reflexivity|].
  unfold rd_kernel, rd_kernel_computeU, rd_kernel_storeU, rd_kernel_computeV,
    rd_kernel_storeV; simpl.
  rewrite linear_index_small by (simpl; lia). simpl.
  unfold load. unfold Spec.cell in Hu, Hv. rewrite Hu, Hv; simpl.
  rewrite (calculateLaplacian_wraps _ Uo co u width height) by (auto; lia).
  rewrite Hlu; simpl.
  rewrite store_Some by (rewrite HU; exact Hidx). simpl.
  rewrite (calculateLaplacian_wraps _ Vo co v width height) by (auto; lia).
  rewrite Hlv; simpl.
  rewrite store_Some by (rewrite HV; exact Hidx). simpl.
  reflexivity.
Qed.

Lemma rd_kernel_update_witness :
  exists nu nv : float,
    Spec.newU 16 16 (replicate 256 F32.one, replicate 256 F32.zero) 15 0 = Some nu /\
    Spec.newV 16 16 (replicate 256 F32.one, replicate 256 F32.zero) 15 0 = Some nv /\
    rd_kernel (rd_args 16 16) (make_uint2 15 0)
      (replicate 256 F32.one, replicate 256 F32.zero)
    = Some (<[Z.to_nat (0 * 16 + 15) := nu]> (replicate 256 F32.one),
            <[Z.to_nat (0 * 16 + 15) := nv]> (replicate 256 F32.zero)).
Proof.
  apply (rd_kernel_update 16 16 (replicate 256 F32.one, replicate 256 F32.zero)
           (make_uint2 15 0)); simpl; try lia; try reflexivity.
Defined.

(** ** Lengths are preserved *)

Lemma rd_kernel_storeU_length a co v st st' :
  rd_kernel_storeU a co v st = Some st' ->
  length st'.1 = length st.1 /\ st'.2 = st.2.
Proof.
  unfold rd_kernel_storeU. destruct (store st.1 _ v) as [U'|] eqn:E; simpl; [|discriminate].
  intros H; inversion H; subst; simpl. split; [eapply store_length; eauto | reflexivity].
Qed.

Lemma rd_kernel_storeV_length a co v st st' :
  rd_kernel_storeV a co v st = Some st' ->
  st'.1 = st.1 /\ length st'.2 = length st.2.
Proof.
  unfold rd_kernel_storeV. destruct (store st.2 _ v) as [V'|] eqn:E; simpl; [|discriminate].
  intros H; inversion H; subst; simpl. split; [reflexivity | eapply store_length; eauto].
Qed.

Lemma storeU_all_length a rs : forall st st',
  storeU_all a rs st = Some st' ->
  length st'.1 = length st.1 /\ st'.2 = st.2.
Proof.
  induction rs as [|[co [[vU vV] nu]] rs IH]; intros st st' H; simpl in H.
  - inversion H; auto.
  - destruct (rd_kernel_storeU a co nu st) as [st1|] eqn:E; simpl in H; [|discriminate].
    apply rd_kernel_storeU_length in E. apply IH in H.
    destruct E as [E1 E2], H as [H1 H2]. split; congruence.
Qed.

Lemma storeV_all_length a vs : forall st st',
  storeV_all a vs st = Some st' ->
  st'.1 = st.1 /\ length st'.2 = length st.2.
Proof.
  induction vs as [|[co nv] vs IH]; intros st st' H; simpl in H.
  - inversion H; auto.
  - destruct (rd_kernel_storeV a co nv st) as [st1|] eqn:E; simpl in H; [|discriminate].
    apply rd_kernel_storeV_length in E. apply IH in H.
    destruct E as [E1 E2], H as [H1 H2]. split; congruence.
Qed.

Lemma run_group_length a g st st' :
  run_group a g st = Some st' ->
  length st'.1 = length st.1 /\ length st'.2 = length st.2.
Proof.
  unfold run_group. intros H.
  destruct (computeU_all a g st) as [rs|]; simpl in H; [|discriminate].
  destruct (storeU_all a rs st) as [st1|] eqn:E1; simpl in H; [|discriminate].
  destruct (computeV_all a rs st1) as [vs|]; simpl in H; [|discriminate].
  apply storeU_all_length in E1. apply storeV_all_length in H.
  destruct E1 as [A1 A2], H as [B1 B2]. split; congruence.
Qed.

Lemma rd_kernel_launch_length a sched : forall st st',
  rd_kernel_launch a sched st = Some st' ->
  length st'.1 = length st.1 /\ length st'.2 = length st.2.
Proof.
  induction sched as [|g sched IH]; intros st st' H; simpl in H.
  - inversion H; auto.
  - destruct (run_group a g st) as [st1|] eqn:E; simpl in H; [|discriminate].
    apply run_group_length in E. apply IH in H.
    destruct E as [A1 A2], H as [B1 B2]. split; congruence.
Qed.

Section HostFacts.

Variable RAND_MAX : Z.
Variable rand : nat -> Z.
Variable junk : nat -> float.

Lemma new_array_length n : length (new_array junk n) = Z.to_nat n.
Proof. unfold new_array. rewrite length_map, length_seq. reflexivity. Qed.

Lemma fill_loop_length count : forall k uv uv',
  fill_loop count k uv = Some uv' ->
  length uv'.1 = length uv.1 /\ length uv'.2 = length uv.2.
Proof.
  induction count as [|c IH]; intros k uv uv' H; simpl in H.
  - inversion H; auto.
  - destruct (store uv.1 k F32.one) as [U'|] eqn:E1; simpl in H; [|discriminate].
    destruct (store uv.2 k F32.zero) as [V'|] eqn:E2; simpl in H; [|discriminate].
    apply IH in H. apply store_length in E1, E2. simpl in H. lia.
Qed.

Lemma patch_cols_length fuel width i : forall j uv uv',
  patch_cols fuel width i j uv = Some uv' ->
  length uv'.1 = length uv.1 /\ length uv'.2 = length uv.2.
Proof.
  induction fuel as [|f IH]; intros j uv uv' H; simpl in H;
    destruct (F32.ltb _ _); try discriminate; try (inversion H; auto; fail).
  destruct (store uv.1 _ F32.c0_5) as [U'|] eqn:E1; simpl in H; [|discriminate].
  destruct (store uv.2 _ F32.c0_25) as [V'|] eqn:E2; simpl in H; [|discriminate].
  destruct (decide (j < INT_MAX)); [|discriminate].
  apply IH in H. apply store_length in E1, E2. simpl in H. lia.
Qed.

Lemma patch_rows_length fuel width height : forall i uv uv',
  patch_rows fuel width height i uv = Some uv' ->
  length uv'.1 = length uv.1 /\ length uv'.2 = length uv.2.
Proof.
  induction fuel as [|f IH]; intros i uv uv' H; simpl in H;
    destruct (F32.ltb _ _); try discriminate; try (inversion H; auto; fail).
  destruct (F32.to_Z_trunc _) as [j0|]; simpl in H; [|discriminate].
  destruct (decide (j0 <= INT_MAX)); [|discriminate].
  destruct (patch_cols _ width i j0 uv) as [uv1|] eqn:E; simpl in H; [|discriminate].
  destruct (decide (i < INT_MAX)); [|discriminate].
  apply IH in H. apply patch_cols_length in E. lia.
Qed.

Lemma seeded_fields_length width height uv :
  seeded_fields junk width height = Some uv ->
  length uv.1 = Z.to_nat (umul width height) /\
  length uv.2 = Z.to_nat (umul width height).
Proof.
  unfold seeded_fields. intros H.
  destruct (decide (umul width height <= INT_MAX)); [|discriminate].
  destruct (fill_loop _ 0 _) as [uv0|] eqn:E0; simpl in H; [|discriminate].
  destruct (F32.to_Z_trunc _) as [i0|]; simpl in H; [|discriminate].
  destruct (decide (i0 <= INT_MAX)); [|discriminate].
  apply patch_rows_length in H. apply fill_loop_length in E0. simpl in E0.
  rewrite !new_array_length in E0. lia.
Qed.

Lemma perturb_cell_Some array k calls :
  (Z.to_nat k < length array)%nat ->
  exists array' calls',
    perturb_cell RAND_MAX rand array k calls = Some (array', calls') /\
    length array' = length array.
Proof.
  intros Hk. unfold perturb_cell, load.
  destruct (lookup_lt_is_Some_2 array _ Hk) as [v ->]. simpl.
  destruct (F32.ltb v F32.one).
  - rewrite store_Some by exact Hk. simpl. eexists _, _. split; [reflexivity|].
    apply length_insert.
  - eexists _, _. split; reflexivity.
Qed.

Lemma perturb_loop_Some count : forall k uv calls,
  0 <= k ->
  (Z.to_nat k + count <= length uv.1)%nat ->
  (Z.to_nat k + count <= length uv.2)%nat ->
  exists uv' calls',
    perturb_loop RAND_MAX rand count k uv calls = Some (uv', calls') /\
    length uv'.1 = length uv.1 /\ length uv'.2 = length uv.2.
Proof.
  induction count as [|c IH]; intros k uv calls Hk H1 H2; simpl.
  - eexists _, _. split; [reflexivity | auto].
  - destruct (perturb_cell_Some uv.1 k calls ltac:(lia)) as (U' & c1 & -> & HU).
    simpl.
    destruct (perturb_cell_Some uv.2 k c1 ltac:(lia)) as (V' & c2 & -> & HV).
    simpl.
    destruct (IH (k + 1) (U', V') c2) as (uv' & c' & -> & L1 & L2);
      simpl; try lia.
    eexists _, _. split; [reflexivity|]. simpl in *. lia.
Qed.

Lemma initializeConcentrations_Some width height calls uv :
  seeded_fields junk width height = Some uv ->
  exists uv' calls',
    initializeConcentrations RAND_MAX rand junk width height calls = Some (uv', calls') /\
    length uv'.1 = Z.to_nat (umul width height) /\
    length uv'.2 = Z.to_nat (umul width height).
Proof.
  intros Hs. unfold initializeConcentrations. rewrite Hs. simpl.
  destruct (seeded_fields_length _ _ _ Hs) as [L1 L2].
  destruct (perturb_loop_Some (Z.to_nat (umul width height)) 0 uv calls)
    as (uv' & c' & -> & M1 & M2); simpl; try lia.
  eexists _, _. split; [reflexivity|]. lia.
Qed.

End HostFacts.

(** ** The first call and the dimension check *)

Lemma rd_first_call RAND_MAX rand junk sched launch_ok width height result w uv calls :
  first_pass w = true ->
  initializeConcentrations RAND_MAX rand junk width height (rand_calls w)
  = Some (uv, calls) ->
  rd RAND_MAX rand junk sched true launch_ok width height result w
  = rd_step sched launch_ok width height result (after_first_pass width height uv calls w).
Proof.
  intros Hfp Hi. unfold rd, rd_first_pass. rewrite Hfp.
  cbn [log first_pass U V rand_calls trace]. rewrite Hi. destruct uv as [_U _V].
  unfold after_first_pass. cbn [fst snd]. rewrite <- !app_assoc. reflexivity.
Qed.

Lemma rd_later_call RAND_MAX rand junk sched alloc_ok launch_ok width height result w :
  first_pass w = false ->
  rd RAND_MAX rand junk sched alloc_ok launch_ok width height result w
  = rd_step sched launch_ok width height result w.
Proof. intros Hfp. unfold rd. rewrite Hfp. reflexivity. Qed.

Lemma rd_step_misaligned sched launch_ok width height result w :
  umod width BLOCK ≠ 0 ∨ umod height BLOCK ≠ 0 ->
  rd_step sched launch_ok width height result w
  = Exited DimensionError (log (EvExit DimensionError) w).
Proof.
  intros H. unfold rd_step. destruct (decide _); [reflexivity | contradiction].
Qed.

Lemma seeded_fields_17_16 (junk : nat -> float) :
  exists uv, seeded_fields junk 17 16 = Some uv.
Proof. eexists. vm_compute. reflexivity. Qed.

Lemma rd_17_16 RAND_MAX rand junk sched launch_ok result :
  exists uv calls,
    initializeConcentrations RAND_MAX rand junk 17 16 0 = Some (uv, calls) /\
    rd RAND_MAX rand junk sched true launch_ok 17 16 result initial_world
    = Exited DimensionError
        {| first_pass := false; U := Some uv.1; V := Some uv.2; rand_calls := calls;
           trace := [EvMalloc 272; EvMalloc 272; EvInitialize 17 16;
                     EvUpload 272; EvUpload 272; EvExit DimensionError] |}.
Proof.
  destruct (seeded_fields_17_16 junk) as [uv0 Hs].
  destruct (initializeConcentrations_Some RAND_MAX rand junk 17 16 0 uv0 Hs)
    as (uv & calls & Hi & _).
  exists uv, calls. split; [exact Hi|].
  rewrite (rd_first_call _ _ _ _ _ _ _ _ _ uv calls) by (try reflexivity; exact Hi).
  rewrite rd_step_misaligned by (left; vm_compute; discriminate).
  reflexivity.
Qed.

(** C2, as the code has it: the first call with [width = 17] and
    [height = 16] ends in the dimension error, for every platform, schedule,
    launch status and output buffer, and it does so after both buffers were
    allocated, initialised and uploaded: no kernel was launched and nothing
    was copied out. *)
Theorem rd_17_16_fails_after_initialization (RAND_MAX : Z) (rand : nat -> Z)
    (junk : nat -> float) (sched : schedule) (launch_ok : bool) (result : list float) :
  exists uv calls,
    initializeConcentrations RAND_MAX rand junk 17 16 0 = Some (uv, calls) /\
    rd RAND_MAX rand junk sched true launch_ok 17 16 result initial_world
    = Exited DimensionError
        {| first_pass := false; U := Some uv.1; V := Some uv.2; rand_calls := calls;
           trace := [EvMalloc 272; EvMalloc 272; EvInitialize 17 16;
                     EvUpload 272; EvUpload 272; EvExit DimensionError] |}.
Proof. apply rd_17_16. Qed.

(** C2, as stated, fails: at the exit the buffers are allocated. *)
Lemma rd_17_16_validates_late :
  ~ exists w',
      rd RAND_MAX_31 rand_zero junk_zero [] true true 17 16 [] initial_world
      = Exited DimensionError w' /\ untouched w'.
Proof.
  intros (w' & Hrd & HU & _).
  destruct (rd_17_16 RAND_MAX_31 rand_zero junk_zero [] true [])
    as (uv & calls & _ & H).
  rewrite H in Hrd. clear H. inversion Hrd; subst. simpl in HU. discriminate HU.
Qed.

(** ** Later calls *)

Lemma rd_step_aligned sched launch_ok width height result w w' :
  umod width BLOCK = 0 -> umod height BLOCK = 0 ->
  rd_step sched launch_ok width height result w ≠ Exited DimensionError w'.
Proof.
  intros Hw Hh. unfold rd_step. destruct (decide _) as [[H|H]|_]; try contradiction.
  destruct (U w) as [u|]; [|discriminate]. destruct (V w) as [v|]; [|discriminate].
  destruct launch_ok; [|discriminate].
  destruct (rd_kernel_launch _ sched (u, v)) as [[u' v']|]; [|discriminate].
  destruct (decide _); discriminate.
Qed.

(** What a first call that returned leaves behind: the two buffers hold
    the fields [initializeConcentrations] made, advanced by the launch of
    that call. *)
Lemma rd_Returned_first RAND_MAX rand junk sched alloc_ok launch_ok width height
    result wA result1 :
  rd RAND_MAX rand junk sched alloc_ok launch_ok width height result initial_world
  = Returned wA result1 ->
  exists uv0 u v,
    initializeConcentrations RAND_MAX rand junk width height 0
    = Some (uv0, rand_calls wA) /\
    rd_kernel_launch (rd_args width height) sched uv0 = Some (u, v) /\
    U wA = Some u /\ V wA = Some v /\ first_pass wA = false /\
    length u = Z.to_nat (umul width height) /\
    length v = Z.to_nat (umul width height).
Proof.
  unfold rd. cbn [first_pass initial_world]. unfold rd_first_pass.
  destruct alloc_ok; [|discriminate].
  cbn [log first_pass U V rand_calls trace initial_world].
  destruct (initializeConcentrations _ _ _ width height 0) as [[[_U _V] calls]|] eqn:Hi;
    [|discriminate].
  unfold rd_step. destruct (decide _); [discriminate|]. cbn [U V].
  destruct launch_ok; [|discriminate].
  destruct (rd_kernel_launch _ sched (_U, _V)) as [[u v]|] eqn:E; [|discriminate].
  destruct (decide _); [|discriminate].
  intros H; inversion H; subst; clear H. cbn [U V first_pass rand_calls log].
  exists (_U, _V), u, v. split; [reflexivity|]. split; [exact E|].
  apply rd_kernel_launch_length in E. cbn [fst snd] in E.
  unfold initializeConcentrations in Hi.
  destruct (seeded_fields junk width height) as [uv0|] eqn:Hs; simpl in Hi; [|discriminate].
  destruct (seeded_fields_length _ _ _ _ Hs) as [L1 L2].
  destruct (perturb_loop_Some RAND_MAX rand (Z.to_nat (umul width height)) 0 uv0 0)
    as (uv' & c' & Hp & M1 & M2); simpl; try lia.
  rewrite Hp in Hi. inversion Hi; subst. cbn [fst snd] in *.
  repeat split; try reflexivity; lia.
Qed.

(** C9, as the code has it: [rd] keeps no record of the dimensions of
    earlier calls.  After a first call that returned, [U] and [V] are the
    fields that call initialised and advanced by its launch, of the first
    call's number of cells.  A call with other dimensions that are multiples
    of 16 never ends in the dimension error: it launches the kernel with the
    new dimensions on these buffers.  If the launch is refused it ends in
    the kernel error, the launch recorded; if a thread goes outside the
    buffers its behaviour is undefined; otherwise the buffers hold what the
    launch with the new dimensions made of them, still with the first call's
    number of cells, nothing is allocated or initialised again, and the call
    returns the first cells of [U], as many as the new dimensions ask for,
    provided the buffer and the output have that many. *)
Theorem rd_dimensions_unchecked (RAND_MAX : Z) (rand : nat -> Z) (junk : nat -> float)
    (sched1 sched2 : schedule) (alloc1 launch1 alloc2 launch2 : bool)
    (width1 height1 width2 height2 : Z) (result0 result1 : list float) (wA : world) :
  rd RAND_MAX rand junk sched1 alloc1 launch1 width1 height1 result0 initial_world
  = Returned wA result1 ->
  (width1, height1) ≠ (width2, height2) ->
  umod width2 BLOCK = 0 -> umod height2 BLOCK = 0 ->
  exists (uv0 : fields) (u v : list float),
    initializeConcentrations RAND_MAX rand junk width1 height1 0
    = Some (uv0, rand_calls wA) /\
    rd_kernel_launch (rd_args width1 height1) sched1 uv0 = Some (u, v) /\
    U wA = Some u /\ V wA = Some v /\
    length u = Z.to_nat (umul width1 height1) /\
    length v = Z.to_nat (umul width1 height1) /\
    (forall w', rd RAND_MAX rand junk sched2 alloc2 launch2 width2 height2 result1 wA
                ≠ Exited DimensionError w') /\
    (launch2 = false ->
     rd RAND_MAX rand junk sched2 alloc2 launch2 width2 height2 result1 wA
     = Exited CudaKernelError
         {| first_pass := false; U := Some u; V := Some v; rand_calls := rand_calls wA;
            trace := trace wA ++ [EvLaunch width2 height2; EvExit CudaKernelError] |}) /\
    (launch2 = true ->
     rd_kernel_launch (rd_args width2 height2) sched2 (u, v) = None ->
     rd RAND_MAX rand junk sched2 alloc2 launch2 width2 height2 result1 wA = Undefined) /\
    (launch2 = true ->
     forall u' v' : list float,
       rd_kernel_launch (rd_args width2 height2) sched2 (u, v) = Some (u', v') ->
       length u' = Z.to_nat (umul width1 height1) /\
       length v' = Z.to_nat (umul width1 height1) /\
       ((Z.to_nat (umul width2 height2) <= Z.to_nat (umul width1 height1) /\
         Z.to_nat (umul width2 height2) <= length result1)%nat ->
        rd RAND_MAX rand junk sched2 alloc2 launch2 width2 height2 result1 wA
        = Returned
            {| first_pass := false; U := Some u'; V := Some v';
               rand_calls := rand_calls wA;
               trace := trace wA ++ [EvLaunch width2 height2;
                                     EvCopyOut (umul width2 height2)] |}
            (take (Z.to_nat (umul width2 height2)) u'
             ++ drop (Z.to_nat (umul width2 height2)) result1)) /\
       (~ (Z.to_nat (umul width2 height2) <= Z.to_nat (umul width1 height1) /\
           Z.to_nat (umul width2 height2) <= length result1)%nat ->
        rd RAND_MAX rand junk sched2 alloc2 launch2 width2 height2 result1 wA
        = Undefined)).
Proof.
  intros H1 _ Hw Hh. apply rd_Returned_first in H1.
  destruct H1 as (uv0 & u & v & Hi & Hl & HU & HV & Hfp & Lu & Lv).
  exists uv0, u, v. split; [exact Hi|]. split; [exact Hl|]. split; [exact HU|].
  split; [exact HV|]. split; [exact Lu|]. split; [exact Lv|].
  rewrite rd_later_call by exact Hfp. split; [|split; [|split]].
  - intros w'. apply rd_step_aligned; assumption.
  - intros ->. unfold rd_step. destruct (decide _) as [[H|H]|_]; try contradiction.
    rewrite HU, HV. unfold log. cbn [first_pass U V rand_calls trace].
    rewrite Hfp, HU, HV, <- app_assoc. reflexivity.
  - intros -> Hn. unfold rd_step. destruct (decide _) as [[H|H]|_]; try contradiction.
    rewrite HU, HV, Hn. reflexivity.
  - intros -> u' v' Hs. pose proof (rd_kernel_launch_length _ _ _ _ Hs) as [Lu' Lv'].
    cbn [fst snd] in Lu', Lv'. split; [lia|]. split; [lia|].
    unfold rd_step. destruct (decide _) as [[H|H]|_]; try contradiction.
    rewrite HU, HV, Hs. rewrite Lu', Lu. split; intros Hc.
    + destruct (decide _) as [_|Hn]; [|contradiction].
      unfold log. cbn [first_pass U V rand_calls trace].
      rewrite Hfp, <- app_assoc. reflexivity.
    + destruct (decide _) as [Hy|_]; [contradiction|reflexivity].
Qed.

Lemma rd_first_32_16 :
  exists wA result1,
    rd RAND_MAX_31 rand_zero junk_zero (warps_in_order 32 16) true true 32 16
       (replicate 512 F32.zero) initial_world
    = Returned wA result1.
Proof. eexists _, _. vm_compute. reflexivity. Qed.

(** C9, as stated, fails: a call with 32x16 followed by a call with 16x16
    returns normally both times; the second call launches the kernel for
    16x16 on the fields of the first, which stay 512 cells long. *)
Lemma rd_resize_not_reported :
  exists wA result1 wB result2,
    rd RAND_MAX_31 rand_zero junk_zero (warps_in_order 32 16) true true 32 16
       (replicate 512 F32.zero) initial_world
    = Returned wA result1 /\
    rd RAND_MAX_31 rand_zero junk_zero (warps_in_order 16 16) true true 16 16
       result1 wA
    = Returned wB result2 /\
    (length <$> U wB) = Some 512%nat /\
    trace wB = [EvMalloc 512; EvMalloc 512; EvInitialize 32 16; EvUpload 512;
                EvUpload 512; EvLaunch 32 16; EvCopyOut 512;
                EvLaunch 16 16; EvCopyOut 256].
Proof.
  eexists _, _, _, _. split; [vm_compute; reflexivity|].
  split; [vm_compute; reflexivity|]. split; reflexivity.
Qed.

Lemma rd_dimensions_unchecked_witness :
  exists wA result1,
    rd RAND_MAX_31 rand_zero junk_zero (warps_in_order 32 16) true true 32 16
       (replicate 512 F32.zero) initial_world
    = Returned wA result1 /\
    exists (uv0 : fields) (u v : list float),
      initializeConcentrations RAND_MAX_31 rand_zero junk_zero 32 16 0
      = Some (uv0, rand_calls wA) /\
      rd_kernel_launch (rd_args 32 16) (warps_in_order 32 16) uv0 = Some (u, v) /\
      U wA = Some u /\ V wA = Some v /\
      length u = Z.to_nat (umul 32 16) /\
      length v = Z.to_nat (umul 32 16) /\
      (forall w', rd RAND_MAX_31 rand_zero junk_zero (warps_in_order 16 16) true true
                     16 16 result1 wA ≠ Exited DimensionError w') /\
      (true = false ->
       rd RAND_MAX_31 rand_zero junk_zero (warps_in_order 16 16) true true
          16 16 result1 wA
       = Exited CudaKernelError
           {| first_pass := false; U := Some u; V := Some v;
              rand_calls := rand_calls wA;
              trace := trace wA ++ [EvLaunch 16 16; EvExit CudaKernelError] |}) /\
      (true = true ->
       rd_kernel_launch (rd_args 16 16) (warps_in_order 16 16) (u, v) = None ->
       rd RAND_MAX_31 rand_zero junk_zero (warps_in_order 16 16) true true
          16 16 result1 wA = Undefined) /\
      (true = true ->
       forall u' v' : list float,
         rd_kernel_launch (rd_args 16 16) (warps_in_order 16 16) (u, v) = Some (u', v') ->
         length u' = Z.to_nat (umul 32 16) /\
         length v' = Z.to_nat (umul 32 16) /\
         ((Z.to_nat (umul 16 16) <= Z.to_nat (umul 32 16) /\
           Z.to_nat (umul 16 16) <= length result1)%nat ->
          rd RAND_MAX_31 rand_zero junk_zero (warps_in_order 16 16) true true
             16 16 result1 wA
          = Returned
              {| first_pass := false; U := Some u'; V := Some v';
                 rand_calls := rand_calls wA;
                 trace := trace wA ++ [EvLaunch 16 16; EvCopyOut (umul 16 16)] |}
              (take (Z.to_nat (umul 16 16)) u'
               ++ drop (Z.to_nat (umul 16 16)) result1)) /\
         (~ (Z.to_nat (umul 16 16) <= Z.to_nat (umul 32 16) /\
             Z.to_nat (umul 16 16) <= length result1)%nat ->
          rd RAND_MAX_31 rand_zero junk_zero (warps_in_order 16 16) true true
             16 16 result1 wA
          = Undefined)).
Proof.
  destruct rd_first_32_16 as (wA & result1 & H). exists wA, result1.
  split; [exact H|].
  apply (rd_dimensions_unchecked RAND_MAX_31 rand_zero junk_zero
           (warps_in_order 32 16) (warps_in_order 16 16) true true true true
           32 16 16 16 (replicate 512 F32.zero) result1 wA H).
  - intros E. inversion E.
  - reflexivity.
  - reflexivity.
Defined.

(** ** The in-place update *)

(** C1 does not hold of the kernel.  On the very first call for a 16x16
    grid (every [rand()] returning 0) the launch that runs the eight warps of
    the only block one after the other leaves in cell (7, 8) of [U] a value
    that differs from the one of the double-buffered step: the warp of rows 8
    and 9 loads the upper neighbours in row 7 after the warp of rows 6 and 7
    has stored them. *)
Theorem rd_kernel_in_place_hazard :
  exists uv calls after_launch after_reference,
    initializeConcentrations RAND_MAX_31 rand_zero junk_zero 16 16 0 = Some (uv, calls) /\
    rd_kernel_launch (rd_args 16 16) (warps_in_order 16 16) uv = Some after_launch /\
    reference_step (rd_args 16 16) uv = Some after_reference /\
    after_launch.1 !! 135%nat = Some (S754_finite false 16206684 (-25)) /\
    after_reference.1 !! 135%nat = Some (S754_finite false 16206736 (-25)).
Proof.
  eexists _, _, _, _.
  split; [vm_compute; reflexivity|].
  split; [vm_compute; reflexivity|].
  split; [vm_compute; reflexivity|].
  split; reflexivity.
Qed.

(** * Floating-point analysis *)

(** ** Binary32 numbers as real numbers *)

(** *** Powers of two *)

Lemma bpow_gt_0 e : (0 < bpow e)%R.
Proof. apply powerRZ_lt. lra. Qed.

Lemma bpow_plus a b : bpow (a + b) = (bpow a * bpow b)%R.
Proof. apply powerRZ_add. lra. Qed.

Lemma bpow_0 : bpow 0 = 1%R.
Proof. reflexivity. Qed.

Lemma bpow_1 : bpow 1 = 2%R.
Proof. unfold bpow. simpl. lra. Qed.

Lemma bpow_succ e : bpow (e + 1) = (2 * bpow e)%R.
Proof. rewrite bpow_plus, bpow_1. lra. Qed.

Lemma bpow_opp e : bpow (- e) = (/ bpow e)%R.
Proof. apply powerRZ_neg'. Qed.

Lemma bpow_IZR e : 0 <= e -> bpow e = IZR (2 ^ e).
Proof.
  intros He. rewrite <- (Z2Nat.id e He). unfold bpow.
  rewrite <- pow_powerRZ. rewrite pow_IZR. reflexivity.
Qed.

Lemma bpow_lt a b : a < b -> (bpow a < bpow b)%R.
Proof.
  intros H. replace b with (a + (b - a)) by ring. rewrite bpow_plus.
  rewrite (bpow_IZR (b - a)) by lia.
  assert (1 < 2 ^ (b - a)) by (apply Z.pow_gt_1; lia).
  apply IZR_lt in H0. pose proof (bpow_gt_0 a). nra.
Qed.

Lemma bpow_le a b : a <= b -> (bpow a <= bpow b)%R.
Proof.
  intros H. destruct (Z.eq_dec a b) as [->|]; [lra|].
  apply Rlt_le, bpow_lt. lia.
Qed.

Lemma bpow_lt_inv a b : (bpow a < bpow b)%R -> a < b.
Proof.
  intros H. destruct (Z_lt_le_dec a b); [assumption|].
  apply bpow_le in l. lra.
Qed.

Lemma F2R_shift m e k : 0 <= k -> F2R (m * 2 ^ k) (e - k) = F2R m e.
Proof.
  intros Hk. unfold F2R. rewrite mult_IZR, <- bpow_IZR by lia.
  rewrite Rmult_assoc, <- bpow_plus. f_equal. f_equal. ring.
Qed.

(** *** Digits *)

Lemma digits2_pos_spec m :
  2 ^ (Zpos (digits2_pos m) - 1) <= Zpos m < 2 ^ Zpos (digits2_pos m).
Proof.
  induction m as [m IH|m IH|]; simpl digits2_pos.
  - rewrite Pos2Z.inj_succ. replace (Z.succ (Zpos (digits2_pos m)) - 1)
      with (Z.succ (Zpos (digits2_pos m) - 1)) by lia.
    rewrite !Z.pow_succ_r by lia. lia.
  - rewrite Pos2Z.inj_succ. replace (Z.succ (Zpos (digits2_pos m)) - 1)
      with (Z.succ (Zpos (digits2_pos m) - 1)) by lia.
    rewrite !Z.pow_succ_r by lia. lia.
  - simpl. lia.
Qed.

Lemma Zdigits2_spec m : 0 < m -> 2 ^ (Zdigits2 m - 1) <= m < 2 ^ Zdigits2 m.
Proof. destruct m; try lia. intros _. apply digits2_pos_spec. Qed.

Lemma Zdigits2_pos m : 0 < m -> 0 < Zdigits2 m.
Proof. destruct m; simpl; lia. Qed.

Lemma Zdigits2_unique m d : 2 ^ (d - 1) <= m < 2 ^ d -> 0 < m -> Zdigits2 m = d.
Proof.
  intros H Hm. pose proof (Zdigits2_spec m Hm) as H'.
  pose proof (Zdigits2_pos m Hm).
  assert (0 < d). { destruct (Z_lt_le_dec 0 d); [assumption|].
    assert (2 ^ d <= 2 ^ 0) by (apply Z.pow_le_mono_r; lia). simpl in *. lia. }
  destruct (Z_lt_le_dec (Zdigits2 m) d).
  - assert (2 ^ Zdigits2 m <= 2 ^ (d - 1)) by (apply Z.pow_le_mono_r; lia). lia.
  - destruct (Z_lt_le_dec d (Zdigits2 m)); [|lia].
    assert (2 ^ d <= 2 ^ (Zdigits2 m - 1)) by (apply Z.pow_le_mono_r; lia). lia.
Qed.

Lemma Zdigits2_le m n : 0 < m <= n -> Zdigits2 m <= Zdigits2 n.
Proof.
  intros [Hm Hn]. pose proof (Zdigits2_spec m Hm). pose proof (Zdigits2_spec n ltac:(lia)).
  destruct (Z_lt_le_dec (Zdigits2 n) (Zdigits2 m)); [|assumption].
  assert (2 ^ Zdigits2 n <= 2 ^ (Zdigits2 m - 1)) by (apply Z.pow_le_mono_r; lia). lia.
Qed.

Lemma Zdigits2_mul_pow m k : 0 < m -> 0 <= k -> Zdigits2 (m * 2 ^ k) = Zdigits2 m + k.
Proof.
  intros Hm Hk. pose proof (Zdigits2_spec m Hm). pose proof (Zdigits2_pos m Hm).
  assert (0 < 2 ^ k) by (apply Z.pow_pos_nonneg; lia).
  apply Zdigits2_unique; [|nia].
  replace (Zdigits2 m + k - 1) with ((Zdigits2 m - 1) + k) by ring.
  rewrite !Z.pow_add_r by lia. nia.
Qed.

Lemma Zdigits2_div_pow m k :
  0 < m -> 0 <= k < Zdigits2 m -> Zdigits2 (m / 2 ^ k) = Zdigits2 m - k.
Proof.
  intros Hm Hk. pose proof (Zdigits2_spec m Hm).
  assert (0 < 2 ^ k) by (apply Z.pow_pos_nonneg; lia).
  assert (E1 : 2 ^ (Zdigits2 m - 1) = 2 ^ (Zdigits2 m - k - 1) * 2 ^ k).
  { rewrite <- Z.pow_add_r by lia. f_equal. ring. }
  assert (E2 : 2 ^ Zdigits2 m = 2 ^ (Zdigits2 m - k) * 2 ^ k).
  { rewrite <- Z.pow_add_r by lia. f_equal. ring. }
  assert (0 < 2 ^ (Zdigits2 m - k - 1)) by (apply Z.pow_pos_nonneg; lia).
  assert (2 ^ (Zdigits2 m - k - 1) <= m / 2 ^ k).
  { apply Z.div_le_lower_bound; lia. }
  assert (m / 2 ^ k < 2 ^ (Zdigits2 m - k)).
  { apply Z.div_lt_upper_bound; lia. }
  apply Zdigits2_unique; lia.
Qed.

Lemma fexp32_eq e : fexp 24 128 e = fexp32 e.
Proof. reflexivity. Qed.

(** ** Right shifts and the location of the discarded bits *)

(** *** Iteration *)

Lemma iter_pos_iter {T} (f : T -> T) p : forall a, SpecFloat.iter_pos f p a = Pos.iter f a p.
Proof.
  induction p as [p IH|p IH|]; intros a; simpl.
  - rewrite !IH. rewrite Pos.iter_swap. apply Pos.iter_swap.
  - rewrite !IH. reflexivity.
  - reflexivity.
Qed.

Lemma iter_pos_succ {T} (f : T -> T) p a :
  SpecFloat.iter_pos f (Pos.succ p) a = f (SpecFloat.iter_pos f p a).
Proof. rewrite !iter_pos_iter. apply Pos.iter_succ. Qed.

Lemma iter_pos_1 {T} (f : T -> T) a : SpecFloat.iter_pos f 1 a = f a.
Proof. reflexivity. Qed.

(** *** One shift *)

Lemma shr_1_m mrs : 0 <= shr_m mrs -> shr_m (shr_1 mrs) = shr_m mrs / 2.
Proof.
  destruct mrs as [m r s]; simpl. intros Hm.
  destruct m as [|[p|p|]|p]; cbn [shr_1 shr_m]; try lia; try reflexivity.
  - apply Z.div_unique with 1; lia.
  - apply Z.div_unique with 0; lia.
Qed.

Lemma shr_1_nonneg mrs : 0 <= shr_m mrs -> 0 <= shr_m (shr_1 mrs).
Proof. intros H. rewrite shr_1_m by exact H. apply Z.div_pos; lia. Qed.

Lemma shr_1_locates mrs e x :
  0 <= shr_m mrs -> locates mrs e x -> locates (shr_1 mrs) (e + 1) x.
Proof.
  destruct mrs as [m r s]. unfold locates; simpl. intros Hm.
  rewrite bpow_succ. pose proof (bpow_gt_0 e) as Hu.
  destruct m as [|[p|p|]|p]; try lia; cbn [shr_1 shr_m shr_r shr_s].
  - destruct r, s; cbn [orb]; intros H; nra.
  - rewrite (Pos2Z.inj_xI p), plus_IZR, mult_IZR.
    destruct r, s; cbn [orb]; intros H; nra.
  - rewrite (Pos2Z.inj_xO p), mult_IZR.
    destruct r, s; cbn [orb]; intros H; nra.
  - destruct r, s; cbn [orb]; intros H; nra.
Qed.

Lemma shr_iter_nonneg p : forall mrs, 0 <= shr_m mrs -> 0 <= shr_m (SpecFloat.iter_pos shr_1 p mrs).
Proof.
  induction p using Pos.peano_ind; intros mrs H.
  - apply shr_1_nonneg, H.
  - rewrite iter_pos_succ. apply shr_1_nonneg, IHp, H.
Qed.

Lemma shr_iter_m p : forall mrs,
  0 <= shr_m mrs -> shr_m (SpecFloat.iter_pos shr_1 p mrs) = shr_m mrs / 2 ^ Zpos p.
Proof.
  induction p using Pos.peano_ind; intros mrs H.
  - rewrite iter_pos_1, shr_1_m by exact H. reflexivity.
  - rewrite iter_pos_succ, shr_1_m by (apply shr_iter_nonneg, H).
    rewrite IHp by exact H. rewrite Pos2Z.inj_succ, Z.pow_succ_r by lia.
    rewrite Z.div_div by lia. f_equal. ring.
Qed.

Lemma shr_iter_locates p : forall mrs e x,
  0 <= shr_m mrs -> locates mrs e x -> locates (SpecFloat.iter_pos shr_1 p mrs) (e + Zpos p) x.
Proof.
  induction p using Pos.peano_ind; intros mrs e x Hm H.
  - apply shr_1_locates; assumption.
  - rewrite iter_pos_succ, Pos2Z.inj_succ.
    replace (e + Z.succ (Zpos p)) with (e + Zpos p + 1) by lia.
    apply shr_1_locates; [apply shr_iter_nonneg, Hm | apply IHp; assumption].
Qed.

(** [shr] by [n >= 0] places. *)
Lemma shr_spec mrs e n x :
  0 <= shr_m mrs -> 0 <= n -> locates mrs e x ->
  let '(mrs', e') := shr mrs e n in
  e' = e + n /\ shr_m mrs' = shr_m mrs / 2 ^ n /\ locates mrs' e' x.
Proof.
  intros Hm Hn H. destruct n as [|p|p]; try lia; simpl.
  - rewrite Z.add_0_r, Z.div_1_r. auto.
  - split; [reflexivity|]. split; [apply shr_iter_m, Hm | apply shr_iter_locates; assumption].
Qed.

(** *** Rounding a located record *)

Lemma round_nearest_even_spec mrs e x :
  0 <= shr_m mrs -> locates mrs e x ->
  let m' := round_nearest_even (shr_m mrs) (loc_of_shr_record mrs) in
  shr_m mrs <= m' <= shr_m mrs + 1 /\
  (Rabs (IZR m' * bpow e - x) <= bpow e / 2)%R /\
  (IZR (shr_m mrs) * bpow e <= x < (IZR (shr_m mrs) + 1) * bpow e)%R /\
  (x = (IZR (shr_m mrs) * bpow e)%R -> m' = shr_m mrs) /\
  (x = ((IZR (shr_m mrs) + / 2) * bpow e)%R -> Z.even m' = true).
Proof.
  destruct mrs as [m r s]. unfold locates; simpl. intros Hm H.
  pose proof (bpow_gt_0 e) as Hu.
  destruct r, s; cbn [loc_of_shr_record round_nearest_even shr_m shr_r shr_s] in *;
    [ | destruct (Z.even m) eqn:Ev | | ];
    try rewrite plus_IZR; repeat split; try lia; try lra;
    try (apply Rabs_le; lra);
    try (intros E; first [ lra | exact Ev | rewrite Z.even_add, Ev; reflexivity ]).
Qed.

(** ** Rounding of a located mantissa *)

Lemma shr_record_of_loc_m m l : shr_m (shr_record_of_loc m l) = m.
Proof. destruct l as [|[]]; reflexivity. Qed.

Lemma Zdigits2_nonneg m : 0 <= Zdigits2 m.
Proof. destruct m; simpl; lia. Qed.

Lemma Zdigits2_succ_le q : 0 < q -> q + 1 <= 2 ^ Zdigits2 q.
Proof. intros H. pose proof (Zdigits2_spec q H). lia. Qed.

Lemma Zdigits2_succ q :
  0 < q -> q + 1 < 2 ^ Zdigits2 q -> Zdigits2 (q + 1) = Zdigits2 q.
Proof.
  intros H H1. pose proof (Zdigits2_spec q H). apply Zdigits2_unique; lia.
Qed.

Lemma binary_round_aux_spec s M e l x :
  0 <= M -> locates (shr_record_of_loc M l) e x ->
  e <= fexp32 (Zdigits2 M + e) ->
  exists m1 e1,
    rounds_to M e x m1 e1 /\
    binary_round_aux 24 128 s M e l = pack32 s m1 e1.
Proof.
  intros HM Hloc Hk.
  set (e1 := fexp32 (Zdigits2 M + e)) in *.
  unfold binary_round_aux, shr_fexp. rewrite fexp32_eq. fold e1.
  pose proof (shr_spec (shr_record_of_loc M l) e (e1 - e) x) as Hs.
  rewrite shr_record_of_loc_m in Hs. specialize (Hs HM ltac:(lia) Hloc).
  destruct (shr (shr_record_of_loc M l) e (e1 - e)) as [mrs' e'].
  destruct Hs as (He' & Hq & Hloc'). replace (e + (e1 - e)) with e1 in He' by ring.
  subst e'. set (q := M / 2 ^ (e1 - e)) in *.
  assert (Hq0 : 0 <= q) by (apply Z.div_pos; [lia | apply Z.pow_pos_nonneg; lia]).
  pose proof (round_nearest_even_spec mrs' e1 x) as Hr. rewrite Hq in Hr.
  specialize (Hr Hq0 Hloc'). cbv zeta in Hr. rewrite Hq.
  set (m1 := round_nearest_even q (loc_of_shr_record mrs')) in *.
  destruct Hr as (Hm1 & Habs & Hx & Hex & Hev). clearbody m1.
  (* size of the quotient *)
  assert (Hsize : e1 >= -149 /\ (e1 = -149 \/ 8388608 <= q) /\ m1 <= 16777216 /\
                  (0 < m1 < 16777216 -> fexp32 (Zdigits2 m1 + e1) = e1)).
  { assert (e1 >= -149) by (unfold e1, fexp32; lia).
    split; [assumption|].
    destruct (Z.eq_dec q 0) as [Hq1|Hq1].
    - (* the quotient vanishes: only possible at the smallest exponent *)
      assert (Hgrid : e1 = -149).
      { destruct (Z.eq_dec M 0) as [->|HM0].
        - simpl in e1. unfold e1, fexp32 in *. lia.
        - pose proof (Zdigits2_spec M ltac:(lia)) as HdM.
          assert (Zdigits2 M <= e1 - e).
          { destruct (Z_lt_le_dec (e1 - e) (Zdigits2 M)); [|assumption].
            assert (2 ^ (e1 - e) <= 2 ^ (Zdigits2 M - 1)) by (apply Z.pow_le_mono_r; lia).
            assert (0 < 2 ^ (e1 - e)) by (apply Z.pow_pos_nonneg; lia).
            assert (1 <= q) by (apply Z.div_le_lower_bound; lia). lia. }
          unfold e1, fexp32 in *. lia. }
      split; [left; exact Hgrid|].
      assert (m1 = 0 \/ m1 = 1) as [->| ->] by lia; split; try lia.
      intros _. simpl Zdigits2.
      destruct (Z.eq_dec M 0) as [->|HM0].
      + simpl in e1. unfold e1, fexp32 in *. lia.
      + pose proof (Zdigits2_spec M ltac:(lia)) as HdM.
        assert (Zdigits2 M <= e1 - e).
        { destruct (Z_lt_le_dec (e1 - e) (Zdigits2 M)); [|assumption].
          assert (2 ^ (e1 - e) <= 2 ^ (Zdigits2 M - 1)) by (apply Z.pow_le_mono_r; lia).
          assert (0 < 2 ^ (e1 - e)) by (apply Z.pow_pos_nonneg; lia).
          assert (1 <= q) by (apply Z.div_le_lower_bound; lia). lia. }
        unfold e1, fexp32 in *. lia.
    - assert (HM0 : 0 < M).
      { destruct (Z.eq_dec M 0) as [->|]; [|lia]. unfold q in Hq1. rewrite Z.div_0_l in Hq1; [lia|].
        apply Z.pow_nonzero; lia. }
      assert (Hklt : e1 - e < Zdigits2 M).
      { destruct (Z_lt_le_dec (e1 - e) (Zdigits2 M)); [assumption|].
        pose proof (Zdigits2_spec M HM0).
        assert (2 ^ Zdigits2 M <= 2 ^ (e1 - e)) by (apply Z.pow_le_mono_r; lia).
        assert (q = 0) by (apply Z.div_small; lia). lia. }
      assert (Hdq : Zdigits2 q = Zdigits2 M - (e1 - e)) by (apply Zdigits2_div_pow; lia).
      assert (Hdq24 : Zdigits2 q <= 24) by (unfold e1, fexp32 in *; lia).
      pose proof (Zdigits2_spec q ltac:(lia)) as Hsq.
      assert (2 ^ Zdigits2 q <= 2 ^ 24) by (apply Z.pow_le_mono_r; lia).
      change (2 ^ 24) with 16777216 in *.
      split.
      { destruct (Z.eq_dec e1 (-149)); [left; assumption|right].
        assert (Zdigits2 q = 24) by (unfold e1, fexp32 in *; lia).
        replace (Zdigits2 q - 1) with 23 in Hsq by lia.
        change (2 ^ 23) with 8388608 in Hsq. lia. }
      split; [lia|]. intros Hm1'.
      destruct (Z.eq_dec m1 q) as [->|Hne].
      + rewrite Hdq. unfold e1, fexp32 in *. lia.
      + assert (m1 = q + 1) by lia. subst m1.
        destruct (Z.eq_dec (Zdigits2 q) 24) as [E24|N24].
        * rewrite Zdigits2_succ; [| lia | rewrite E24; change (2 ^ 24) with 16777216; lia].
          rewrite Hdq. unfold e1, fexp32 in *. lia.
        * assert (Zdigits2 (q + 1) <= 24).
          { assert (2 ^ Zdigits2 q <= 2 ^ 23) by (apply Z.pow_le_mono_r; lia).
            change (2 ^ 23) with 8388608 in *.
            pose proof (Zdigits2_spec (q + 1) ltac:(lia)).
            destruct (Z_lt_le_dec 24 (Zdigits2 (q + 1))); [|lia].
            assert (2 ^ 24 <= 2 ^ (Zdigits2 (q + 1) - 1)) by (apply Z.pow_le_mono_r; lia).
            change (2 ^ 24) with 16777216 in *. lia. }
          pose proof (Zdigits2_pos (q + 1) ltac:(lia)).
          unfold e1, fexp32 in *. lia. }
  destruct Hsize as (He1 & Hgrid & Hm1le & Hcan).
  exists m1, e1. split.
  { unfold rounds_to. fold e1. fold q. unfold F2R. rewrite plus_IZR.
    repeat split; try lia; try lra; try assumption. }
  (* the second normalisation *)
  unfold pack32. 
  destruct (Z.eqb_spec m1 0) as [->|Hm10].
  - simpl Zdigits2. rewrite Z.add_0_l.
    assert (fexp 24 128 e1 - e1 <= 0) by (rewrite fexp32_eq; unfold fexp32; lia).
    unfold shr. destruct (fexp 24 128 e1 - e1) as [|p|p]; try lia; reflexivity.
  - destruct (Z.eqb_spec m1 16777216) as [->|Hm1max].
    + change (Zdigits2 16777216) with 25. rewrite fexp32_eq.
      replace (fexp32 (25 + e1) - e1) with 1 by (unfold fexp32; lia).
      simpl. reflexivity.
    + rewrite fexp32_eq, Hcan by lia. rewrite Z.sub_diag. simpl.
      destruct m1 as [|p|p]; try lia. reflexivity.
Qed.

(** ** The numbers of the format and nearest rounding *)

Lemma F2R_0 e : F2R 0 e = 0%R.
Proof. unfold F2R. lra. Qed.

Lemma F2R_ge_0 m e : 0 <= m -> (0 <= F2R m e)%R.
Proof.
  intros H. unfold F2R. apply IZR_le in H. pose proof (bpow_gt_0 e). nra.
Qed.

Lemma F2R_gt_0 m e : 0 < m -> (0 < F2R m e)%R.
Proof.
  intros H. unfold F2R. apply IZR_lt in H. pose proof (bpow_gt_0 e). nra.
Qed.

Lemma F2R_le m n e : m <= n -> (F2R m e <= F2R n e)%R.
Proof.
  intros H. unfold F2R. apply IZR_le in H. pose proof (bpow_gt_0 e). nra.
Qed.

Lemma F2R_lt_inv m n e : (F2R m e < F2R n e)%R -> m < n.
Proof.
  intros H. destruct (Z_lt_le_dec m n); [assumption|].
  apply (F2R_le _ _ e) in l. lra.
Qed.

Lemma F2R_succ m e : F2R (m + 1) e = (F2R m e + bpow e)%R.
Proof. unfold F2R. rewrite plus_IZR. ring. Qed.

Lemma in_format_0 : in_format 0.
Proof. left. reflexivity. Qed.

Lemma in_format_opp y : in_format y -> in_format (- y).
Proof.
  intros [->|(m & e & Hc & [->| ->])].
  - left. lra.
  - right. exists m, e. auto.
  - right. exists m, e. split; [assumption|]. left. lra.
Qed.

Lemma nearest_opp x y : nearest x y -> nearest (- x) (- y).
Proof.
  intros [Hf Hn]. split; [apply in_format_opp, Hf|].
  intros g Hg. specialize (Hn (- g)%R (in_format_opp _ Hg)).
  replace (- y - - x)%R with (- (y - x))%R by ring.
  replace (g - - x)%R with (- (- g - x))%R by ring.
  rewrite !Rabs_Ropp. exact Hn.
Qed.

Lemma nearest_in_format x y : in_format x -> nearest x y -> y = x.
Proof.
  intros Hx [_ Hn]. specialize (Hn x Hx).
  replace (x - x)%R with 0%R in Hn by ring. rewrite Rabs_R0 in Hn.
  pose proof (Rabs_pos (y - x)). assert (Rabs (y - x) = 0%R) by lra.
  destruct (Req_dec (y - x) 0) as [E|E]; [lra|].
  apply Rabs_no_R0 in E. contradiction.
Qed.

Lemma nearest_mono x1 y1 x2 y2 :
  nearest x1 y1 -> nearest x2 y2 -> (x1 < x2)%R -> (y1 <= y2)%R.
Proof.
  intros [F1 N1] [F2 N2] Hx.
  specialize (N1 y2 F2). specialize (N2 y1 F1).
  destruct (Rle_dec y1 y2) as [|Hn]; [assumption|].
  exfalso. revert N1 N2. unfold Rabs.
  repeat destruct Rcase_abs; intros; lra.
Qed.

Lemma nearest_ge_0 x y : (0 <= x)%R -> nearest x y -> (0 <= y)%R.
Proof.
  intros Hx [_ Hn]. specialize (Hn 0%R in_format_0).
  revert Hn. unfold Rabs. repeat destruct Rcase_abs; intros; lra.
Qed.

(** No number of the format lies strictly between two neighbours of the
    grid the rounding works on. *)
Lemma grid_gap q e1 gm ge :
  canonical32 gm ge -> -149 <= e1 -> (e1 = -149 \/ 8388608 <= q) -> 0 <= q ->
  (F2R q e1 < F2R gm ge)%R -> (F2R (q + 1) e1 <= F2R gm ge)%R.
Proof.
  intros [Hgm Hge] He1 Hq Hq0 Hlt.
  assert (Hle : e1 <= ge).
  { destruct Hq as [->|Hq]; [unfold fexp32 in Hge; lia|].
    destruct (Z_lt_le_dec ge e1) as [Hc|]; [exfalso|assumption].
    assert (bpow ge <= bpow (e1 - 1))%R by (apply bpow_le; lia).
    assert (bpow e1 = 2 * bpow (e1 - 1))%R.
    { replace e1 with (e1 - 1 + 1) at 1 by ring. apply bpow_succ. }
    assert (IZR gm < 16777216)%R by (apply IZR_lt; lia).
    assert (8388608 <= IZR q)%R by (apply IZR_le; lia).
    assert (0 < IZR gm)%R by (apply IZR_lt; lia).
    pose proof (bpow_gt_0 ge). pose proof (bpow_gt_0 (e1 - 1)).
    unfold F2R in Hlt. nra. }
  rewrite <- (F2R_shift gm ge (ge - e1)) in * by lia.
  replace (ge - (ge - e1)) with e1 in * by ring.
  apply F2R_lt_inv in Hlt. apply F2R_le. lia.
Qed.

Lemma canonical32_carry e1 : -149 <= e1 -> canonical32 8388608 (e1 + 1).
Proof. intros H. split; [lia|]. change (Zdigits2 8388608) with 24. unfold fexp32. lia. Qed.

Lemma rounds_to_in_format M e x m1 e1 :
  0 <= M -> rounds_to M e x m1 e1 -> in_format (F2R m1 e1).
Proof.
  intros HM ((He1 & Hee) & Hm1 & _ & _ & _ & _ & Hle & Hcan & Hemin & _).
  assert (0 <= M / 2 ^ (e1 - e)) by (apply Z.div_pos; [lia|apply Z.pow_pos_nonneg; lia]).
  destruct (Z.eq_dec m1 0) as [->|]; [left; apply F2R_0|].
  right. destruct (Z.eq_dec m1 16777216) as [->|].
  - exists 8388608, (e1 + 1). split; [apply canonical32_carry; lia|]. left.
    rewrite <- (F2R_shift 8388608 (e1 + 1) 1) by lia. f_equal; lia.
  - exists m1, e1. split; [|left; reflexivity]. split; [lia|]. apply Hcan. lia.
Qed.

Lemma rounds_to_nearest M e x m1 e1 :
  0 <= M -> rounds_to M e x m1 e1 -> nearest x (F2R m1 e1).
Proof.
  intros HM H. split; [eapply rounds_to_in_format; eauto|].
  destruct H as ((He1 & Hee) & Hm1 & Habs & Hx & _ & _ & _ & _ & Hemin & Hgrid).
  set (q := M / 2 ^ (e1 - e)) in *.
  assert (Hq0 : 0 <= q) by (apply Z.div_pos; [lia|apply Z.pow_pos_nonneg; lia]).
  pose proof (F2R_ge_0 q e1 Hq0) as Hq0R. pose proof (bpow_gt_0 e1) as Hu.
  rewrite F2R_succ in Hx.
  assert (Hy : F2R m1 e1 = F2R q e1 \/ F2R m1 e1 = (F2R q e1 + bpow e1)%R).
  { assert (m1 = q \/ m1 = q + 1) as [->| ->] by lia; [left; reflexivity|right; apply F2R_succ]. }
  intros g Hg.
  assert (Hcases : (g <= F2R q e1 \/ F2R q e1 + bpow e1 <= g)%R).
  { destruct Hg as [->|(gm & ge & Hc & [->| ->])].
    - left. lra.
    - destruct (Rle_dec (F2R gm ge) (F2R q e1)); [left; assumption|right].
      rewrite <- F2R_succ. eapply grid_gap; eauto. lra.
    - left. pose proof (F2R_gt_0 gm ge ltac:(destruct Hc; lia)). lra. }
  revert Habs. unfold Rabs. repeat destruct Rcase_abs; intros; lra.
Qed.

(** *** The packed result *)

Lemma pack32_finite s m1 e1 :
  e1 <= 103 -> is_finite (pack32 s m1 e1) = true.
Proof.
  intros H. unfold pack32.
  destruct (m1 =? 0); [reflexivity|].
  destruct (m1 =? 16777216).
  - destruct (Z.leb_spec (e1 + 1) 104); [reflexivity|lia].
  - destruct (Z.leb_spec e1 104); [reflexivity|lia].
Qed.

Lemma pack32_B2R s m1 e1 :
  0 <= m1 -> is_finite (pack32 s m1 e1) = true ->
  B2R (pack32 s m1 e1) = signed s (F2R m1 e1).
Proof.
  intros Hm. unfold pack32.
  destruct (Z.eqb_spec m1 0) as [->|Hm0].
  - intros _. simpl. rewrite F2R_0. destruct s; simpl; lra.
  - destruct (Z.eqb_spec m1 16777216) as [->|Hmax].
    + destruct (e1 + 1 <=? 104); [|discriminate]. intros _.
      unfold B2R, signed, F2R. rewrite bpow_succ.
      destruct s; cbn [cond_Zopp]; [rewrite opp_IZR|]; lra.
    + destruct (e1 <=? 104); [|discriminate]. intros _.
      destruct m1 as [|p|p]; try lia.
      unfold B2R, signed, F2R. rewrite Z2Pos.id by lia.
      destruct s; cbn [cond_Zopp]; [rewrite opp_IZR|]; ring.
Qed.

Lemma pack32_valid s M e x m1 e1 :
  0 <= M -> rounds_to M e x m1 e1 -> valid_binary 24 128 (pack32 s m1 e1) = true.
Proof.
  intros HM ((He1 & Hee) & Hm1 & _ & _ & _ & _ & Hle & Hcan & Hemin & _).
  assert (0 <= M / 2 ^ (e1 - e)) by (apply Z.div_pos; [lia|apply Z.pow_pos_nonneg; lia]).
  unfold pack32.
  destruct (Z.eqb_spec m1 0); [reflexivity|].
  destruct (Z.eqb_spec m1 16777216).
  - destruct (Z.leb_spec (e1 + 1) 104); [|reflexivity].
    unfold valid_binary, bounded, canonical_mantissa. rewrite fexp32_eq.
    change (Z.pos (digits2_pos 8388608)) with 24.
    apply andb_true_intro. split; [apply Z.eqb_eq; unfold fexp32; lia|apply Z.leb_le; lia].
  - destruct (Z.leb_spec e1 104); [|reflexivity].
    unfold valid_binary, bounded, canonical_mantissa. rewrite fexp32_eq.
    destruct m1 as [|p|p]; try lia.
    change (Z.pos (digits2_pos (Z.to_pos (Z.pos p)))) with (Zdigits2 (Z.pos p)).
    apply andb_true_intro. split; [apply Z.eqb_eq; apply Hcan; lia|apply Z.leb_le; lia].
Qed.

(** ** Rounding a signed integer mantissa *)

Lemma valid_canonical s m e :
  valid (S754_finite s m e) -> canonical32 (Zpos m) e /\ -149 <= e <= 104.
Proof.
  unfold valid, valid_binary, bounded, canonical_mantissa. rewrite fexp32_eq.
  intros H. apply andb_prop in H. destruct H as [H1 H2].
  apply Z.eqb_eq in H1. apply Z.leb_le in H2.
  change (Zpos (digits2_pos m)) with (Zdigits2 (Zpos m)) in H1.
  pose proof (Zdigits2_spec (Zpos m) ltac:(lia)) as Hd.
  assert (Zdigits2 (Zpos m) <= 24) by (unfold fexp32 in H1; lia).
  assert (2 ^ Zdigits2 (Zpos m) <= 2 ^ 24) by (apply Z.pow_le_mono_r; lia).
  change (2 ^ 24) with 16777216 in *.
  split; [split; [lia|assumption] | unfold fexp32 in H1; lia].
Qed.

Lemma signed_opp s r : signed s (- r) = (- signed s r)%R.
Proof. destruct s; simpl; ring. Qed.

Lemma signed_abs s r : (0 <= r)%R -> Rabs (signed s r) = r.
Proof.
  intros H. destruct s; simpl; [rewrite Rabs_Ropp|]; apply Rabs_pos_eq; exact H.
Qed.

Lemma B2R_finite s m e : B2R (S754_finite s m e) = signed s (F2R (Zpos m) e).
Proof.
  unfold B2R, F2R. destruct s; cbn [cond_Zopp signed]; [|reflexivity].
  rewrite opp_IZR. ring.
Qed.

Lemma nearest_signed s x y : nearest x y -> nearest (signed s x) (signed s y).
Proof. destruct s; simpl; [apply nearest_opp|auto]. Qed.

Lemma rounds_to_x_ge_0 M e x m1 e1 : 0 <= M -> rounds_to M e x m1 e1 -> (0 <= x)%R.
Proof.
  intros HM ((_ & Hee) & _ & _ & Hx & _).
  assert (0 <= M / 2 ^ (e1 - e)) by (apply Z.div_pos; [lia|apply Z.pow_pos_nonneg; lia]).
  pose proof (F2R_ge_0 (M / 2 ^ (e1 - e)) e1 ltac:(lia)). lra.
Qed.

Lemma rounds_to_m1_ge_0 M e x m1 e1 : 0 <= M -> rounds_to M e x m1 e1 -> 0 <= m1.
Proof.
  intros HM ((_ & Hee) & Hm1 & _).
  assert (0 <= M / 2 ^ (e1 - e)) by (apply Z.div_pos; [lia|apply Z.pow_pos_nonneg; lia]).
  lia.
Qed.

Lemma rounded_valid s x f : rounded s x f -> valid f.
Proof. intros (M & e & m1 & e1 & HM & H & ->). eapply pack32_valid; eauto. Qed.

Lemma rounded_nearest s x f :
  rounded s x f -> is_finite f = true -> nearest (signed s x) (B2R f).
Proof.
  intros (M & e & m1 & e1 & HM & H & ->) Hf.
  rewrite pack32_B2R by (eauto using rounds_to_m1_ge_0).
  apply nearest_signed. eapply rounds_to_nearest; eauto.
Qed.

Lemma rounded_finite s x f : rounded s x f -> (x < bpow 127)%R -> is_finite f = true.
Proof.
  intros (M & e & m1 & e1 & HM & H & ->) Hx. apply pack32_finite.
  destruct H as ((_ & Hee) & _ & _ & Hq & _ & _ & _ & _ & Hemin & Hgrid).
  destruct Hgrid as [->|Hgrid]; [lia|].
  destruct (Z_lt_le_dec 103 e1) as [Hc|]; [exfalso|assumption].
  assert (bpow 104 <= bpow e1)%R by (apply bpow_le; lia).
  assert (bpow 127 = 8388608 * bpow 104)%R.
  { replace 127 with (23 + 104) by ring. rewrite bpow_plus, (bpow_IZR 23) by lia.
    reflexivity. }
  assert (8388608 <= IZR (M / 2 ^ (e1 - e)))%R by (apply IZR_le; lia).
  pose proof (bpow_gt_0 104). unfold F2R in Hq. nra.
Qed.

Lemma rounded_sign s x f : rounded s x f -> (0 <= signed s (B2R f) )%R.
Proof.
  intros (M & e & m1 & e1 & HM & H & ->).
  pose proof (rounds_to_m1_ge_0 _ _ _ _ _ HM H) as Hm1.
  destruct (is_finite (pack32 s m1 e1)) eqn:Hf.
  - rewrite pack32_B2R by assumption. pose proof (F2R_ge_0 m1 e1 Hm1).
    destruct s; simpl; lra.
  - unfold pack32 in *. destruct (m1 =? 0); [discriminate|].
    destruct (m1 =? 16777216).
    + destruct (e1 + 1 <=? 104); [discriminate|]. simpl. destruct s; simpl; lra.
    + destruct (e1 <=? 104); [discriminate|]. simpl. destruct s; simpl; lra.
Qed.

(** *** Alignment *)

Lemma Pos_iter_xO m d : Zpos (Pos.iter xO m d) = Zpos m * 2 ^ Zpos d.
Proof.
  induction d using Pos.peano_ind.
  - simpl. lia.
  - rewrite Pos.iter_succ, Pos2Z.inj_xO, IHd, Pos2Z.inj_succ, Z.pow_succ_r by lia. ring.
Qed.

Lemma shl_align_spec mx ex ex' :
  let '(mz, ez) := shl_align mx ex ex' in
  ez = Z.min ex ex' /\ Zpos mz = Zpos mx * 2 ^ (ex - ez).
Proof.
  unfold shl_align. destruct (ex' - ex) as [|d|d] eqn:E.
  - split; [lia|]. rewrite Z.sub_diag. simpl. lia.
  - split; [lia|]. rewrite Z.sub_diag. simpl. lia.
  - split; [lia|]. rewrite Pos_iter_xO. f_equal. f_equal. lia.
Qed.

Lemma binary_round_rounded s m e :
  rounded s (F2R (Zpos m) e) (binary_round 24 128 s m e).
Proof.
  unfold binary_round. pose proof (shl_align_spec m e (fexp 24 128 (Zpos (digits2_pos m) + e))) as Ha.
  destruct (shl_align m e _) as [mz ez]. destruct Ha as [Hez Hmz].
  rewrite fexp32_eq in Hez. change (Zpos (digits2_pos m)) with (Zdigits2 (Zpos m)) in Hez.
  assert (Hd : Zdigits2 (Zpos mz) + ez = Zdigits2 (Zpos m) + e).
  { rewrite Hmz, Zdigits2_mul_pow by lia. lia. }
  assert (Hk : ez <= fexp32 (Zdigits2 (Zpos mz) + ez)) by (rewrite Hd; lia).
  assert (Hx : F2R (Zpos mz) ez = F2R (Zpos m) e).
  { rewrite Hmz. replace ez with (e - (e - ez)) at 2 by ring. apply F2R_shift. lia. }
  destruct (binary_round_aux_spec s (Zpos mz) ez loc_Exact (F2R (Zpos m) e))
    as (m1 & e1 & Hr & Heq); try lia; try assumption.
  { unfold locates; simpl. symmetry. exact Hx. }
  exists (Zpos mz), ez, m1, e1. split; [lia|]. split; assumption.
Qed.

Lemma binary_normalize_rounded z e :
  z <> 0 ->
  rounded (z <? 0) (F2R (Z.abs z) e) (binary_normalize 24 128 z e false).
Proof.
  intros Hz. destruct z as [|p|p]; try lia; simpl; apply binary_round_rounded.
Qed.

Lemma F2R_signed z e : F2R z e = signed (z <? 0) (F2R (Z.abs z) e).
Proof.
  unfold F2R, signed, Z.ltb. destruct z as [|p|p]; cbn [Z.compare Z.abs]; try reflexivity.
  change (Z.abs (Z.neg p)) with (Z.pos p).
  change (Z.neg p) with (- Z.pos p). rewrite opp_IZR. ring.
Qed.

(** Conversion of an integer. *)
Lemma of_Z_valid z : valid (binary_normalize 24 128 z 0 false).
Proof.
  destruct (Z.eq_dec z 0) as [->|Hz]; [reflexivity|].
  eapply rounded_valid, binary_normalize_rounded, Hz.
Qed.

Lemma F2R_e0 z : F2R z 0 = IZR z.
Proof. unfold F2R. rewrite bpow_0. ring. Qed.

Lemma of_Z_finite z : Z.abs z < 2 ^ 127 -> is_finite (binary_normalize 24 128 z 0 false) = true.
Proof.
  intros H. destruct (Z.eq_dec z 0) as [->|Hz]; [reflexivity|].
  eapply rounded_finite; [apply binary_normalize_rounded, Hz|].
  rewrite F2R_e0, bpow_IZR by lia. apply IZR_lt. exact H.
Qed.

Lemma of_Z_nearest z :
  Z.abs z < 2 ^ 127 -> nearest (IZR z) (B2R (binary_normalize 24 128 z 0 false)).
Proof.
  intros H. destruct (Z.eq_dec z 0) as [->|Hz].
  - simpl. split; [apply in_format_0|]. intros g _. rewrite Rminus_diag.
    rewrite Rabs_R0. apply Rabs_pos.
  - rewrite <- F2R_e0, F2R_signed.
    apply rounded_nearest; [apply binary_normalize_rounded, Hz | apply of_Z_finite, H].
Qed.

(** ** Multiplication, addition and subtraction *)

Lemma nearest_self y : in_format y -> nearest y y.
Proof.
  intros H. split; [exact H|]. intros g _. rewrite Rminus_diag, Rabs_R0. apply Rabs_pos.
Qed.

Lemma in_format_signed s y : in_format y -> in_format (signed s y).
Proof. destruct s; simpl; [apply in_format_opp|auto]. Qed.

Lemma valid_in_format f : valid f -> in_format (B2R f).
Proof.
  destruct f as [s|s| |s m e]; intros H; try apply in_format_0.
  rewrite B2R_finite. apply in_format_signed. right.
  exists (Zpos m), e. split; [apply (valid_canonical s m e H)|left; reflexivity].
Qed.

Lemma signed_xorb a b u v : signed (xorb a b) (u * v) = (signed a u * signed b v)%R.
Proof. destruct a, b; simpl; ring. Qed.

Lemma Zdigits2_mul_ge a b :
  0 < a -> 0 < b -> Zdigits2 a + Zdigits2 b - 1 <= Zdigits2 (a * b).
Proof.
  intros Ha Hb. pose proof (Zdigits2_spec a Ha) as Hda. pose proof (Zdigits2_spec b Hb) as Hdb.
  pose proof (Zdigits2_pos a Ha). pose proof (Zdigits2_pos b Hb).
  pose proof (Zdigits2_spec (a * b) ltac:(nia)) as Hdab.
  destruct (Z_lt_le_dec (Zdigits2 (a * b)) (Zdigits2 a + Zdigits2 b - 1)); [|assumption].
  assert (2 ^ Zdigits2 (a * b) <= 2 ^ (Zdigits2 a - 1 + (Zdigits2 b - 1)))
    by (apply Z.pow_le_mono_r; lia).
  rewrite Z.pow_add_r in H1 by lia. nia.
Qed.

(** *** Multiplication *)

Lemma mul_rounded sx mx ex sy my ey :
  valid (S754_finite sx mx ex) -> valid (S754_finite sy my ey) ->
  rounded (xorb sx sy) (F2R (Zpos mx) ex * F2R (Zpos my) ey)
    (SFmul 24 128 (S754_finite sx mx ex) (S754_finite sy my ey)).
Proof.
  intros Hx Hy. apply valid_canonical in Hx, Hy.
  destruct Hx as [[Hmx Hcx] Hex], Hy as [[Hmy Hcy] Hey].
  pose proof (Zdigits2_mul_ge (Zpos mx) (Zpos my) ltac:(lia) ltac:(lia)) as Hd.
  pose proof (Zdigits2_pos (Zpos mx) ltac:(lia)). pose proof (Zdigits2_pos (Zpos my) ltac:(lia)).
  cbn [SFmul].
  destruct (binary_round_aux_spec (xorb sx sy) (Zpos (mx * my)) (ex + ey) loc_Exact
              (F2R (Zpos mx) ex * F2R (Zpos my) ey)) as (m1 & e1 & Hr & Heq).
  - lia.
  - unfold locates; simpl. unfold F2R. rewrite Pos2Z.inj_mul, mult_IZR, bpow_plus. ring.
  - rewrite Pos2Z.inj_mul. unfold fexp32 in *. lia.
  - exists (Zpos (mx * my)), (ex + ey), m1, e1. split; [lia|]. split; assumption.
Qed.

Lemma mul_valid x y : valid x -> valid y -> valid (SFmul 24 128 x y).
Proof.
  intros Hx Hy. destruct x as [sx|sx| |sx mx ex], y as [sy|sy| |sy my ey]; try reflexivity.
  eapply rounded_valid, mul_rounded; assumption.
Qed.

Lemma mul_nearest x y :
  valid x -> valid y -> is_finite x = true -> is_finite y = true ->
  is_finite (SFmul 24 128 x y) = true ->
  nearest (B2R x * B2R y) (B2R (SFmul 24 128 x y)).
Proof.
  intros Hx Hy Fx Fy Fxy.
  destruct x as [sx|sx| |sx mx ex], y as [sy|sy| |sy my ey]; try discriminate;
    try (simpl; rewrite ?Rmult_0_l, ?Rmult_0_r; apply nearest_self, in_format_0).
  rewrite !B2R_finite, <- signed_xorb.
  apply rounded_nearest; [apply mul_rounded; assumption|exact Fxy].
Qed.

Lemma mul_finite x y :
  valid x -> valid y -> is_finite x = true -> is_finite y = true ->
  (Rabs (B2R x * B2R y) < bpow 127)%R ->
  is_finite (SFmul 24 128 x y) = true.
Proof.
  intros Hx Hy Fx Fy Hb.
  destruct x as [sx|sx| |sx mx ex], y as [sy|sy| |sy my ey]; try discriminate; try reflexivity.
  eapply rounded_finite; [apply mul_rounded; assumption|].
  rewrite !B2R_finite, <- signed_xorb, signed_abs in Hb; [exact Hb|].
  pose proof (F2R_gt_0 (Zpos mx) ex ltac:(lia)). pose proof (F2R_gt_0 (Zpos my) ey ltac:(lia)). nra.
Qed.

(** *** Addition and subtraction *)

Lemma aligned_F2R s m e ez :
  ez <= e ->
  F2R (cond_Zopp s (Zpos (fst (shl_align m e ez)))) ez = signed s (F2R (Zpos m) e).
Proof.
  intros H. pose proof (shl_align_spec m e ez) as Ha.
  destruct (shl_align m e ez) as [mz ez']. destruct Ha as [Hez Hmz]. cbn [fst].
  rewrite Z.min_r in Hez by lia. subst ez'.
  rewrite Hmz. unfold F2R.
  assert (E : (IZR (Zpos m * 2 ^ (e - ez)) * bpow ez = IZR (Zpos m) * bpow e)%R).
  { change ((IZR (Zpos m * 2 ^ (e - ez)) * bpow ez)%R) with (F2R (Zpos m * 2 ^ (e - ez)) ez).
    replace ez with (e - (e - ez)) at 2 by ring. apply F2R_shift. lia. }
  destruct s; cbn [cond_Zopp signed]; [rewrite opp_IZR, <- E; ring|exact E].
Qed.

Lemma sum_nearest z e v :
  F2R z e = v ->
  is_finite (binary_normalize 24 128 z e false) = true ->
  nearest v (B2R (binary_normalize 24 128 z e false)).
Proof.
  intros <- Hf. destruct (Z.eq_dec z 0) as [->|Hz].
  - simpl. rewrite F2R_0. apply nearest_self, in_format_0.
  - rewrite F2R_signed. apply rounded_nearest; [apply binary_normalize_rounded, Hz|exact Hf].
Qed.

Lemma sum_valid z e : valid (binary_normalize 24 128 z e false).
Proof.
  destruct (Z.eq_dec z 0) as [->|Hz]; [reflexivity|].
  eapply rounded_valid, binary_normalize_rounded, Hz.
Qed.

Lemma sum_finite z e :
  (Rabs (F2R z e) < bpow 127)%R -> is_finite (binary_normalize 24 128 z e false) = true.
Proof.
  intros H. destruct (Z.eq_dec z 0) as [->|Hz]; [reflexivity|].
  eapply rounded_finite; [apply binary_normalize_rounded, Hz|].
  rewrite F2R_signed, signed_abs in H; [exact H|]. apply F2R_ge_0. lia.
Qed.

Lemma add_nearest x y :
  valid x -> valid y -> is_finite x = true -> is_finite y = true ->
  is_finite (SFadd 24 128 x y) = true ->
  nearest (B2R x + B2R y) (B2R (SFadd 24 128 x y)).
Proof.
  intros Hx Hy Fx Fy Fxy.
  destruct x as [sx|sx| |sx mx ex], y as [sy|sy| |sy my ey]; try discriminate.
  - replace (B2R (S754_zero sx) + B2R (S754_zero sy))%R with 0%R by (simpl; lra).
    destruct sx, sy; simpl; apply nearest_self, in_format_0.
  - cbn [SFadd]. replace (B2R (S754_zero sx) + B2R (S754_finite sy my ey))%R
      with (B2R (S754_finite sy my ey)) by (simpl; lra).
    apply nearest_self, valid_in_format, Hy.
  - cbn [SFadd]. replace (B2R (S754_finite sx mx ex) + B2R (S754_zero sy))%R
      with (B2R (S754_finite sx mx ex)) by (simpl; lra).
    apply nearest_self, valid_in_format, Hx.
  - cbn [SFadd] in *. apply sum_nearest; [|exact Fxy].
    rewrite !B2R_finite. unfold F2R at 1. rewrite plus_IZR, Rmult_plus_distr_r.
    fold (F2R (cond_Zopp sx (Zpos (fst (shl_align mx ex (Z.min ex ey))))) (Z.min ex ey)).
    fold (F2R (cond_Zopp sy (Zpos (fst (shl_align my ey (Z.min ex ey))))) (Z.min ex ey)).
    rewrite !aligned_F2R by lia. reflexivity.
Qed.

Lemma add_valid x y : valid x -> valid y -> valid (SFadd 24 128 x y).
Proof.
  intros Hx Hy. destruct x as [sx|sx| |sx mx ex], y as [sy|sy| |sy my ey];
    try reflexivity; try assumption.
  - destruct sx, sy; reflexivity.
  - destruct sx, sy; reflexivity.
  - apply sum_valid.
Qed.

Lemma sub_nearest x y :
  valid x -> valid y -> is_finite x = true -> is_finite y = true ->
  is_finite (SFsub 24 128 x y) = true ->
  nearest (B2R x - B2R y) (B2R (SFsub 24 128 x y)).
Proof.
  intros Hx Hy Fx Fy Fxy.
  destruct x as [sx|sx| |sx mx ex], y as [sy|sy| |sy my ey]; try discriminate.
  - replace (B2R (S754_zero sx) - B2R (S754_zero sy))%R with 0%R by (simpl; lra).
    destruct sx, sy; simpl; apply nearest_self, in_format_0.
  - cbn [SFsub]. replace (B2R (S754_zero sx) - B2R (S754_finite sy my ey))%R
      with (- B2R (S754_finite sy my ey))%R by (simpl; lra).
    replace (B2R (S754_finite (negb sy) my ey)) with (- B2R (S754_finite sy my ey))%R
      by (rewrite !B2R_finite; destruct sy; simpl; lra).
    apply nearest_self, in_format_opp, valid_in_format, Hy.
  - cbn [SFsub]. replace (B2R (S754_finite sx mx ex) - B2R (S754_zero sy))%R
      with (B2R (S754_finite sx mx ex)) by (simpl; lra).
    apply nearest_self, valid_in_format, Hx.
  - cbn [SFsub] in *. apply sum_nearest; [|exact Fxy].
    rewrite !B2R_finite. unfold F2R at 1. rewrite minus_IZR, Rmult_minus_distr_r.
    fold (F2R (cond_Zopp sx (Zpos (fst (shl_align mx ex (Z.min ex ey))))) (Z.min ex ey)).
    fold (F2R (cond_Zopp sy (Zpos (fst (shl_align my ey (Z.min ex ey))))) (Z.min ex ey)).
    rewrite !aligned_F2R by lia. reflexivity.
Qed.

Lemma sub_valid x y : valid x -> valid y -> valid (SFsub 24 128 x y).
Proof.
  intros Hx Hy. destruct x as [sx|sx| |sx mx ex], y as [sy|sy| |sy my ey];
    try reflexivity; try assumption.
  - destruct sx, sy; reflexivity.
  - destruct sx, sy; reflexivity.
  - apply sum_valid.
Qed.

(** ** Comparison *)

Lemma canonical32_lt_exp m1 e1 m2 e2 :
  canonical32 m1 e1 -> canonical32 m2 e2 -> e1 < e2 -> (F2R m1 e1 < F2R m2 e2)%R.
Proof.
  intros [Hm1 Hc1] [Hm2 Hc2] He.
  assert (Hd2 : Zdigits2 m2 = 24) by (unfold fexp32 in *; lia).
  pose proof (Zdigits2_spec m2 ltac:(lia)) as Hs2. rewrite Hd2 in Hs2.
  change (2 ^ (24 - 1)) with 8388608 in Hs2.
  assert (bpow e1 <= bpow (e2 - 1))%R by (apply bpow_le; lia).
  assert (bpow e2 = 2 * bpow (e2 - 1))%R.
  { replace e2 with (e2 - 1 + 1) at 1 by ring. apply bpow_succ. }
  assert (IZR m1 < 16777216)%R by (apply IZR_lt; lia).
  assert (0 < IZR m1)%R by (apply IZR_lt; lia).
  assert (8388608 <= IZR m2)%R by (apply IZR_le; lia).
  pose proof (bpow_gt_0 e1). pose proof (bpow_gt_0 (e2 - 1)).
  unfold F2R. nra.
Qed.

Lemma canonical32_compare m1 e1 m2 e2 :
  canonical32 (Zpos m1) e1 -> canonical32 (Zpos m2) e2 ->
  match (match Z.compare e1 e2 with
         | Lt => Lt | Gt => Gt | Eq => Pos.compare_cont Eq m1 m2 end) with
  | Lt => (F2R (Zpos m1) e1 < F2R (Zpos m2) e2)%R
  | Eq => F2R (Zpos m1) e1 = F2R (Zpos m2) e2 /\ m1 = m2 /\ e1 = e2
  | Gt => (F2R (Zpos m2) e2 < F2R (Zpos m1) e1)%R
  end.
Proof.
  intros H1 H2. destruct (Z.compare_spec e1 e2) as [->|He|He].
  - change (Pos.compare_cont Eq m1 m2) with (Pos.compare m1 m2).
    pose proof (bpow_gt_0 e2).
    destruct (Pos.compare_spec m1 m2) as [->|Hm|Hm].
    + auto.
    + unfold F2R. assert (IZR (Zpos m1) < IZR (Zpos m2))%R by (apply IZR_lt; lia). nra.
    + unfold F2R. assert (IZR (Zpos m2) < IZR (Zpos m1))%R by (apply IZR_lt; lia). nra.
  - apply canonical32_lt_exp; assumption.
  - apply canonical32_lt_exp; assumption.
Qed.

Lemma SFcompare_spec x y :
  valid x -> valid y -> is_finite x = true -> is_finite y = true ->
  exists c, SFcompare x y = Some c /\
    match c with
    | Lt => (B2R x < B2R y)%R
    | Eq => B2R x = B2R y
    | Gt => (B2R y < B2R x)%R
    end.
Proof.
  intros Hx Hy Fx Fy.
  destruct x as [sx|sx| |sx mx ex], y as [sy|sy| |sy my ey]; try discriminate.
  - exists Eq. split; reflexivity.
  - apply valid_canonical in Hy. destruct Hy as [[Hm _] _].
    pose proof (F2R_gt_0 (Zpos my) ey ltac:(lia)).
    exists (if sy then Gt else Lt). split; [reflexivity|].
    rewrite B2R_finite. destruct sy; simpl; lra.
  - apply valid_canonical in Hx. destruct Hx as [[Hm _] _].
    pose proof (F2R_gt_0 (Zpos mx) ex ltac:(lia)).
    exists (if sx then Lt else Gt). split; [reflexivity|].
    rewrite B2R_finite. destruct sx; simpl; lra.
  - apply valid_canonical in Hx, Hy. destruct Hx as [Hcx _], Hy as [Hcy _].
    pose proof (F2R_gt_0 (Zpos mx) ex ltac:(lia)).
    pose proof (F2R_gt_0 (Zpos my) ey ltac:(lia)).
    pose proof (canonical32_compare mx ex my ey Hcx Hcy) as Hc.
    rewrite !B2R_finite. cbn [SFcompare].
    destruct sx, sy; cbn [signed].
    + eexists. split; [reflexivity|].
      destruct (ex ?= ey); [destruct (Pos.compare_cont Eq mx my)| |];
        cbn [CompOpp]; lra.
    + exists Lt. split; [reflexivity|]. lra.
    + exists Gt. split; [reflexivity|]. lra.
    + eexists. split; [reflexivity|].
      destruct (ex ?= ey); [destruct (Pos.compare_cont Eq mx my)| |]; lra.
Qed.

Lemma SFltb_spec x y :
  valid x -> valid y -> is_finite x = true -> is_finite y = true ->
  (SFltb x y = true <-> (B2R x < B2R y)%R).
Proof.
  intros Hx Hy Fx Fy. destruct (SFcompare_spec x y Hx Hy Fx Fy) as (c & Hc & H).
  unfold SFltb. rewrite Hc. destruct c; split; intros; try discriminate; try lra; reflexivity.
Qed.

(** Canonical representations are unique. *)
Lemma B2R_inj x y :
  valid x -> valid y -> is_finite x = true -> is_finite y = true ->
  B2R x = B2R y -> x = y \/ (exists sx sy, x = S754_zero sx /\ y = S754_zero sy).
Proof.
  intros Hx Hy Fx Fy E.
  destruct x as [sx|sx| |sx mx ex], y as [sy|sy| |sy my ey]; try discriminate.
  - right. eauto.
  - exfalso. apply valid_canonical in Hy. destruct Hy as [[Hm _] _].
    pose proof (F2R_gt_0 (Zpos my) ey ltac:(lia)).
    rewrite B2R_finite in E. simpl in E. destruct sy; simpl in E; lra.
  - exfalso. apply valid_canonical in Hx. destruct Hx as [[Hm _] _].
    pose proof (F2R_gt_0 (Zpos mx) ex ltac:(lia)).
    rewrite B2R_finite in E. simpl in E. destruct sx; simpl in E; lra.
  - left. apply valid_canonical in Hx, Hy. destruct Hx as [Hcx _], Hy as [Hcy _].
    pose proof (F2R_gt_0 (Zpos mx) ex ltac:(lia)).
    pose proof (F2R_gt_0 (Zpos my) ey ltac:(lia)).
    pose proof (canonical32_compare mx ex my ey Hcx Hcy) as Hc.
    rewrite !B2R_finite in E.
    assert (sx = sy) by (destruct sx, sy; simpl in E; try reflexivity; lra). subst sy.
    assert (F2R (Zpos mx) ex = F2R (Zpos my) ey) by (destruct sx; simpl in E; lra).
    destruct (ex ?= ey); [destruct (Pos.compare_cont Eq mx my)| |]; try lra.
    destruct Hc as (_ & -> & ->). reflexivity.
Qed.

(** ** Division *)

Lemma new_location_spec nb r q e :
  0 < nb -> 0 <= r < nb ->
  locates (shr_record_of_loc q (new_location nb r)) e
    ((IZR q + IZR r / IZR nb) * bpow e).
Proof.
  intros Hnb Hr. pose proof (bpow_gt_0 e) as Hu.
  assert (HnbR : (0 < IZR nb)%R) by (apply IZR_lt; lia).
  assert (HrR : (0 <= IZR r < IZR nb)%R) by (split; [apply IZR_le|apply IZR_lt]; lia).
  assert (Hfrac : (0 <= IZR r / IZR nb < 1)%R).
  { split; [apply Rmult_le_pos; [lra|apply Rlt_le, Rinv_0_lt_compat; lra]|].
    apply Rmult_lt_reg_r with (IZR nb); [lra|]. unfold Rdiv.
    rewrite Rmult_assoc, Rinv_l by lra. lra. }
  assert (Hhalf : forall c, (2 * r ?= nb) = c ->
    match c with
    | Lt => (IZR r / IZR nb < / 2)%R
    | Eq => (IZR r / IZR nb = / 2)%R
    | Gt => (/ 2 < IZR r / IZR nb)%R
    end).
  { intros c <-. destruct (Z.compare_spec (2 * r) nb) as [E|E|E].
    - apply (f_equal IZR) in E. rewrite mult_IZR in E.
      apply Rmult_eq_reg_r with (IZR nb); [|lra]. unfold Rdiv.
      rewrite Rmult_assoc, Rinv_l by lra. lra.
    - apply IZR_lt in E. rewrite mult_IZR in E.
      apply Rmult_lt_reg_r with (IZR nb); [lra|]. unfold Rdiv.
      rewrite Rmult_assoc, Rinv_l by lra. lra.
    - apply IZR_lt in E. rewrite mult_IZR in E.
      apply Rmult_lt_reg_r with (IZR nb); [lra|]. unfold Rdiv.
      rewrite Rmult_assoc, Rinv_l by lra. lra. }
  assert (Hpos : r <> 0 -> (0 < IZR r / IZR nb)%R).
  { intros Hr0. apply Rmult_lt_0_compat; [apply IZR_lt; lia|apply Rinv_0_lt_compat; lra]. }
  assert (Hexact : r = 0 ->
    locates (shr_record_of_loc q loc_Exact) e ((IZR q + IZR r / IZR nb) * bpow e)).
  { intros ->. unfold locates; simpl. unfold Rdiv. rewrite Rmult_0_l. ring. }
  assert (Hloc : forall c, r <> 0 -> (2 * r ?= nb) = c ->
    locates (shr_record_of_loc q (loc_Inexact c)) e ((IZR q + IZR r / IZR nb) * bpow e)).
  { intros c Hr0 Hc. specialize (Hhalf c Hc). specialize (Hpos Hr0).
    destruct c; unfold locates; simpl; nra. }
  unfold new_location. destruct (Z.even nb) eqn:Ev.
  - unfold new_location_even. destruct (Z.eqb_spec r 0) as [E|E]; [apply Hexact, E|].
    apply Hloc; [exact E|reflexivity].
  - unfold new_location_odd. destruct (Z.eqb_spec r 0) as [E|E]; [apply Hexact, E|].
    destruct (Z.compare_spec (2 * r + 1) nb) as [E1|E1|E1].
    + apply Hloc; [exact E|]. apply Z.compare_lt_iff. lia.
    + apply Hloc; [exact E|]. apply Z.compare_lt_iff. lia.
    + apply Hloc; [exact E|]. apply Z.compare_gt_iff.
      assert (2 * r <> nb).
      { intros E2. rewrite <- E2, Z.even_mul in Ev. discriminate. }
      lia.
Qed.

Lemma div_rounded sx mx ex sy my ey :
  valid (S754_finite sx mx ex) -> valid (S754_finite sy my ey) ->
  rounded (xorb sx sy) (F2R (Zpos mx) ex / F2R (Zpos my) ey)
    (SFdiv 24 128 (S754_finite sx mx ex) (S754_finite sy my ey)).
Proof.
  intros Hx Hy. apply valid_canonical in Hx, Hy.
  destruct Hx as [[Hmx Hcx] Hex], Hy as [[Hmy Hcy] Hey].
  cbn [SFdiv]. unfold SFdiv_core_binary. rewrite fexp32_eq.
  set (d1 := Zdigits2 (Zpos mx)) in *. set (d2 := Zdigits2 (Zpos my)) in *.
  set (e' := Z.min (fexp32 (d1 + ex - (d2 + ey))) (ex - ey)).
  set (s := ex - ey - e').
  assert (He'le : e' <= ex - ey) by apply Z.le_min_r.
  assert (He'fexp : e' <= fexp32 (d1 + ex - (d2 + ey))) by apply Z.le_min_l.
  assert (Hs : 0 <= s) by (unfold s; lia).
  assert (Hsdef : s = ex - ey - e') by reflexivity.
  clearbody s. clearbody e'.
  set (m' := match s with Zpos _ => Z.shiftl (Zpos mx) s | Z0 => Zpos mx | Zneg _ => 0 end).
  assert (Hm' : m' = Zpos mx * 2 ^ s).
  { unfold m'. destruct s as [|p|p]; try lia.
    apply Z.shiftl_mul_pow2. lia. }
  clearbody m'.
  pose proof (Z_div_mod m' (Zpos my) ltac:(lia)) as Hdm.
  destruct (Z.div_eucl m' (Zpos my)) as [q r]. destruct Hdm as [Hqr Hr].
  assert (H2s : 0 < 2 ^ s) by (apply Z.pow_pos_nonneg; lia).
  assert (Hq0 : 0 <= q) by nia.
  pose proof (bpow_gt_0 e') as Hu.
  assert (HmyR : (0 < IZR (Zpos my))%R) by (apply IZR_lt; lia).
  assert (Hx : (F2R (Zpos mx) ex / F2R (Zpos my) ey
               = (IZR q + IZR r / IZR (Zpos my)) * bpow e')%R).
  { assert (E1 : (IZR (Zpos mx) * bpow ex = IZR m' * bpow e' * bpow ey)%R).
    { rewrite Hm', mult_IZR, <- bpow_IZR by lia.
      rewrite !Rmult_assoc, <- !bpow_plus. do 2 f_equal. lia. }
    unfold F2R. rewrite E1, Hqr, plus_IZR, mult_IZR.
    pose proof (bpow_gt_0 ey). field. split; lra. }
  destruct (binary_round_aux_spec (xorb sx sy) q e' (new_location (Zpos my) r)
              (F2R (Zpos mx) ex / F2R (Zpos my) ey)) as (m1 & e1 & Hro & Heq).
  - exact Hq0.
  - rewrite Hx. apply new_location_spec; lia.
  - (* the quotient has enough digits *)
    pose proof (Zdigits2_spec (Zpos mx) ltac:(lia)) as Hd1. fold d1 in Hd1.
    pose proof (Zdigits2_spec (Zpos my) ltac:(lia)) as Hd2. fold d2 in Hd2.
    pose proof (Zdigits2_pos (Zpos mx) ltac:(lia)) as Hp1. fold d1 in Hp1.
    pose proof (Zdigits2_pos (Zpos my) ltac:(lia)) as Hp2. fold d2 in Hp2.
    assert (He' : e' <= fexp32 (d1 + s - d2 + e')).
    { replace (d1 + s - d2 + e') with (d1 + ex - (d2 + ey)) by lia.
      exact He'fexp. }
    destruct (Z_lt_le_dec (d1 + s - d2) 1) as [Hsmall|Hbig].
    + (* at most one digit expected: the exponent is the smallest one *)
      assert (e' <= -149) by (unfold fexp32 in He'; lia).
      unfold fexp32. pose proof (Zdigits2_nonneg q). lia.
    + assert (Hqd : d1 + s - d2 <= Zdigits2 q).
      { assert (2 ^ (d1 + s - d2 - 1) <= q).
        { assert (E : 2 ^ (d1 - 1) * 2 ^ s = 2 ^ (d1 + s - d2 - 1) * 2 ^ d2).
          { rewrite <- !Z.pow_add_r by lia. f_equal. ring. }
          assert (0 < 2 ^ (d1 + s - d2 - 1)) by (apply Z.pow_pos_nonneg; lia).
          destruct (Z_lt_le_dec q (2 ^ (d1 + s - d2 - 1))); [exfalso|assumption].
          assert (q + 1 <= 2 ^ (d1 + s - d2 - 1)) by lia.
          assert (m' < Zpos my * (q + 1)) by lia.
          assert (Zpos my * (q + 1) <= Zpos my * 2 ^ (d1 + s - d2 - 1)) by nia.
          assert (Zpos my * 2 ^ (d1 + s - d2 - 1) < 2 ^ d2 * 2 ^ (d1 + s - d2 - 1)) by nia.
          nia. }
        assert (0 < q).
        { assert (0 < 2 ^ (d1 + s - d2 - 1)) by (apply Z.pow_pos_nonneg; lia). lia. }
        pose proof (Zdigits2_spec q ltac:(lia)) as Hdq.
        destruct (Z_lt_le_dec (Zdigits2 q) (d1 + s - d2)); [exfalso|assumption].
        assert (2 ^ Zdigits2 q <= 2 ^ (d1 + s - d2 - 1)) by (apply Z.pow_le_mono_r; lia).
        lia. }
      unfold fexp32 in *. lia.
  - exists q, e', m1, e1. split; [exact Hq0|]. split; [exact Hro|].
    rewrite <- Heq. reflexivity.
Qed.

Lemma div_valid x y : valid x -> valid y -> valid (SFdiv 24 128 x y).
Proof.
  intros Hx Hy. destruct x as [sx|sx| |sx mx ex], y as [sy|sy| |sy my ey]; try reflexivity.
  eapply rounded_valid, div_rounded; assumption.
Qed.

Lemma signed_xorb_div a b u v :
  v <> 0%R -> signed (xorb a b) (u / v) = (signed a u / signed b v)%R.
Proof. intros Hv. destruct a, b; simpl; field; lra. Qed.

Lemma div_nearest x sy my ey :
  valid x -> valid (S754_finite sy my ey) -> is_finite x = true ->
  is_finite (SFdiv 24 128 x (S754_finite sy my ey)) = true ->
  nearest (B2R x / B2R (S754_finite sy my ey)) (B2R (SFdiv 24 128 x (S754_finite sy my ey))).
Proof.
  intros Hx Hy Fx Fxy.
  pose proof (F2R_gt_0 (Zpos my) ey ltac:(lia)) as Hpos.
  destruct x as [sx|sx| |sx mx ex]; try discriminate.
  - simpl. unfold Rdiv. rewrite Rmult_0_l. apply nearest_self, in_format_0.
  - rewrite !B2R_finite, <- signed_xorb_div by lra.
    apply rounded_nearest; [apply div_rounded; assumption|exact Fxy].
Qed.

Lemma div_finite x sy my ey :
  valid x -> valid (S754_finite sy my ey) -> is_finite x = true ->
  (Rabs (B2R x / B2R (S754_finite sy my ey)) < bpow 127)%R ->
  is_finite (SFdiv 24 128 x (S754_finite sy my ey)) = true.
Proof.
  intros Hx Hy Fx Hb.
  pose proof (F2R_gt_0 (Zpos my) ey ltac:(lia)) as Hpos.
  destruct x as [sx|sx| |sx mx ex]; try discriminate; try reflexivity.
  eapply rounded_finite; [apply div_rounded; assumption|].
  rewrite !B2R_finite, <- signed_xorb_div in Hb by lra.
  rewrite signed_abs in Hb; [exact Hb|].
  pose proof (F2R_gt_0 (Zpos mx) ex ltac:(lia)).
  apply Rlt_le, Rmult_lt_0_compat; [lra|apply Rinv_0_lt_compat; lra].
Qed.

(** ** Conversion of integers *)

(** *** Bounds from the format *)

Lemma nearest_le x y g : nearest x y -> in_format g -> (x <= g)%R -> (y <= g)%R.
Proof.
  intros Hn Hg Hx. destruct (Req_dec x g) as [->|Hne].
  - rewrite (nearest_in_format g y Hg Hn). lra.
  - apply (nearest_mono x y g g Hn (nearest_self g Hg)). lra.
Qed.

Lemma nearest_ge x y g : nearest x y -> in_format g -> (g <= x)%R -> (g <= y)%R.
Proof.
  intros Hn Hg Hx. destruct (Req_dec x g) as [->|Hne].
  - rewrite (nearest_in_format g y Hg Hn). lra.
  - apply (nearest_mono g g x y (nearest_self g Hg) Hn). lra.
Qed.

Lemma in_format_F2R m e : canonical32 m e -> in_format (F2R m e).
Proof. intros H. right. exists m, e. auto. Qed.

Lemma in_format_B2R s m e : valid (S754_finite s m e) -> in_format (B2R (S754_finite s m e)).
Proof. apply valid_in_format. Qed.

(** [2^32 = 8388608 * 2^9] *)
Lemma in_format_2_32 : in_format 4294967296.
Proof.
  replace 4294967296%R with (F2R 8388608 9).
  - apply in_format_F2R. split; [lia|reflexivity].
  - unfold F2R. rewrite (bpow_IZR 9) by lia. change (2 ^ 9) with 512. lra.
Qed.

Lemma bpow_127_big : (4294967296 < bpow 127)%R.
Proof.
  rewrite (bpow_IZR 127) by lia. apply IZR_lt. reflexivity.
Qed.

(** *** Conversions of unsigned and int values *)

Lemma of_Z_facts z :
  0 <= z <= 4294967296 ->
  valid (F32.of_Z z) /\ is_finite (F32.of_Z z) = true /\
  nearest (IZR z) (B2R (F32.of_Z z)) /\
  (0 <= B2R (F32.of_Z z) <= 4294967296)%R.
Proof.
  intros Hz. unfold F32.of_Z, F32.prec, F32.emax.
  assert (Hf : is_finite (binary_normalize 24 128 z 0 false) = true).
  { apply of_Z_finite. assert (2 ^ 33 < 2 ^ 127) by reflexivity.
    change (2 ^ 33) with 8589934592 in *. lia. }
  assert (Hn : nearest (IZR z) (B2R (binary_normalize 24 128 z 0 false))).
  { apply of_Z_nearest. assert (2 ^ 33 < 2 ^ 127) by reflexivity.
    change (2 ^ 33) with 8589934592 in *. lia. }
  split; [apply of_Z_valid|]. split; [exact Hf|]. split; [exact Hn|].
  split.
  - apply (nearest_ge _ _ 0%R Hn in_format_0). apply IZR_le. lia.
  - apply (nearest_le _ _ _ Hn in_format_2_32). apply IZR_le. lia.
Qed.

(** ** The constants of the kernel *)

(** *** Values of constants *)

Lemma F2R_neg_exp m e : 0 <= e -> F2R m (- e) = (IZR m / IZR (2 ^ e))%R.
Proof. intros H. unfold F2R. rewrite bpow_opp, bpow_IZR by lia. reflexivity. Qed.

Lemma B2R_hundred : B2R F32.hundred = 100%R.
Proof.
  unfold F32.hundred. rewrite B2R_finite. cbn [signed].
  rewrite (F2R_neg_exp _ 17) by lia. change (2 ^ 17) with 131072. lra.
Qed.

Lemma valid_hundred : valid F32.hundred.
Proof. reflexivity. Qed.

(** The diffusion rates [c * (n / 100.0f)] are finite numbers. *)
Lemma rate_finite (c : float) (n : Z) :
  valid c -> is_finite c = true -> (Rabs (B2R c) <= 1)%R ->
  0 <= n <= 4294967296 ->
  is_finite (F32.mul c (F32.div (F32.of_Z n) F32.hundred)) = true.
Proof.
  intros Hc Fc Bc Hn.
  destruct (of_Z_facts n Hn) as (Hv & Hf & _ & Hb).
  pose proof B2R_hundred as Hh. pose proof bpow_127_big as Hbig.
  unfold F32.mul, F32.div, F32.prec, F32.emax in *.
  assert (Hd : is_finite (SFdiv 24 128 (F32.of_Z n) F32.hundred) = true).
  { apply div_finite; try assumption; try reflexivity.
    fold F32.hundred. rewrite Hh. apply Rabs_def1; lra. }
  assert (Hdn := div_nearest (F32.of_Z n) false 13107200 (-17) Hv valid_hundred Hf Hd).
  fold F32.hundred in Hdn. rewrite Hh in Hdn.
  assert (Hdb : (0 <= B2R (SFdiv 24 128 (F32.of_Z n) F32.hundred) <= 4294967296)%R).
  { split.
    - apply (nearest_ge _ _ 0%R Hdn in_format_0). lra.
    - apply (nearest_le _ _ _ Hdn in_format_2_32). lra. }
  apply mul_finite; try assumption.
  - apply div_valid; [assumption|reflexivity].
  - rewrite Rabs_mult.
    rewrite (Rabs_pos_eq (B2R (SFdiv 24 128 (F32.of_Z n) F32.hundred))) by lra.
    pose proof (Rabs_pos (B2R c)). nra.
Qed.

Lemma B2R_small_constant m p :
  Z.pos m <= 2 ^ Z.pos p -> (Rabs (B2R (S754_finite false m (Z.neg p))) <= 1)%R.
Proof.
  intros Hm. set (e := Z.pos p) in *. rewrite B2R_finite. cbn [signed].
  change (Z.neg p) with (- e). rewrite F2R_neg_exp by lia.
  assert (0 < 2 ^ e) by (apply Z.pow_pos_nonneg; lia).
  assert (0 < IZR (2 ^ e))%R by (apply IZR_lt; lia).
  assert (0 < IZR (Z.pos m) <= IZR (2 ^ e))%R by (split; [apply IZR_lt|apply IZR_le]; lia).
  rewrite Rabs_pos_eq.
  - apply Rmult_le_reg_r with (IZR (2 ^ e)); [lra|]. unfold Rdiv.
    rewrite Rmult_assoc, Rinv_l by lra. lra.
  - apply Rmult_le_pos; [lra|]. apply Rlt_le, Rinv_0_lt_compat. lra.
Qed.

Lemma Du_finite width height : is_finite (k_Du (rd_args width height)) = true.
Proof.
  cbn [k_Du rd_args]. apply rate_finite; try reflexivity.
  - apply B2R_small_constant. vm_compute. discriminate.
  - pose proof (wrap32_range (width * height)). unfold umul, UINT_MOD in *. lia.
Qed.

Lemma Dv_finite width height : is_finite (k_Dv (rd_args width height)) = true.
Proof.
  cbn [k_Dv rd_args]. apply rate_finite; try reflexivity.
  - apply B2R_small_constant. vm_compute. discriminate.
  - pose proof (wrap32_range (width * height)). unfold umul, UINT_MOD in *. lia.
Qed.

(** ** Uniform fields *)

Lemma cell_replicate (c : float) (width height cx cy : Z) :
  0 <= cx < width -> 0 <= cy < height ->
  Spec.cell (replicate (Z.to_nat (width * height)) c) width cx cy = Some c.
Proof.
  intros Hx Hy. unfold Spec.cell. apply lookup_replicate_2.
  apply Z2Nat.inj_lt; nia.
Qed.

Lemma calculateLaplacian_uniform (dx c : float) (width height : Z) (co : uint2) :
  0 < width <= 2147483648 -> 0 < height <= 2147483648 ->
  width * height <= UINT_MOD -> in_grid width height co ->
  calculateLaplacian dx (replicate (Z.to_nat (width * height)) c) co c width height
  = Some (uniform_stencil dx c).
Proof.
  intros Hw Hh Hwh [Hx Hy].
  rewrite calculateLaplacian_wraps by (auto using cell_replicate).
  unfold Spec.Laplacian.
  pose proof (Z.mod_pos_bound (x co + 1) width ltac:(lia)) as H1.
  pose proof (Z.mod_pos_bound (x co - 1) width ltac:(lia)) as H2.
  pose proof (Z.mod_pos_bound (y co - 1) height ltac:(lia)) as H3.
  pose proof (Z.mod_pos_bound (y co + 1) height ltac:(lia)) as H4.
  rewrite !cell_replicate by assumption. reflexivity.
Qed.

(** *** The arithmetic of the flat state *)

Lemma flat_newU (Du : float) :
  is_finite Du = true ->
  F32.add F32.one
    (F32.mul F32.c0_5
       (F32.add (F32.sub (F32.mul Du (uniform_stencil F32.c2_0 F32.one))
                         (F32.mul (F32.mul F32.one F32.zero) F32.zero))
                (F32.mul F32.c0_012 (F32.sub F32.one F32.one))))
  = F32.one.
Proof.
  destruct Du as [s|s| |s m e]; try discriminate; intros _; destruct s; reflexivity.
Qed.

Lemma flat_newV (Dv : float) :
  is_finite Dv = true ->
  F32.add F32.zero
    (F32.mul F32.c0_5
       (F32.sub (F32.add (F32.mul Dv (uniform_stencil F32.c2_0 F32.zero))
                         (F32.mul (F32.mul F32.one F32.zero) F32.zero))
                (F32.mul (F32.add F32.c0_012 F32.c0_052) F32.zero)))
  = F32.zero.
Proof.
  destruct Dv as [s|s| |s m e]; try discriminate; intros _; destruct s; reflexivity.
Qed.

(** *** Threads on the flat state *)

Section Flat.

Variables width height : Z.
Hypothesis Hw : 0 < width <= 2147483648.
Hypothesis Hh : 0 < height <= 2147483648.
Hypothesis Hwh : width * height < UINT_MOD.

Local Abbreviation n := (Z.to_nat (width * height)).
Local Abbreviation a := (rd_args width height).

Lemma flat_index co :
  in_grid width height co ->
  linear_index a co = y co * width + x co /\
  (Z.to_nat (linear_index a co) < n)%nat.
Proof.
  intros [Hx Hy]. assert (E : linear_index a co = y co * width + x co).
  { apply linear_index_small; simpl; lia. }
  split; [exact E|]. rewrite E. apply Z2Nat.inj_lt; nia.
Qed.

Lemma flat_computeU co :
  in_grid width height co ->
  rd_kernel_computeU a co (flat n) = Some (F32.one, F32.zero, F32.one).
Proof.
  intros Hco. destruct (flat_index co Hco) as [_ Hi].
  unfold rd_kernel_computeU, load, flat. cbn [fst snd].
  rewrite !lookup_replicate_2 by exact Hi. cbn [mbind option_bind].
  change (k_width a) with width. change (k_height a) with height.
  change (k_dx a) with F32.c2_0.
  rewrite (calculateLaplacian_uniform F32.c2_0 F32.one width height co) by (auto; lia).
  cbn [mbind option_bind].
  change (k_dt a) with F32.c0_5. change (k_F a) with F32.c0_012.
  rewrite flat_newU by apply Du_finite. reflexivity.
Qed.

Lemma flat_computeV co :
  in_grid width height co ->
  rd_kernel_computeV a co F32.one F32.zero (flat n) = Some F32.zero.
Proof.
  intros Hco. unfold rd_kernel_computeV, flat. cbn [fst snd].
  change (k_width a) with width. change (k_height a) with height.
  change (k_dx a) with F32.c2_0.
  rewrite (calculateLaplacian_uniform F32.c2_0 F32.zero width height co) by (auto; lia).
  cbn [mbind option_bind].
  change (k_dt a) with F32.c0_5. change (k_F a) with F32.c0_012.
  change (k_k a) with F32.c0_052.
  rewrite flat_newV by apply Dv_finite. reflexivity.
Qed.

Lemma flat_storeU co :
  in_grid width height co -> rd_kernel_storeU a co F32.one (flat n) = Some (flat n).
Proof.
  intros Hco. destruct (flat_index co Hco) as [_ Hi].
  unfold rd_kernel_storeU, flat. cbn [fst snd].
  rewrite store_Some by (rewrite length_replicate; exact Hi). cbn [mbind option_bind].
  rewrite list_insert_id by (apply lookup_replicate_2; exact Hi). reflexivity.
Qed.

Lemma flat_storeV co :
  in_grid width height co -> rd_kernel_storeV a co F32.zero (flat n) = Some (flat n).
Proof.
  intros Hco. destruct (flat_index co Hco) as [_ Hi].
  unfold rd_kernel_storeV, flat. cbn [fst snd].
  rewrite store_Some by (rewrite length_replicate; exact Hi). cbn [mbind option_bind].
  rewrite list_insert_id by (apply lookup_replicate_2; exact Hi). reflexivity.
Qed.

Lemma flat_computeU_all g :
  Forall (in_grid width height) g ->
  computeU_all a g (flat n) = Some (map (fun co => (co, (F32.one, F32.zero, F32.one))) g).
Proof.
  induction 1 as [|co g Hco _ IH]; [reflexivity|].
  cbn [computeU_all]. rewrite flat_computeU by exact Hco. cbn [mbind option_bind].
  rewrite IH. reflexivity.
Qed.

Lemma flat_storeU_all g :
  Forall (in_grid width height) g ->
  storeU_all a (map (fun co => (co, (F32.one, F32.zero, F32.one))) g) (flat n)
  = Some (flat n).
Proof.
  induction 1 as [|co g Hco _ IH]; [reflexivity|].
  cbn [map storeU_all]. rewrite flat_storeU by exact Hco. cbn [mbind option_bind].
  exact IH.
Qed.

Lemma flat_computeV_all g :
  Forall (in_grid width height) g ->
  computeV_all a (map (fun co => (co, (F32.one, F32.zero, F32.one))) g) (flat n)
  = Some (map (fun co => (co, F32.zero)) g).
Proof.
  induction 1 as [|co g Hco _ IH]; [reflexivity|].
  cbn [map computeV_all]. rewrite flat_computeV by exact Hco. cbn [mbind option_bind].
  rewrite IH. reflexivity.
Qed.

Lemma flat_storeV_all g :
  Forall (in_grid width height) g ->
  storeV_all a (map (fun co => (co, F32.zero)) g) (flat n) = Some (flat n).
Proof.
  induction 1 as [|co g Hco _ IH]; [reflexivity|].
  cbn [map storeV_all]. rewrite flat_storeV by exact Hco. cbn [mbind option_bind].
  exact IH.
Qed.

Lemma flat_run_group g :
  Forall (in_grid width height) g -> run_group a g (flat n) = Some (flat n).
Proof.
  intros Hg. unfold run_group.
  rewrite flat_computeU_all by exact Hg. cbn [mbind option_bind].
  rewrite flat_storeU_all by exact Hg. cbn [mbind option_bind].
  rewrite flat_computeV_all by exact Hg. cbn [mbind option_bind].
  apply flat_storeV_all, Hg.
Qed.

Lemma flat_launch sched :
  Forall (Forall (in_grid width height)) sched ->
  rd_kernel_launch a sched (flat n) = Some (flat n).
Proof.
  induction 1 as [|g sched Hg _ IH]; [reflexivity|].
  cbn [rd_kernel_launch]. rewrite flat_run_group by exact Hg. cbn [mbind option_bind].
  exact IH.
Qed.

End Flat.

(** ** The flat steady state *)

Lemma elem_of_zrange z n : z ∈ zrange n <-> 0 <= z < n.
Proof.
  unfold zrange. rewrite list_elem_of_In, in_map_iff. split.
  - intros (k & <- & Hk). apply in_seq in Hk. lia.
  - intros Hz. exists (Z.to_nat z). split; [lia|]. apply in_seq. lia.
Qed.

Lemma thread_coordinate_in_grid width height bx by_ tx ty :
  0 < width < UINT_MOD -> 0 < height < UINT_MOD ->
  0 <= bx < udiv width BLOCK -> 0 <= by_ < udiv height BLOCK ->
  0 <= tx < BLOCK -> 0 <= ty < BLOCK ->
  in_grid width height (thread_coordinate bx by_ tx ty).
Proof.
  unfold udiv, BLOCK, UINT_MOD. intros Hw Hh Hbx Hby Htx Hty.
  pose proof (Z.mul_div_le width 16 ltac:(lia)).
  pose proof (Z.mul_div_le height 16 ltac:(lia)).
  unfold in_grid, thread_coordinate, uadd, umul, BLOCK. cbn [x y].
  rewrite (wrap32_small (bx * 16)) by (unfold UINT_MOD; lia).
  rewrite (wrap32_small (by_ * 16)) by (unfold UINT_MOD; lia).
  rewrite !wrap32_small by (unfold UINT_MOD; lia). lia.
Qed.

Lemma warps_in_grid width height :
  0 < width < UINT_MOD -> 0 < height < UINT_MOD ->
  Forall (Forall (in_grid width height)) (warps_in_order width height).
Proof.
  intros Hw Hh. apply Forall_forall. intros g Hg. apply Forall_forall. intros co Hco.
  unfold warps_in_order in Hg. apply list_elem_of_bind in Hg.
  destruct Hg as ([bx by_] & Hg & Hb). cbn [fst snd] in Hg.
  unfold grid_blocks in Hb. apply list_elem_of_bind in Hb.
  destruct Hb as (by' & Hb & Hby). apply list_elem_of_bind in Hb.
  destruct Hb as (bx' & Hb & Hbx). apply list_elem_of_singleton in Hb.
  inversion Hb; subst bx' by'; clear Hb.
  apply elem_of_zrange in Hbx, Hby.
  unfold block_warps in Hg. apply list_elem_of_In, in_map_iff in Hg.
  destruct Hg as (w & <- & Hwp). apply list_elem_of_In, elem_of_zrange in Hwp.
  unfold warp in Hco. apply list_elem_of_bind in Hco.
  destruct Hco as (ty & Hco & Hty). apply list_elem_of_bind in Hco.
  destruct Hco as (tx & Hco & Htx). apply list_elem_of_singleton in Hco. subst co.
  apply elem_of_zrange in Htx.
  assert (0 <= ty < BLOCK).
  { unfold BLOCK. apply elem_of_cons in Hty. destruct Hty as [->|Hty]; [lia|].
    apply list_elem_of_singleton in Hty. lia. }
  apply thread_coordinate_in_grid; assumption.
Qed.

(** C7: a launch on the flat steady state ([U = 1.0] and [V = 0.0] in every
    cell), on a grid whose dimensions are multiples of 16, under any order
    in which the device may run the threads of the launch, leaves [U] and [V]
    exactly as they were. *)
Theorem flat_steady_state (width height : Z) (sched : schedule) :
  0 < width -> 0 < height ->
  umod width BLOCK = 0 -> umod height BLOCK = 0 ->
  width * height < UINT_MOD ->
  concat sched ≡ₚ threads width height ->
  rd_kernel_launch (rd_args width height) sched (flat (Z.to_nat (width * height)))
  = Some (flat (Z.to_nat (width * height))).
Proof.
  unfold umod, BLOCK, UINT_MOD. intros Hw Hh Hwm Hhm Hwh Hperm.
  assert (16 <= width) by (apply Z.mod_divide in Hwm; [destruct Hwm; lia|lia]).
  assert (16 <= height) by (apply Z.mod_divide in Hhm; [destruct Hhm; lia|lia]).
  assert (width <= 2147483648) by nia.
  assert (height <= 2147483648) by nia.
  apply flat_launch; try (unfold UINT_MOD; lia).
  apply Forall_concat. rewrite Hperm. apply Forall_concat.
  apply warps_in_grid; unfold UINT_MOD; nia.
Qed.

Lemma flat_steady_state_witness :
  rd_kernel_launch (rd_args 16 16) (warps_in_order 16 16) (flat (Z.to_nat (16 * 16)))
  = Some (flat (Z.to_nat (16 * 16))).
Proof.
  apply (flat_steady_state 16 16 (warps_in_order 16 16)); try reflexivity.
Defined.

(** ** The bounds of the patch loops *)

(** *** More arithmetic facts *)

Lemma add_finite x y :
  valid x -> valid y -> is_finite x = true -> is_finite y = true ->
  (Rabs (B2R x + B2R y) < bpow 127)%R ->
  is_finite (SFadd 24 128 x y) = true.
Proof.
  intros Hx Hy Fx Fy Hb.
  destruct x as [sx|sx| |sx mx ex], y as [sy|sy| |sy my ey]; try discriminate;
    try reflexivity.
  - destruct sx, sy; reflexivity.
  - cbn [SFadd]. apply sum_finite.
    rewrite !B2R_finite in Hb. unfold F2R at 1. rewrite plus_IZR, Rmult_plus_distr_r.
    fold (F2R (cond_Zopp sx (Zpos (fst (shl_align mx ex (Z.min ex ey))))) (Z.min ex ey)).
    fold (F2R (cond_Zopp sy (Zpos (fst (shl_align my ey (Z.min ex ey))))) (Z.min ex ey)).
    rewrite !aligned_F2R by lia. exact Hb.
Qed.

Lemma sub_finite x y :
  valid x -> valid y -> is_finite x = true -> is_finite y = true ->
  (Rabs (B2R x - B2R y) < bpow 127)%R ->
  is_finite (SFsub 24 128 x y) = true.
Proof.
  intros Hx Hy Fx Fy Hb.
  destruct x as [sx|sx| |sx mx ex], y as [sy|sy| |sy my ey]; try discriminate;
    try reflexivity.
  - destruct sx, sy; reflexivity.
  - cbn [SFsub]. apply sum_finite.
    rewrite !B2R_finite in Hb. unfold F2R at 1. rewrite minus_IZR, Rmult_minus_distr_r.
    fold (F2R (cond_Zopp sx (Zpos (fst (shl_align mx ex (Z.min ex ey))))) (Z.min ex ey)).
    fold (F2R (cond_Zopp sy (Zpos (fst (shl_align my ey (Z.min ex ey))))) (Z.min ex ey)).
    rewrite !aligned_F2R by lia. exact Hb.
Qed.

Lemma of_Z_mono a b :
  0 <= a <= b -> b <= 4294967296 ->
  (B2R (F32.of_Z a) <= B2R (F32.of_Z b))%R.
Proof.
  intros Hab Hb. destruct (Z.eq_dec a b) as [->|Hne]; [lra|].
  destruct (of_Z_facts a ltac:(lia)) as (_ & _ & Ha & _).
  destruct (of_Z_facts b ltac:(lia)) as (_ & _ & Hb' & _).
  apply (nearest_mono _ _ _ _ Ha Hb'). apply IZR_lt. lia.
Qed.

(** The product of a nonnegative value by a constant [0 <= c <= 1]. *)
Lemma scale_facts (c v : float) :
  valid c -> is_finite c = true -> (0 <= B2R c <= 1)%R ->
  valid v -> is_finite v = true -> (0 <= B2R v <= 4294967296)%R ->
  valid (F32.mul c v) /\ is_finite (F32.mul c v) = true /\
  nearest (B2R c * B2R v) (B2R (F32.mul c v)) /\
  (0 <= B2R (F32.mul c v) <= B2R v)%R.
Proof.
  intros Hc Fc Bc Hv Fv Bv. unfold F32.mul, F32.prec, F32.emax.
  pose proof bpow_127_big.
  assert (Hf : is_finite (SFmul 24 128 c v) = true).
  { apply mul_finite; try assumption. rewrite Rabs_pos_eq by nra. nra. }
  pose proof (mul_nearest c v Hc Hv Fc Fv Hf) as Hn.
  split; [apply mul_valid; assumption|]. split; [exact Hf|]. split; [exact Hn|].
  split.
  - apply (nearest_ge _ _ 0%R Hn in_format_0). nra.
  - apply (nearest_le _ _ _ Hn (valid_in_format v Hv)). nra.
Qed.

Lemma B2R_c0_52 : (0 <= B2R F32.c0_52 <= 1)%R.
Proof.
  unfold F32.c0_52. rewrite B2R_finite. cbn [signed].
  rewrite (F2R_neg_exp _ 24) by lia. change (2 ^ 24) with 16777216. lra.
Qed.

Lemma B2R_c0_48 : (0 <= B2R F32.c0_48 <= 48 / 100)%R.
Proof.
  unfold F32.c0_48. rewrite B2R_finite. cbn [signed].
  rewrite (F2R_neg_exp _ 25) by lia. change (2 ^ 25) with 33554432. lra.
Qed.

(** *** The loop conditions *)

Lemma below_limit_spec n i :
  0 <= n <= 4294967296 -> 0 <= i <= 4294967296 ->
  (below_limit n i = true <-> (B2R (F32.of_Z i) < B2R (upper_limit n))%R).
Proof.
  intros Hn Hi. destruct (of_Z_facts n Hn) as (Hv & Hf & _ & Hb).
  destruct (of_Z_facts i Hi) as (Hvi & Hfi & _ & _).
  destruct (scale_facts F32.c0_52 (F32.of_Z n)) as (Hvl & Hfl & _ & _);
    try assumption; try reflexivity; try apply B2R_c0_52.
  unfold below_limit, F32.ltb. apply SFltb_spec; assumption.
Qed.

Lemma below_limit_lt n i :
  0 <= n <= 4294967296 -> 0 <= i <= 4294967296 -> below_limit n i = true -> i < n.
Proof.
  intros Hn Hi Hc. apply below_limit_spec in Hc; try assumption.
  destruct (Z_lt_le_dec i n) as [|Hge]; [assumption|exfalso].
  pose proof (of_Z_mono n i ltac:(lia) ltac:(lia)).
  destruct (of_Z_facts n Hn) as (Hv & Hf & _ & Hb).
  destruct (scale_facts F32.c0_52 (F32.of_Z n)) as (_ & _ & _ & Hs);
    try assumption; try reflexivity; try apply B2R_c0_52.
  unfold upper_limit in Hc. lra.
Qed.

Lemma below_limit_mono n i i' :
  0 <= n <= 4294967296 -> 0 <= i <= i' -> i' <= 4294967296 ->
  below_limit n i' = true -> below_limit n i = true.
Proof.
  intros Hn Hi Hi' Hc. apply below_limit_spec in Hc; try lia.
  apply below_limit_spec; try lia.
  pose proof (of_Z_mono i i' ltac:(lia) ltac:(lia)). lra.
Qed.

(** *** Conversion to int *)

Lemma to_Z_trunc_spec (v : float) :
  valid v -> is_finite v = true -> (0 <= B2R v)%R ->
  exists a, F32.to_Z_trunc v = Some a /\ 0 <= a /\ (IZR a <= B2R v < IZR a + 1)%R.
Proof.
  intros Hv Fv Bv. destruct v as [s|s| |s m e]; try discriminate.
  - exists 0. simpl. split; [reflexivity|]. split; [lia|lra].
  - assert (s = false) as ->.
    { destruct s; [|reflexivity]. rewrite B2R_finite in Bv. cbn [signed] in Bv.
      pose proof (F2R_gt_0 (Zpos m) e ltac:(lia)). lra. }
    rewrite B2R_finite. cbn [signed F32.to_Z_trunc].
    destruct e as [|p|p].
    + exists (Zpos m). split; [reflexivity|]. split; [lia|].
      rewrite F2R_e0. lra.
    + exists (Z.shiftl (Zpos m) (Zpos p)). split; [reflexivity|].
      rewrite Z.shiftl_mul_pow2 by lia.
      assert (0 < 2 ^ Zpos p) by (apply Z.pow_pos_nonneg; lia).
      split; [nia|]. unfold F2R. rewrite mult_IZR, bpow_IZR by lia. lra.
    + exists (Z.shiftr (Zpos m) (Zpos p)). split; [reflexivity|].
      rewrite Z.shiftr_div_pow2 by lia.
      assert (H2 : 0 < 2 ^ Zpos p) by (apply Z.pow_pos_nonneg; lia).
      pose proof (Z.div_mod (Zpos m) (2 ^ Zpos p) ltac:(lia)) as Hdm.
      pose proof (Z.mod_pos_bound (Zpos m) (2 ^ Zpos p) H2) as Hmod.
      split; [apply Z.div_pos; lia|].
      change (Z.neg p) with (- Z.pos p). rewrite F2R_neg_exp by lia.
      assert (HR : (0 < IZR (2 ^ Zpos p))%R) by (apply IZR_lt; lia).
      set (q := Zpos m / 2 ^ Zpos p) in *. set (r := Zpos m mod 2 ^ Zpos p) in *.
      assert (E : IZR (Zpos m) = (IZR (2 ^ Zpos p) * IZR q + IZR r)%R).
      { rewrite <- mult_IZR, <- plus_IZR. f_equal. exact Hdm. }
      assert (0 <= IZR r < IZR (2 ^ Zpos p))%R
        by (split; [apply IZR_le|apply IZR_lt]; lia).
      rewrite E. split.
      * apply Rmult_le_reg_r with (IZR (2 ^ Zpos p)); [lra|]. unfold Rdiv.
        rewrite Rmult_assoc, Rinv_l by lra. nra.
      * apply Rmult_lt_reg_r with (IZR (2 ^ Zpos p)); [lra|]. unfold Rdiv.
        rewrite Rmult_assoc, Rinv_l by lra. nra.
Qed.

Lemma in_format_pow2 k : 0 <= k -> in_format (IZR (2 ^ k)).
Proof.
  intros Hk. replace (IZR (2 ^ k)) with (F2R 8388608 (k - 23)).
  - apply in_format_F2R. split; [lia|]. change (Zdigits2 8388608) with 24.
    unfold fexp32. lia.
  - rewrite <- bpow_IZR by lia. unfold F2R.
    replace k with (23 + (k - 23)) at 2 by ring. rewrite bpow_plus.
    rewrite (bpow_IZR 23) by lia. reflexivity.
Qed.

(** [(int)(0.48f * n)], the first index of both patch loops. *)
Lemma first_index_spec n :
  0 <= n <= 2147483647 ->
  exists i0, F32.to_Z_trunc (lower_limit n) = Some i0 /\ 0 <= i0 <= 1073741824.
Proof.
  intros Hn. destruct (of_Z_facts n ltac:(lia)) as (Hv & Hf & Hnn & Hb).
  destruct (scale_facts F32.c0_48 (F32.of_Z n)) as (Hvl & Hfl & Hnl & Hbl);
    try assumption; try reflexivity.
  { pose proof B2R_c0_48. lra. }
  destruct (to_Z_trunc_spec (lower_limit n) Hvl Hfl ltac:(unfold lower_limit; lra))
    as (a & Ha & Ha0 & Hab).
  exists a. split; [exact Ha|]. split; [exact Ha0|].
  assert (Hfn : (B2R (F32.of_Z n) <= 2147483648)%R).
  { apply (nearest_le _ _ _ Hnn (in_format_pow2 31 ltac:(lia))).
    apply IZR_le. change (2 ^ 31) with 2147483648. lia. }
  assert (Hl : (B2R (lower_limit n) <= 1073741824)%R).
  { apply (nearest_le _ _ _ Hnl (in_format_pow2 30 ltac:(lia))).
    change (2 ^ 30) with 1073741824. pose proof B2R_c0_48. nra. }
  apply le_IZR. lra.
Qed.

(** ** The fill and patch loops *)

(** *** The fill loop *)

Lemma store_lookup (A : list float) (i : Z) (v : float) (A' : list float) (k : nat) :
  store A i v = Some A' ->
  A' !! k = if decide (k = Z.to_nat i) then Some v else A !! k.
Proof.
  unfold store. destruct (decide (Z.to_nat i < length A)%nat) as [Hlt|]; [|discriminate].
  intros H; inversion H; subst; clear H.
  destruct (decide (k = Z.to_nat i)) as [->|Hne].
  - apply list_lookup_insert_eq. exact Hlt.
  - apply list_lookup_insert_ne. auto.
Qed.

Lemma fill_loop_spec count : forall k uv,
  0 <= k ->
  (Z.to_nat k + count <= length uv.1)%nat ->
  (Z.to_nat k + count <= length uv.2)%nat ->
  exists uv', fill_loop count k uv = Some uv' /\
    forall i : nat,
      (uv'.1 !! i = if decide (Z.to_nat k <= i < Z.to_nat k + count)%nat
                    then Some F32.one else uv.1 !! i) /\
      (uv'.2 !! i = if decide (Z.to_nat k <= i < Z.to_nat k + count)%nat
                    then Some F32.zero else uv.2 !! i).
Proof.
  induction count as [|c IH]; intros k uv Hk H1 H2.
  - exists uv. split; [reflexivity|]. intros i.
    destruct (decide _); [lia|auto].
  - cbn [fill_loop].
    rewrite (store_Some uv.1 k F32.one) by lia. cbn [mbind option_bind].
    rewrite (store_Some uv.2 k F32.zero) by lia. cbn [mbind option_bind].
    destruct (IH (k + 1) (<[Z.to_nat k:=F32.one]> uv.1, <[Z.to_nat k:=F32.zero]> uv.2))
      as (uv' & Hrun & Hspec); cbn [fst snd]; rewrite ?length_insert; try lia.
    exists uv'. split; [exact Hrun|]. intros i. destruct (Hspec i) as [HU HV].
    rewrite HU, HV. cbn [fst snd]. replace (Z.to_nat (k + 1)) with (S (Z.to_nat k)) by lia.
    destruct (decide (i = Z.to_nat k)) as [->|Hne].
    + rewrite !list_lookup_insert_eq by lia.
      destruct (decide (S (Z.to_nat k) <= Z.to_nat k < S (Z.to_nat k) + c)%nat),
               (decide (Z.to_nat k <= Z.to_nat k < Z.to_nat k + S c)%nat); try lia; auto.
    + rewrite !list_lookup_insert_ne by auto.
      destruct (decide (S (Z.to_nat k) <= i < S (Z.to_nat k) + c)%nat),
               (decide (Z.to_nat k <= i < Z.to_nat k + S c)%nat); try lia; auto.
Qed.

(** *** The patch loops *)

Section Patch.

Variables width height : Z.
Hypothesis Hw : 0 < width.
Hypothesis Hh : 0 < height.
Hypothesis Hwh : width * height <= INT_MAX.

Local Abbreviation n := (Z.to_nat (width * height)).

Lemma dims_bounded : width <= INT_MAX /\ height <= INT_MAX.
Proof. unfold INT_MAX in *. split; nia. Qed.

Lemma cell_index_lt i j :
  0 <= i < height -> 0 <= j < width ->
  uadd (umul i width) j = i * width + j /\ (Z.to_nat (i * width + j) < n)%nat.
Proof.
  intros Hi Hj. split.
  - apply (row_major_small width height); unfold UINT_MOD, INT_MAX in *; lia.
  - apply Z2Nat.inj_lt; nia.
Qed.

Lemma cell_index_inj i j i' j' :
  0 <= i < height -> 0 <= j < width -> 0 <= i' < height -> 0 <= j' < width ->
  Z.to_nat (i * width + j) = Z.to_nat (i' * width + j') -> i = i' /\ j = j'.
Proof.
  intros Hi Hj Hi' Hj' E. apply Z2Nat.inj in E; try nia.
  assert (i = i') by nia. subst. lia.
Qed.

Lemma patch_cols_spec i fuel : forall j uv,
  0 <= i < height -> 0 <= j <= INT_MAX ->
  (Z.to_nat (width - j) <= fuel)%nat ->
  length uv.1 = n -> length uv.2 = n ->
  exists uv', patch_cols fuel width i j uv = Some uv' /\
    length uv'.1 = n /\ length uv'.2 = n /\
    (forall j', j <= j' <= INT_MAX -> below_limit width j' = true ->
       uv'.1 !! Z.to_nat (i * width + j') = Some F32.c0_5 /\
       uv'.2 !! Z.to_nat (i * width + j') = Some F32.c0_25) /\
    (forall k : nat,
       (forall j', j <= j' <= INT_MAX -> below_limit width j' = true ->
                   k <> Z.to_nat (i * width + j')) ->
       uv'.1 !! k = uv.1 !! k /\ uv'.2 !! k = uv.2 !! k).
Proof.
  destruct dims_bounded as [Hwmax Hhmax]. unfold INT_MAX in *.
  induction fuel as [|fuel IH]; intros j uv Hi Hj Hfuel HU HV;
    cbn [patch_cols];
    change (F32.ltb (F32.of_Z j) (F32.mul F32.c0_52 (F32.of_Z width)))
      with (below_limit width j);
    destruct (below_limit width j) eqn:Hc.
  - exfalso. apply below_limit_lt in Hc; lia.
  - exists uv. repeat split; auto.
    + exfalso. rewrite (below_limit_mono width j j') in Hc by (assumption || lia). discriminate.
    + exfalso. rewrite (below_limit_mono width j j') in Hc by (assumption || lia). discriminate.
  - assert (Hjw : j < width) by (apply below_limit_lt in Hc; lia).
    destruct (cell_index_lt i j Hi ltac:(lia)) as [Hidx Hlt]. rewrite Hidx.
    rewrite (store_Some uv.1) by (rewrite HU; exact Hlt). cbn [mbind option_bind].
    rewrite (store_Some uv.2) by (rewrite HV; exact Hlt). cbn [mbind option_bind].
    destruct (decide (j < INT_MAX)) as [_|Hn]; [|unfold INT_MAX in Hn; lia].
    destruct (IH (j + 1) (<[Z.to_nat (i * width + j):=F32.c0_5]> uv.1,
                          <[Z.to_nat (i * width + j):=F32.c0_25]> uv.2))
      as (uv' & Hrun & LU & LV & Hin & Hout);
      cbn [fst snd]; rewrite ?length_insert; try lia.
    exists uv'. split; [exact Hrun|]. split; [exact LU|]. split; [exact LV|]. split.
    + intros j' Hj' Hc'. destruct (Z.eq_dec j' j) as [->|Hne].
      * destruct (Hout (Z.to_nat (i * width + j))) as [EU EV].
        { intros j'' Hj'' Hc''. assert (j'' < width) by (apply below_limit_lt in Hc''; lia).
          intros E. apply cell_index_inj in E; lia. }
        rewrite EU, EV. cbn [fst snd].
        rewrite !list_lookup_insert_eq by (rewrite ?HU, ?HV; exact Hlt). auto.
      * apply Hin; [lia|exact Hc'].
    + intros k Hk. destruct (Hout k) as [EU EV].
      { intros j'' Hj'' Hc''. apply Hk; [lia|exact Hc'']. }
      rewrite EU, EV. cbn [fst snd].
      assert (k <> Z.to_nat (i * width + j)) by (apply Hk; [lia|exact Hc]).
      rewrite !list_lookup_insert_ne by auto. auto.
  - exists uv. repeat split; auto.
    + exfalso. rewrite (below_limit_mono width j j') in Hc by (assumption || lia). discriminate.
    + exfalso. rewrite (below_limit_mono width j j') in Hc by (assumption || lia). discriminate.
Qed.

Lemma patch_rows_spec j0 fuel : forall i uv,
  first_index width = Some j0 ->
  0 <= i <= INT_MAX ->
  (Z.to_nat (height - i) <= fuel)%nat ->
  length uv.1 = n -> length uv.2 = n ->
  exists uv', patch_rows fuel width height i uv = Some uv' /\
    length uv'.1 = n /\ length uv'.2 = n /\
    (forall i' j', i <= i' <= INT_MAX -> below_limit height i' = true ->
       j0 <= j' <= INT_MAX -> below_limit width j' = true ->
       uv'.1 !! Z.to_nat (i' * width + j') = Some F32.c0_5 /\
       uv'.2 !! Z.to_nat (i' * width + j') = Some F32.c0_25) /\
    (forall k : nat,
       (forall i' j', i <= i' <= INT_MAX -> below_limit height i' = true ->
                      j0 <= j' <= INT_MAX -> below_limit width j' = true ->
                      k <> Z.to_nat (i' * width + j')) ->
       uv'.1 !! k = uv.1 !! k /\ uv'.2 !! k = uv.2 !! k).
Proof.
  destruct dims_bounded as [Hwmax Hhmax]. unfold INT_MAX in *.
  intros i uv Hj0. revert i uv.
  destruct (first_index_spec width ltac:(lia)) as (j0' & Hj0' & Hj0r).
  unfold first_index in Hj0. rewrite Hj0 in Hj0'. inversion Hj0'; subst j0'; clear Hj0'.
  induction fuel as [|fuel IH]; intros i uv Hi Hfuel HU HV;
    cbn [patch_rows];
    change (F32.ltb (F32.of_Z i) (F32.mul F32.c0_52 (F32.of_Z height)))
      with (below_limit height i);
    destruct (below_limit height i) eqn:Hc.
  - exfalso. apply below_limit_lt in Hc; lia.
  - exists uv. repeat split; auto.
    + exfalso. rewrite (below_limit_mono height i i') in Hc by (assumption || lia). discriminate.
    + exfalso. rewrite (below_limit_mono height i i') in Hc by (assumption || lia). discriminate.
  - assert (Hih : i < height) by (apply below_limit_lt in Hc; lia).
    change (F32.mul F32.c0_48 (F32.of_Z width)) with (lower_limit width).
    rewrite Hj0. cbn [mbind option_bind].
    destruct (decide (j0 <= INT_MAX)) as [_|Hn]; [|unfold INT_MAX in Hn; lia].
    destruct (patch_cols_spec i (Z.to_nat width) j0 uv) as (uv1 & Hrun1 & LU1 & LV1 & Hin1 & Hout1);
      try (unfold INT_MAX; lia).
    rewrite Hrun1. cbn [mbind option_bind].
    destruct (decide (i < INT_MAX)) as [_|Hn]; [|unfold INT_MAX in Hn; lia].
    destruct (IH (i + 1) uv1) as (uv' & Hrun & LU & LV & Hin & Hout); try lia.
    exists uv'. split; [exact Hrun|]. split; [exact LU|]. split; [exact LV|]. split.
    + intros i' j' Hi' Hci' Hj' Hcj'. destruct (Z.eq_dec i' i) as [->|Hne].
      * destruct (Hout (Z.to_nat (i * width + j'))) as [EU EV].
        { intros i'' j'' Hi'' Hci'' Hj'' Hcj''.
          assert (j'' < width) by (apply below_limit_lt in Hcj''; lia).
          assert (j' < width) by (apply below_limit_lt in Hcj'; lia).
          assert (i'' < height) by (apply below_limit_lt in Hci''; lia).
          intros E. apply cell_index_inj in E; lia. }
        rewrite EU, EV. apply Hin1; [unfold INT_MAX; lia|exact Hcj'].
      * apply Hin; try lia; assumption.
    + intros k Hk. destruct (Hout k) as [EU EV].
      { intros i'' j'' Hi'' Hci'' Hj'' Hcj''. apply Hk; try lia; assumption. }
      rewrite EU, EV. apply Hout1.
      intros j'' Hj'' Hcj''. apply Hk; try assumption; unfold INT_MAX in *; lia.
  - exists uv. repeat split; auto.
    + exfalso. rewrite (below_limit_mono height i i') in Hc by (assumption || lia). discriminate.
    + exfalso. rewrite (below_limit_mono height i i') in Hc by (assumption || lia). discriminate.
Qed.

End Patch.

(** ** The seeded fields *)

Lemma in_patch_axis_spec n i i0 :
  first_index n = Some i0 ->
  in_patch_axis n i = true <-> i0 <= i /\ below_limit n i = true.
Proof.
  intros H. unfold in_patch_axis. rewrite H. rewrite andb_true_iff, Z.leb_le. reflexivity.
Qed.

Lemma seeded_fields_spec (junk : nat -> float) (width height : Z) :
  0 < width -> 0 < height -> width * height <= INT_MAX ->
  exists uv, seeded_fields junk width height = Some uv /\
    length uv.1 = Z.to_nat (width * height) /\
    length uv.2 = Z.to_nat (width * height) /\
    forall i j, 0 <= i < height -> 0 <= j < width ->
      uv.1 !! Z.to_nat (i * width + j)
      = Some (if in_patch width height i j then F32.c0_5 else F32.one) /\
      uv.2 !! Z.to_nat (i * width + j)
      = Some (if in_patch width height i j then F32.c0_25 else F32.zero).
Proof.
  intros Hw Hh Hwh.
  assert (Hdims : width <= INT_MAX /\ height <= INT_MAX) by (unfold INT_MAX in *; split; nia).
  destruct Hdims as [Hwmax Hhmax].
  assert (Hn : umul width height = width * height).
  { unfold umul. apply wrap32_small. unfold UINT_MOD, INT_MAX in *. nia. }
  unfold seeded_fields. rewrite Hn.
  destruct (decide (width * height <= INT_MAX)) as [_|]; [|contradiction].
  destruct (fill_loop_spec (Z.to_nat (width * height)) 0
              (new_array junk (width * height), new_array junk (width * height)))
    as (uv0 & Hfill & Hcells); cbn [fst snd]; rewrite ?new_array_length; try lia.
  rewrite Hfill. cbn [mbind option_bind].
  destruct (fill_loop_length _ _ _ _ Hfill) as [L1 L2]. cbn [fst snd] in L1, L2.
  rewrite new_array_length in L1, L2.
  destruct (first_index_spec height ltac:(unfold INT_MAX in *; lia)) as (i0 & Hi0 & Hi0r).
  destruct (first_index_spec width ltac:(unfold INT_MAX in *; lia)) as (j0 & Hj0 & Hj0r).
  change (F32.mul F32.c0_48 (F32.of_Z height)) with (lower_limit height).
  rewrite Hi0. cbn [mbind option_bind].
  destruct (decide (i0 <= INT_MAX)) as [_|Hn']; [|unfold INT_MAX in Hn'; lia].
  destruct (patch_rows_spec width height Hw Hh Hwh j0 (Z.to_nat height) i0 uv0)
    as (uv & Hrun & LU & LV & Hin & Hout); try assumption; try (unfold INT_MAX; lia).
  exists uv. split; [exact Hrun|]. split; [exact LU|]. split; [exact LV|].
  intros i j Hi Hj. unfold in_patch.
  destruct (in_patch_axis height i) eqn:Pi; [destruct (in_patch_axis width j) eqn:Pj|];
    cbn [andb].
  - apply (in_patch_axis_spec _ _ _ Hi0) in Pi. apply (in_patch_axis_spec _ _ _ Hj0) in Pj.
    apply Hin; unfold INT_MAX in *; try lia; tauto.
  - destruct (Hout (Z.to_nat (i * width + j))) as [EU EV].
    { intros i' j' Hi' Hci' Hj' Hcj' E.
      assert (i' < height) by (apply below_limit_lt in Hci'; unfold INT_MAX in *; lia).
      assert (j' < width) by (apply below_limit_lt in Hcj'; unfold INT_MAX in *; lia).
      apply (cell_index_inj width height) in E; try lia. destruct E as [-> ->].
      assert (in_patch_axis width j' = true)
        by (apply (in_patch_axis_spec _ _ _ Hj0); split; [lia|assumption]).
      congruence. }
    rewrite EU, EV. destruct (Hcells (Z.to_nat (i * width + j))) as [CU CV].
    rewrite CU, CV. destruct (decide _) as [|Hno]; [auto|].
    exfalso. apply Hno. split; [lia|]. simpl. apply Z2Nat.inj_lt; nia.
  - destruct (Hout (Z.to_nat (i * width + j))) as [EU EV].
    { intros i' j' Hi' Hci' Hj' Hcj' E.
      assert (i' < height) by (apply below_limit_lt in Hci'; unfold INT_MAX in *; lia).
      assert (j' < width) by (apply below_limit_lt in Hcj'; unfold INT_MAX in *; lia).
      apply (cell_index_inj width height) in E; try lia. destruct E as [-> ->].
      assert (in_patch_axis height i' = true)
        by (apply (in_patch_axis_spec _ _ _ Hi0); split; [lia|assumption]).
      congruence. }
    rewrite EU, EV. destruct (Hcells (Z.to_nat (i * width + j))) as [CU CV].
    rewrite CU, CV. destruct (decide _) as [|Hno]; [auto|].
    exfalso. apply Hno. split; [lia|]. simpl. apply Z2Nat.inj_lt; nia.
Qed.

(** ** The perturbation loop *)

Section Perturb.

Variable RAND_MAX : Z.
Variable rand : nat -> Z.

Lemma perturb_cell_spec (array : list float) (k : nat) (calls : nat) (v : float) :
  array !! k = Some v ->
  perturb_cell RAND_MAX rand array (Z.of_nat k) calls
  = Some (<[k := perturbed RAND_MAX v (rand calls)]> array, (calls + below (Some v))%nat).
Proof.
  intros Hv. assert (Hlt : (k < length array)%nat) by (eapply lookup_lt_Some; eauto).
  unfold perturb_cell, load, perturbed, below. rewrite Nat2Z.id, Hv. cbn [mbind option_bind].
  destruct (F32.ltb v F32.one).
  - rewrite store_Some by (rewrite Nat2Z.id; exact Hlt). cbn [mbind option_bind].
    rewrite Nat2Z.id. do 2 f_equal. lia.
  - rewrite list_insert_id by exact Hv. do 2 f_equal. lia.
Qed.

Lemma perturb_loop_spec (orig : fields) (c0 : nat) (n : nat) :
  length orig.1 = n -> length orig.2 = n ->
  forall count k0 cur calls,
    length cur.1 = n -> length cur.2 = n -> (k0 + count <= n)%nat ->
    (forall j, (k0 <= j)%nat -> cur.1 !! j = orig.1 !! j /\ cur.2 !! j = orig.2 !! j) ->
    calls = (c0 + draw_index orig k0)%nat ->
    exists fin calls',
      perturb_loop RAND_MAX rand count (Z.of_nat k0) cur calls = Some (fin, calls') /\
      length fin.1 = n /\ length fin.2 = n /\
      (forall j, (j < k0)%nat -> fin.1 !! j = cur.1 !! j /\ fin.2 !! j = cur.2 !! j) /\
      (forall j u v, (k0 <= j < k0 + count)%nat ->
         orig.1 !! j = Some u -> orig.2 !! j = Some v ->
         fin.1 !! j = Some (perturbed RAND_MAX u (rand (c0 + draw_index orig j))) /\
         fin.2 !! j = Some (perturbed RAND_MAX v
                              (rand (c0 + draw_index orig j + below (Some u))))) /\
      calls' = (c0 + draw_index orig (k0 + count))%nat.
Proof.
  intros LU LV. induction count as [|count IH]; intros k0 cur calls HU HV Hk Hsame Hcalls.
  - exists cur, calls. cbn [perturb_loop]. repeat split; auto; try lia.
    rewrite Nat.add_0_r. exact Hcalls.
  - cbn [perturb_loop].
    destruct (lookup_lt_is_Some_2 orig.1 k0 ltac:(lia)) as [u Hu].
    destruct (lookup_lt_is_Some_2 orig.2 k0 ltac:(lia)) as [v Hv].
    destruct (Hsame k0 ltac:(lia)) as [Su Sv].
    rewrite (perturb_cell_spec cur.1 k0 calls u) by (rewrite Su; exact Hu).
    cbn [mbind option_bind].
    rewrite (perturb_cell_spec cur.2 k0 _ v) by (rewrite Sv; exact Hv).
    cbn [mbind option_bind].
    replace (Z.of_nat k0 + 1) with (Z.of_nat (S k0)) by lia.
    set (U1 := <[k0:=perturbed RAND_MAX u (rand calls)]> cur.1).
    set (V1 := <[k0:=perturbed RAND_MAX v (rand (calls + below (Some u)))]> cur.2).
    destruct (IH (S k0) (U1, V1) (calls + below (Some u) + below (Some v))%nat)
      as (fin & calls' & Hrun & L1 & L2 & Hbefore & Hat & Hc');
      cbn [fst snd]; unfold U1, V1; rewrite ?length_insert; try lia.
    { intros j Hj. rewrite !list_lookup_insert_ne by lia. apply Hsame. lia. }
    { cbn [draw_index]. rewrite Hu, Hv. lia. }
    exists fin, calls'. split; [exact Hrun|]. split; [exact L1|]. split; [exact L2|].
    split; [|split].
    + intros j Hj. destruct (Hbefore j ltac:(lia)) as [B1 B2]. cbn [fst snd] in B1, B2.
      fold U1 V1 in B1, B2. unfold U1, V1 in B1, B2.
      rewrite list_lookup_insert_ne in B1 by lia.
      rewrite list_lookup_insert_ne in B2 by lia. auto.
    + intros j u' v' Hj Hu' Hv'. destruct (Nat.eq_dec j k0) as [->|Hne].
      * destruct (Hbefore k0 ltac:(lia)) as [B1 B2]. cbn [fst snd] in B1, B2.
        rewrite B1, B2. unfold U1, V1. rewrite !list_lookup_insert_eq by lia.
        rewrite Hu in Hu'. rewrite Hv in Hv'. inversion Hu'; inversion Hv'; subst.
        split; reflexivity.
      * apply Hat; [lia|assumption|assumption].
    + rewrite Hc'. f_equal. f_equal. lia.
Qed.

End Perturb.

(** ** The random factor *)

(** *** Monotonicity of the operations *)

Lemma mul_mono (c a b : float) :
  valid c -> is_finite c = true -> (0 <= B2R c)%R ->
  valid a -> is_finite a = true -> valid b -> is_finite b = true ->
  is_finite (F32.mul c a) = true -> is_finite (F32.mul c b) = true ->
  (B2R a <= B2R b)%R -> (B2R (F32.mul c a) <= B2R (F32.mul c b))%R.
Proof.
  intros Hc Fc Bc Ha Fa Hb Fb Fca Fcb Hab. unfold F32.mul, F32.prec, F32.emax in *.
  pose proof (mul_nearest c a Hc Ha Fc Fa Fca) as Na.
  pose proof (mul_nearest c b Hc Hb Fc Fb Fcb) as Nb.
  destruct (Req_dec (B2R c * B2R a) (B2R c * B2R b)) as [E|Hne].
  - rewrite E in Na.
    destruct (Req_dec (B2R c) 0) as [Z|NZ].
    + rewrite Z, Rmult_0_l in *.
      rewrite (nearest_in_format _ _ in_format_0 Na).
      rewrite (nearest_in_format _ _ in_format_0 Nb). lra.
    + assert (Eab : B2R a = B2R b) by (apply Rmult_eq_reg_l with (B2R c); assumption).
      destruct (B2R_inj a b Ha Hb Fa Fb Eab) as [->|(sa & sb & -> & ->)]; [lra|].
      destruct c as [sc|sc| |sc mc ec]; try discriminate; simpl; lra.
  - apply (nearest_mono _ _ _ _ Na Nb). nra.
Qed.

Lemma div_mono (a b : float) sy my ey :
  valid a -> is_finite a = true -> valid b -> is_finite b = true ->
  valid (S754_finite sy my ey) -> (0 < B2R (S754_finite sy my ey))%R ->
  is_finite (F32.div a (S754_finite sy my ey)) = true ->
  is_finite (F32.div b (S754_finite sy my ey)) = true ->
  (B2R a <= B2R b)%R ->
  (B2R (F32.div a (S754_finite sy my ey)) <= B2R (F32.div b (S754_finite sy my ey)))%R.
Proof.
  intros Ha Fa Hb Fb Hy By Fda Fdb Hab. unfold F32.div, F32.prec, F32.emax in *.
  pose proof (div_nearest a sy my ey Ha Hy Fa Fda) as Na.
  pose proof (div_nearest b sy my ey Hb Hy Fb Fdb) as Nb.
  destruct (Req_dec (B2R a) (B2R b)) as [Eab|Hne].
  - destruct (B2R_inj a b Ha Hb Fa Fb Eab) as [->|(sa & sb & -> & ->)]; [lra|].
    simpl. lra.
  - apply (nearest_mono _ _ _ _ Na Nb).
    apply Rmult_lt_compat_r; [apply Rinv_0_lt_compat; exact By|lra].
Qed.

Lemma B2R_c0_01 : B2R F32.c0_01 = (10737418 / 1073741824)%R.
Proof.
  unfold F32.c0_01. rewrite B2R_finite. cbn [signed].
  rewrite (F2R_neg_exp _ 30) by lia. reflexivity.
Qed.

Lemma B2R_c0_02 : B2R F32.c0_02 = (10737418 / 536870912)%R.
Proof.
  unfold F32.c0_02. rewrite B2R_finite. cbn [signed].
  rewrite (F2R_neg_exp _ 29) by lia. reflexivity.
Qed.

Arguments product : simpl never.
Arguments quotient : simpl never.

Lemma in_format_1 : in_format 1.
Proof. apply (in_format_pow2 0). lia. Qed.

Section Random.

Variable RAND_MAX : Z.
Hypothesis HRM : 1 <= RAND_MAX <= INT_MAX.

Lemma RAND_MAX_float :
  exists m e, F32.of_Z RAND_MAX = S754_finite false m e /\
    valid (S754_finite false m e) /\ (1 <= B2R (S754_finite false m e) <= 4294967296)%R.
Proof.
  unfold INT_MAX in HRM.
  destruct (of_Z_facts RAND_MAX ltac:(lia)) as (Hv & Hf & Hn & Hb).
  assert (H1 : (1 <= B2R (F32.of_Z RAND_MAX))%R).
  { apply (nearest_ge _ _ _ Hn in_format_1). apply IZR_le. lia. }
  destruct (F32.of_Z RAND_MAX) as [s|s| |s m e] eqn:E; try discriminate.
  - simpl in H1. lra.
  - destruct s.
    + rewrite B2R_finite in H1. cbn [signed] in H1.
      pose proof (F2R_gt_0 (Zpos m) e ltac:(lia)). lra.
    + exists m, e. split; [reflexivity|]. split; [exact Hv|]. lra.
Qed.

(** Every stage of [0.02f*(float)r / RAND_MAX - 0.01f] is a finite number. *)
Lemma rRand_stages r :
  0 <= r <= RAND_MAX ->
  (valid (product r) /\ is_finite (product r) = true /\
   (0 <= B2R (product r) <= 4294967296)%R) /\
  (valid (quotient RAND_MAX r) /\ is_finite (quotient RAND_MAX r) = true /\
   (0 <= B2R (quotient RAND_MAX r) <= 4294967296)%R) /\
  (valid (rRand RAND_MAX r) /\ is_finite (rRand RAND_MAX r) = true /\
   nearest (B2R (quotient RAND_MAX r) - B2R F32.c0_01) (B2R (rRand RAND_MAX r))).
Proof.
  intros Hr. change (rRand RAND_MAX r) with (F32.sub (quotient RAND_MAX r) F32.c0_01).
  unfold quotient. set (p := product r). set (d := F32.div p (F32.of_Z RAND_MAX)).
  unfold INT_MAX in HRM.
  destruct (of_Z_facts r ltac:(lia)) as (Hvr & Hfr & Hnr & Hbr).
  destruct RAND_MAX_float as (mF & eF & EF & HvF & HbF).
  pose proof B2R_c0_02 as Hc2. pose proof B2R_c0_01 as Hc1.
  pose proof bpow_127_big as Hbig.
  destruct (scale_facts F32.c0_02 (F32.of_Z r)) as (Hvp & Hfp & Hnp & Hbp);
    try assumption; try reflexivity.
  { rewrite Hc2. lra. }
  change (F32.mul F32.c0_02 (F32.of_Z r)) with p in Hvp, Hfp, Hnp, Hbp.
  assert (Hp : valid p /\ is_finite p = true /\ (0 <= B2R p <= 4294967296)%R).
  { split; [exact Hvp|]. split; [exact Hfp|]. lra. }
  split; [exact Hp|].
  assert (Hquot : (0 <= B2R p / B2R (S754_finite false mF eF) <= 4294967296)%R).
  { split.
    - apply Rmult_le_pos; [lra|]. apply Rlt_le, Rinv_0_lt_compat. lra.
    - apply Rmult_le_reg_r with (B2R (S754_finite false mF eF)); [lra|].
      unfold Rdiv. rewrite Rmult_assoc, Rinv_l by lra. nra. }
  assert (Hfd : is_finite d = true).
  { unfold d. rewrite EF. apply div_finite; try assumption.
    rewrite Rabs_pos_eq by lra. lra. }
  assert (Hvd : valid d).
  { unfold d. apply div_valid; [exact Hvp|]. rewrite EF. exact HvF. }
  assert (Hnd : nearest (B2R p / B2R (S754_finite false mF eF)) (B2R d)).
  { unfold d. rewrite EF. apply div_nearest; try assumption.
    unfold d in Hfd. rewrite EF in Hfd. exact Hfd. }
  assert (Hbd : (0 <= B2R d <= 4294967296)%R).
  { split.
    - apply (nearest_ge _ _ _ Hnd in_format_0). lra.
    - apply (nearest_le _ _ _ Hnd in_format_2_32). lra. }
  split; [split; [exact Hvd|split; [exact Hfd|exact Hbd]]|].
  assert (Hfs : is_finite (F32.sub d F32.c0_01) = true).
  { apply sub_finite; try assumption; try reflexivity.
    rewrite Hc1. apply Rabs_def1; lra. }
  split; [|split; [exact Hfs|]].
  - apply sub_valid; [exact Hvd|reflexivity].
  - apply sub_nearest; try assumption; try reflexivity.
Qed.

Lemma rRand_finite r : 0 <= r <= RAND_MAX -> is_finite (rRand RAND_MAX r) = true.
Proof. intros Hr. apply (rRand_stages r Hr). Qed.

Lemma rRand_lower r :
  0 <= r <= RAND_MAX -> (- B2R F32.c0_01 <= B2R (rRand RAND_MAX r))%R.
Proof.
  intros Hr. destruct (rRand_stages r Hr) as (_ & (_ & _ & Hbd) & (_ & _ & Hn)).
  apply (nearest_ge _ _ _ Hn).
  - apply in_format_opp, valid_in_format. reflexivity.
  - lra.
Qed.

Lemma rRand_upper r :
  platform_ok RAND_MAX = true ->
  0 <= r <= RAND_MAX -> (B2R (rRand RAND_MAX r) <= B2R F32.c0_01)%R.
Proof.
  intros Hok Hr. unfold INT_MAX in HRM.
  destruct (rRand_stages r Hr) as ((Hvp & Hfp & Hbp) & (Hvd & Hfd & Hbd) & (_ & _ & Hn)).
  destruct (rRand_stages RAND_MAX ltac:(lia))
    as ((Hvp' & Hfp' & Hbp') & (Hvd' & Hfd' & Hbd') & _).
  destruct (of_Z_facts r ltac:(lia)) as (Hvr & Hfr & _ & _).
  destruct (of_Z_facts RAND_MAX ltac:(lia)) as (HvR & HfR & _ & _).
  destruct RAND_MAX_float as (mF & eF & EF & HvF & HbF).
  (* the product and the quotient grow with [r] *)
  assert (Hp : (B2R (product r) <= B2R (product RAND_MAX))%R).
  { apply mul_mono; try assumption; try reflexivity.
    - rewrite B2R_c0_02. lra.
    - apply of_Z_mono; lia. }
  assert (Hd : (B2R (quotient RAND_MAX r) <= B2R (quotient RAND_MAX RAND_MAX))%R).
  { unfold quotient in *. revert Hfd Hfd'. rewrite EF. intros Hfd Hfd'.
    apply div_mono; try assumption. lra. }
  (* the platform check bounds the largest quotient *)
  assert (Htop : (B2R (quotient RAND_MAX RAND_MAX) <= B2R F32.c0_02)%R).
  { unfold platform_ok in Hok. apply negb_true_iff in Hok.
    destruct (Rle_dec (B2R (quotient RAND_MAX RAND_MAX)) (B2R F32.c0_02)) as [|Hgt];
      [assumption|exfalso].
    assert (Hlt : F32.ltb F32.c0_02 (quotient RAND_MAX RAND_MAX) = true).
    { apply SFltb_spec; try assumption; try reflexivity. lra. }
    rewrite Hlt in Hok. discriminate Hok. }
  apply (nearest_le _ _ _ Hn).
  - apply valid_in_format. reflexivity.
  - rewrite B2R_c0_02 in Htop. rewrite B2R_c0_01. lra.
Qed.

End Random.

(** ** Perturbed patch values *)

(** *** Rounding near the middle of two neighbours *)

Lemma format_gap q e1 y :
  in_format y -> -149 <= e1 -> (e1 = -149 \/ 8388608 <= q) -> 0 <= q ->
  (y <= F2R q e1 \/ F2R (q + 1) e1 <= y)%R.
Proof.
  intros Hy He Hq Hq0. destruct (Rle_dec y (F2R q e1)) as [|Hgt]; [left; assumption|right].
  pose proof (F2R_ge_0 q e1 Hq0) as H0.
  destruct Hy as [->|(gm & ge & Hc & [->| ->])].
  - lra.
  - apply grid_gap; try assumption. lra.
  - pose proof (F2R_gt_0 gm ge ltac:(destruct Hc; lia)). lra.
Qed.

Lemma nearest_below_mid q e1 x y :
  in_format (F2R q e1) -> -149 <= e1 -> (e1 = -149 \/ 8388608 <= q) -> 0 <= q ->
  (x < F2R q e1 + bpow e1 / 2)%R -> nearest x y -> (y <= F2R q e1)%R.
Proof.
  intros Hg He Hq Hq0 Hx Hn.
  destruct (format_gap q e1 y (proj1 Hn) He Hq Hq0) as [|Hy]; [assumption|exfalso].
  rewrite F2R_succ in Hy. pose proof (bpow_gt_0 e1) as Hp.
  pose proof (proj2 Hn _ Hg) as Hc. revert Hc.
  unfold Rabs. destruct (Rcase_abs _), (Rcase_abs _); lra.
Qed.

Lemma nearest_above_mid q e1 x y :
  in_format (F2R (q + 1) e1) -> -149 <= e1 -> (e1 = -149 \/ 8388608 <= q) -> 0 <= q ->
  (F2R (q + 1) e1 - bpow e1 / 2 < x)%R -> nearest x y -> (F2R (q + 1) e1 <= y)%R.
Proof.
  intros Hg He Hq Hq0 Hx Hn.
  destruct (format_gap q e1 y (proj1 Hn) He Hq Hq0) as [Hy|]; [exfalso|assumption].
  rewrite F2R_succ in *. pose proof (bpow_gt_0 e1) as Hp.
  pose proof (proj2 Hn _ Hg) as Hc. revert Hc.
  unfold Rabs. destruct (Rcase_abs _), (Rcase_abs _); lra.
Qed.

(** *** The perturbation of the four initial values *)

Lemma perturbed_one RAND_MAX r : perturbed RAND_MAX F32.one r = F32.one.
Proof. reflexivity. Qed.

Lemma perturbed_zero RAND_MAX r :
  is_finite (rRand RAND_MAX r) = true -> perturbed RAND_MAX F32.zero r = F32.zero.
Proof.
  unfold perturbed. change (F32.ltb F32.zero F32.one) with true. cbv iota.
  destruct (rRand RAND_MAX r) as [s|s| |s m e]; try discriminate; intros _;
    destruct s; reflexivity.
Qed.

Lemma in_format_canonical m e :
  0 < m < 16777216 -> fexp32 (Zdigits2 m + e) = e -> in_format (F2R m e).
Proof. intros H1 H2. apply in_format_F2R. split; assumption. Qed.

(** [v + rr * v] for [v = 2^-j] ([j] is 1 or 2) and [|rr| <= 0.01f]. *)
Lemma scaled_draw (rr v : float) (j : Z) :
  1 <= j <= 2 ->
  valid rr -> is_finite rr = true ->
  (- B2R F32.c0_01 <= B2R rr <= B2R F32.c0_01)%R ->
  valid v -> is_finite v = true -> B2R v = bpow (- j) ->
  valid (F32.add v (F32.mul rr v)) /\
  is_finite (F32.add v (F32.mul rr v)) = true /\
  exists t, nearest (bpow (- j) + t) (B2R (F32.add v (F32.mul rr v))) /\
            (- F2R 10737418 (- 30 - j) <= t <= F2R 10737418 (- 30 - j))%R.
Proof.
  intros Hj Hvr Hfr Hbr Hvv Hfv Bv. rewrite B2R_c0_01 in Hbr.
  pose proof bpow_127_big as Hbig.
  assert (Hpow : (0 < bpow (- j) <= / 2)%R).
  { split; [apply bpow_gt_0|]. replace (/ 2)%R with (bpow (- (1))).
    - apply bpow_le. lia.
    - rewrite bpow_opp, bpow_1. reflexivity. }
  assert (Hg : F2R 10737418 (- 30 - j) = (10737418 / 1073741824 * bpow (- j))%R).
  { unfold F2R. replace (- 30 - j) with (- (30) + - j) by ring.
    rewrite bpow_plus, bpow_opp, (bpow_IZR 30) by lia.
    change (2 ^ 30) with 1073741824. field. }
  assert (Hgf : in_format (F2R 10737418 (- 30 - j))).
  { apply in_format_canonical; [lia|]. change (Zdigits2 10737418) with 24.
    unfold fexp32. lia. }
  unfold F32.add, F32.mul, F32.prec, F32.emax.
  assert (Hfm : is_finite (SFmul 24 128 rr v) = true).
  { apply mul_finite; try assumption. rewrite Bv. apply Rabs_def1; nra. }
  pose proof (mul_valid rr v Hvr Hvv) as Hvm.
  pose proof (mul_nearest rr v Hvr Hvv Hfr Hfv Hfm) as Hnm. rewrite Bv in Hnm.
  assert (Hbm : (- F2R 10737418 (- 30 - j) <= B2R (SFmul 24 128 rr v)
                 <= F2R 10737418 (- 30 - j))%R).
  { split.
    - apply (nearest_ge _ _ _ Hnm); [apply in_format_opp, Hgf|]. rewrite Hg. nra.
    - apply (nearest_le _ _ _ Hnm); [exact Hgf|]. rewrite Hg. nra. }
  assert (Hfa : is_finite (SFadd 24 128 v (SFmul 24 128 rr v)) = true).
  { apply add_finite; try assumption. rewrite Bv. rewrite Hg in Hbm.
    apply Rabs_def1; nra. }
  split; [apply add_valid; assumption|]. split; [exact Hfa|].
  exists (B2R (SFmul 24 128 rr v)). split; [|exact Hbm].
  rewrite <- Bv. apply add_nearest; assumption.
Qed.

Lemma B2R_c0_5 : B2R F32.c0_5 = bpow (- (1)).
Proof.
  unfold F32.c0_5. rewrite B2R_finite. cbn [signed].
  rewrite (F2R_neg_exp _ 24) by lia. rewrite bpow_opp, bpow_1.
  change (2 ^ 24) with 16777216. lra.
Qed.

Lemma B2R_c0_25 : B2R F32.c0_25 = bpow (- (2)).
Proof.
  unfold F32.c0_25. rewrite B2R_finite. cbn [signed].
  rewrite (F2R_neg_exp _ 25) by lia. rewrite bpow_opp, (bpow_IZR 2) by lia.
  change (2 ^ 25) with 33554432. change (2 ^ 2) with 4. lra.
Qed.

Lemma perturbed_c0_5 RAND_MAX r :
  valid (rRand RAND_MAX r) -> is_finite (rRand RAND_MAX r) = true ->
  (- B2R F32.c0_01 <= B2R (rRand RAND_MAX r) <= B2R F32.c0_01)%R ->
  is_finite (perturbed RAND_MAX F32.c0_5 r) = true /\
  (Rabs (B2R (perturbed RAND_MAX F32.c0_5 r) - 5 / 10) <= 5 / 1000)%R.
Proof.
  intros Hv Hf Hb. unfold perturbed. change (F32.ltb F32.c0_5 F32.one) with true. cbv iota.
  destruct (scaled_draw (rRand RAND_MAX r) F32.c0_5 1 ltac:(lia) Hv Hf Hb
              ltac:(reflexivity) ltac:(reflexivity) B2R_c0_5)
    as (_ & Hfin & t & Hn & Ht).
  split; [exact Hfin|].
  change (- 30 - 1) with (- (31)) in Ht. rewrite (F2R_neg_exp _ 31) in Ht by lia.
  change (2 ^ 31) with 2147483648 in Ht.
  assert (Hhalf : bpow (- (1)) = (/ 2)%R) by (rewrite bpow_opp, bpow_1; reflexivity).
  rewrite Hhalf in Hn.
  assert (Hhi : (B2R (F32.add F32.c0_5 (F32.mul (rRand RAND_MAX r) F32.c0_5))
                 <= F2R 8472494 (- (24)))%R).
  { apply (nearest_below_mid 8472494 (- (24)) _ _) in Hn; try lia; [exact Hn| |].
    - apply in_format_canonical; [lia|reflexivity].
    - rewrite (F2R_neg_exp _ 24) by lia. rewrite bpow_opp, (bpow_IZR 24) by lia.
      change (2 ^ 24) with 16777216. lra. }
  assert (Hlo : (F2R (16609443 + 1) (- (25))
                 <= B2R (F32.add F32.c0_5 (F32.mul (rRand RAND_MAX r) F32.c0_5)))%R).
  { apply (nearest_above_mid 16609443 (- (25)) _ _) in Hn; try lia; [exact Hn| |].
    - apply in_format_canonical; [lia|reflexivity].
    - rewrite (F2R_neg_exp _ 25) by lia. rewrite bpow_opp, (bpow_IZR 25) by lia.
      change (2 ^ 25) with 33554432. change (16609443 + 1) with 16609444. lra. }
  rewrite (F2R_neg_exp _ 24) in Hhi by lia. rewrite (F2R_neg_exp _ 25) in Hlo by lia.
  change (2 ^ 24) with 16777216 in Hhi. change (2 ^ 25) with 33554432 in Hlo.
  change (16609443 + 1) with 16609444 in Hlo.
  apply Rabs_le. lra.
Qed.

Lemma perturbed_c0_25 RAND_MAX r :
  valid (rRand RAND_MAX r) -> is_finite (rRand RAND_MAX r) = true ->
  (- B2R F32.c0_01 <= B2R (rRand RAND_MAX r) <= B2R F32.c0_01)%R ->
  is_finite (perturbed RAND_MAX F32.c0_25 r) = true /\
  (Rabs (B2R (perturbed RAND_MAX F32.c0_25 r) - 25 / 100) <= 25 / 10000)%R.
Proof.
  intros Hv Hf Hb. unfold perturbed. change (F32.ltb F32.c0_25 F32.one) with true. cbv iota.
  destruct (scaled_draw (rRand RAND_MAX r) F32.c0_25 2 ltac:(lia) Hv Hf Hb
              ltac:(reflexivity) ltac:(reflexivity) B2R_c0_25)
    as (_ & Hfin & t & Hn & Ht).
  split; [exact Hfin|].
  change (- 30 - 2) with (- (32)) in Ht. rewrite (F2R_neg_exp _ 32) in Ht by lia.
  change (2 ^ 32) with 4294967296 in Ht.
  assert (Hq : bpow (- (2)) = (/ 4)%R).
  { rewrite bpow_opp, (bpow_IZR 2) by lia. reflexivity. }
  rewrite Hq in Hn.
  assert (Hhi : (B2R (F32.add F32.c0_25 (F32.mul (rRand RAND_MAX r) F32.c0_25))
                 <= F2R 8472494 (- (25)))%R).
  { apply (nearest_below_mid 8472494 (- (25)) _ _) in Hn; try lia; [exact Hn| |].
    - apply in_format_canonical; [lia|reflexivity].
    - rewrite (F2R_neg_exp _ 25) by lia. rewrite bpow_opp, (bpow_IZR 25) by lia.
      change (2 ^ 25) with 33554432. lra. }
  assert (Hlo : (F2R (16609443 + 1) (- (26))
                 <= B2R (F32.add F32.c0_25 (F32.mul (rRand RAND_MAX r) F32.c0_25)))%R).
  { apply (nearest_above_mid 16609443 (- (26)) _ _) in Hn; try lia; [exact Hn| |].
    - apply in_format_canonical; [lia|reflexivity].
    - rewrite (F2R_neg_exp _ 26) by lia. rewrite bpow_opp, (bpow_IZR 26) by lia.
      change (2 ^ 26) with 67108864. change (16609443 + 1) with 16609444. lra. }
  rewrite (F2R_neg_exp _ 25) in Hhi by lia. rewrite (F2R_neg_exp _ 26) in Hlo by lia.
  change (2 ^ 25) with 33554432 in Hhi. change (2 ^ 26) with 67108864 in Hlo.
  change (16609443 + 1) with 16609444 in Hlo.
  apply Rabs_le. lra.
Qed.

(** ** The accuracy of the random factor *)

(** *** The error of one rounding *)

(** A positive number below [2^(n-126)] lies between two consecutive powers
    of two. *)
Lemma magnitude (n : nat) (x : R) :
  (bpow (-126) <= x < bpow (-126 + Z.of_nat n))%R ->
  exists e, -125 <= e /\ (bpow (e - 1) <= x < bpow e)%R.
Proof.
  induction n as [|n IH]; intros [Hlo Hhi].
  - exfalso. change (-126 + Z.of_nat 0) with (-126) in Hhi. lra.
  - destruct (Rlt_dec x (bpow (-126 + Z.of_nat n))) as [Hlt|Hge].
    + apply IH. split; assumption.
    + exists (-126 + Z.of_nat (S n)). split; [lia|].
      replace (-126 + Z.of_nat (S n) - 1) with (-126 + Z.of_nat n) by lia.
      split; [lra|exact Hhi].
Qed.

(** The integer part of a real number that is not negative. *)
Lemma integer_part (s : R) :
  (0 <= s)%R -> exists k, 0 <= k /\ (IZR k <= s < IZR k + 1)%R.
Proof.
  intros Hs. destruct (archimed s) as [H1 H2]. exists (up s - 1).
  rewrite minus_IZR. split; [|lra].
  assert (0 < up s); [|lia]. apply lt_IZR. lra.
Qed.

(** Two neighbours of the format around [x], one unit [2^e1] apart. *)
Lemma format_neighbours (x : R) :
  (0 <= x < bpow 127)%R ->
  exists k e1,
    in_format (F2R k e1) /\ in_format (F2R (k + 1) e1) /\
    (F2R k e1 <= x < F2R (k + 1) e1)%R /\
    ((bpow e1 <= bpow (- (23)) * x)%R \/ e1 = -149).
Proof.
  intros [H0 Hhi].
  assert (Hgrid : forall e1, -149 <= e1 ->
            ((bpow (e1 + 23) <= x < bpow (e1 + 24))%R \/
             (e1 = -149 /\ (x < bpow (e1 + 24))%R)) ->
            exists k, in_format (F2R k e1) /\ in_format (F2R (k + 1) e1) /\
                      (F2R k e1 <= x < F2R (k + 1) e1)%R).
  { intros e1 He1 Hx. pose proof (bpow_gt_0 e1) as Hp. pose proof (bpow_gt_0 (- e1)) as Hq.
    assert (Hinv : (bpow (- e1) * bpow e1 = 1)%R).
    { rewrite <- bpow_plus. replace (- e1 + e1) with 0 by ring. apply bpow_0. }
    destruct (integer_part (x * bpow (- e1))) as (k & Hk0 & Hk1 & Hk2); [nra|].
    assert (Hx1 : (F2R k e1 <= x)%R).
    { unfold F2R. apply Rle_trans with (x * bpow (- e1) * bpow e1)%R;
        [apply Rmult_le_compat_r; lra|rewrite Rmult_assoc, Hinv; lra]. }
    assert (Hx2 : (x < F2R (k + 1) e1)%R).
    { unfold F2R. rewrite plus_IZR.
      apply Rle_lt_trans with (x * bpow (- e1) * bpow e1)%R;
        [rewrite Rmult_assoc, Hinv; lra|apply Rmult_lt_compat_r; lra]. }
    assert (Htop : k < 16777216).
    { apply (F2R_lt_inv _ _ e1). apply Rle_lt_trans with x; [exact Hx1|].
      replace (F2R 16777216 e1) with (bpow (e1 + 24)); [destruct Hx as [Hx|Hx]; lra|].
      unfold F2R. rewrite bpow_plus, (bpow_IZR 24) by lia. change (2 ^ 24) with 16777216.
      ring. }
    assert (Hlow : e1 = -149 \/ 8388608 <= k).
    { destruct Hx as [[Hx _]|[Hx _]]; [right|left; exact Hx].
      assert (8388608 < k + 1); [|lia]. apply (F2R_lt_inv _ _ e1).
      apply Rle_lt_trans with x; [|exact Hx2].
      replace (F2R 8388608 e1) with (bpow (e1 + 23)); [exact Hx|].
      unfold F2R. rewrite bpow_plus, (bpow_IZR 23) by lia. change (2 ^ 23) with 8388608.
      ring. }
    assert (Hfmt : forall m, 0 <= m < 16777216 -> (e1 = -149 \/ 8388608 <= m) ->
                     in_format (F2R m e1)).
    { intros m Hm Hl. destruct (Z.eq_dec m 0) as [->|Hne]; [rewrite F2R_0; apply in_format_0|].
      apply in_format_canonical; [lia|].
      pose proof (Zdigits2_spec m ltac:(lia)) as Hd.
      pose proof (Zdigits2_pos m ltac:(lia)) as Hd0.
      assert (Hd24 : Zdigits2 m <= 24).
      { destruct (Z_lt_le_dec 24 (Zdigits2 m)) as [Hc|]; [exfalso|assumption].
        assert (2 ^ 24 <= 2 ^ (Zdigits2 m - 1)) by (apply Z.pow_le_mono_r; lia).
        change (2 ^ 24) with 16777216 in *. lia. }
      unfold fexp32. destruct Hl as [->|Hl]; [lia|].
      assert (Zdigits2 m = 24); [|lia].
      destruct (Z_lt_le_dec (Zdigits2 m) 24) as [Hc|]; [exfalso|lia].
      assert (2 ^ Zdigits2 m <= 2 ^ 23) by (apply Z.pow_le_mono_r; lia).
      change (2 ^ 23) with 8388608 in *. lia. }
    exists k. split; [apply Hfmt; [lia|exact Hlow]|]. split; [|split; assumption].
    destruct (Z.eq_dec (k + 1) 16777216) as [E|Hne].
    - rewrite E. replace (F2R 16777216 e1) with (F2R 8388608 (e1 + 1)).
      + apply in_format_F2R, canonical32_carry. exact He1.
      + rewrite <- (F2R_shift 8388608 (e1 + 1) 1) by lia. f_equal; lia.
    - apply Hfmt; [lia|]. destruct Hlow; [left; assumption|right; lia]. }
  destruct (Rlt_dec x (bpow (-126))) as [Hsub|Hnorm].
  - destruct (Hgrid (-149)) as (k & F1 & F2 & Hx); [lia| |].
    { right. split; [reflexivity|].
      apply Rlt_trans with (bpow (-126)); [exact Hsub|apply bpow_lt; lia]. }
    exists k, (-149). repeat split; try assumption; try apply Hx. right. reflexivity.
  - destruct (magnitude 253 x) as (e & He & Hx1 & Hx2).
    { split; [lra|]. exact Hhi. }
    destruct (Hgrid (e - 24)) as (k & F1 & F2 & Hx); [lia| |].
    { left. replace (e - 24 + 23) with (e - 1) by ring.
      replace (e - 24 + 24) with e by ring. split; assumption. }
    exists k, (e - 24). repeat split; try assumption; try apply Hx. left.
    replace (e - 24) with (- (23) + (e - 1)) by ring. rewrite bpow_plus.
    apply Rmult_le_compat_l; [apply Rlt_le, bpow_gt_0|exact Hx1].
Qed.

(** Nearest rounding moves a number by at most [2^-24] of its size, or by
    [2^-150] where the format has no more than its smallest unit. *)
Lemma nearest_error (x y : R) :
  nearest x y -> (Rabs x < bpow 127)%R ->
  (Rabs (y - x) <= bpow (- (24)) * Rabs x + bpow (- (150)))%R.
Proof.
  assert (Hpos : forall x y, nearest x y -> (0 <= x < bpow 127)%R ->
            (Rabs (y - x) <= bpow (- (24)) * x + bpow (- (150)))%R).
  { clear x y. intros x y Hn Hx.
    destruct (format_neighbours x Hx) as (k & e1 & F1 & F2 & [Hx1 Hx2] & He).
    pose proof (proj2 Hn _ F1) as N1. pose proof (proj2 Hn _ F2) as N2.
    rewrite F2R_succ in *. pose proof (bpow_gt_0 e1) as Hp.
    assert (Hhalf : (Rabs (y - x) <= bpow e1 / 2)%R).
    { revert N1 N2. unfold Rabs. repeat destruct Rcase_abs; intros; lra. }
    assert (H24 : (bpow (- (23)) = 2 * bpow (- (24)))%R).
    { replace (- (23)) with (- (24) + 1) by ring. apply bpow_succ. }
    assert (H150 : (bpow (-149) = 2 * bpow (- (150)))%R).
    { replace (-149) with (- (150) + 1) by ring. apply bpow_succ. }
    pose proof (bpow_gt_0 (- (24))). pose proof (bpow_gt_0 (- (150))).
    destruct He as [He| ->]; [|nra]. nra. }
  intros Hn Hx. destruct (Rle_dec 0 x) as [H0|H0].
  - rewrite (Rabs_pos_eq x) in * by exact H0. apply Hpos; [exact Hn|lra].
  - assert (Hx' : (x < 0)%R) by lra. rewrite (Rabs_left x) in * by exact Hx'.
    replace (y - x)%R with (- (- y - - x))%R by ring. rewrite Rabs_Ropp.
    apply Hpos; [apply nearest_opp; exact Hn|lra].
Qed.

Lemma Rabs_le_between (a b : R) : (Rabs a <= b)%R -> (- b <= a <= b)%R.
Proof. unfold Rabs. destruct (Rcase_abs a); lra. Qed.

(** The same with the numbers written out, for numbers below [2^32]. *)
Lemma nearest_accuracy (x y : R) :
  nearest x y -> (Rabs x <= 4294967296)%R ->
  (- (/ 16777216 * Rabs x + / 1000000000000000000000000000000) <= y - x
   <= / 16777216 * Rabs x + / 1000000000000000000000000000000)%R.
Proof.
  intros Hn Hx. apply Rabs_le_between.
  assert (Hu : bpow (- (24)) = (/ 16777216)%R).
  { rewrite bpow_opp, (bpow_IZR 24) by lia. reflexivity. }
  assert (He : (bpow (- (150)) <= / 1000000000000000000000000000000)%R).
  { rewrite bpow_opp, (bpow_IZR 150) by lia.
    apply Rinv_le_contravar; [lra|]. apply IZR_le. vm_compute. discriminate. }
  pose proof bpow_127_big as Hbig.
  pose proof (nearest_error x y Hn ltac:(lra)) as H. rewrite Hu in H. lra.
Qed.

(** *** The random factor and the draw *)

Section Accuracy.

Variable RAND_MAX : Z.
Hypothesis HRM : 1 <= RAND_MAX <= INT_MAX.

(** The value of each stage of [0.02f*(float)r / RAND_MAX - 0.01f] is the
    nearest number of the format to the exact result of its operation. *)
Lemma rRand_roundings r :
  0 <= r <= RAND_MAX ->
  nearest (IZR r) (B2R (F32.of_Z r)) /\
  nearest (IZR RAND_MAX) (B2R (F32.of_Z RAND_MAX)) /\
  (1 <= B2R (F32.of_Z RAND_MAX))%R /\
  nearest (B2R F32.c0_02 * B2R (F32.of_Z r)) (B2R (product r)) /\
  nearest (B2R (product r) / B2R (F32.of_Z RAND_MAX)) (B2R (quotient RAND_MAX r)) /\
  nearest (B2R (quotient RAND_MAX r) - B2R F32.c0_01) (B2R (rRand RAND_MAX r)).
Proof.
  intros Hr. unfold INT_MAX in HRM.
  destruct (rRand_stages RAND_MAX HRM r Hr) as ((Hvp & Hfp & Hbp) & (Hvd & Hfd & Hbd) & (_ & _ & Hn)).
  destruct (of_Z_facts r ltac:(lia)) as (Hvr & Hfr & Hnr & Hbr).
  destruct (of_Z_facts RAND_MAX ltac:(lia)) as (_ & _ & HnR & _).
  destruct (RAND_MAX_float RAND_MAX HRM) as (mF & eF & EF & HvF & HbF).
  split; [exact Hnr|]. split; [exact HnR|]. split; [rewrite EF; lra|].
  split; [|split; [|exact Hn]].
  - unfold product, F32.mul, F32.prec, F32.emax in *.
    apply mul_nearest; try assumption; reflexivity.
  - unfold quotient, F32.div, F32.prec, F32.emax in *. revert Hfd. rewrite EF. intros Hfd.
    apply div_nearest; assumption.
Qed.

(** The factor is the value of [0.02 * r / RAND_MAX - 0.01] up to the
    rounding of the three constants and of the five operations. *)
Lemma rRand_accuracy r :
  0 <= r <= RAND_MAX ->
  (Rabs (B2R (rRand RAND_MAX r) - (2 / 100 * IZR r / IZR RAND_MAX - 1 / 100))
   <= 1 / 100000000)%R.
Proof.
  intros Hr. unfold INT_MAX in HRM.
  destruct (rRand_roundings r Hr) as (Nx & NR & HfR1 & Np & Nq & Nr).
  assert (HX : (0 <= IZR r <= IZR RAND_MAX)%R) by (split; apply IZR_le; lia).
  assert (HM : (1 <= IZR RAND_MAX <= 2147483647)%R) by (split; apply IZR_le; lia).
  rewrite B2R_c0_02 in Np. rewrite B2R_c0_01 in Nr.
  revert Nx NR HfR1 Np Nq Nr HX HM.
  generalize (B2R (rRand RAND_MAX r)) (B2R (quotient RAND_MAX r)) (B2R (product r))
    (B2R (F32.of_Z RAND_MAX)) (B2R (F32.of_Z r)) (IZR RAND_MAX) (IZR r).
  intros rr d p fR fx M X Nx NR HfR1 Np Nq Nr HX HM. clear Hr.
  (* the conversions *)
  pose proof (nearest_accuracy _ _ Nx) as Ex. rewrite (Rabs_pos_eq X) in Ex by lra.
  specialize (Ex ltac:(lra)).
  pose proof (nearest_accuracy _ _ NR) as ER. rewrite (Rabs_pos_eq M) in ER by lra.
  specialize (ER ltac:(lra)).
  (* the product *)
  assert (Hfx : (0 <= fx)%R) by (apply (nearest_ge _ _ _ Nx in_format_0); lra).
  pose proof (nearest_accuracy _ _ Np) as Ep.
  rewrite (Rabs_pos_eq (10737418 / 536870912 * fx)) in Ep by lra.
  specialize (Ep ltac:(lra)).
  assert (Hp0 : (0 <= p)%R) by (apply (nearest_ge _ _ _ Np in_format_0); lra).
  (* the quotient *)
  assert (Hq : (p / fR * fR = p)%R) by (field; lra).
  revert Nq Hq. generalize (p / fR)%R. intros q Nq Hq.
  assert (Ht : (X / M * M = X)%R) by (field; lra).
  assert (Ht1 : (0 <= X / M <= 1)%R).
  { split.
    - apply Rmult_le_pos; [lra|]. apply Rlt_le, Rinv_0_lt_compat. lra.
    - apply Rmult_le_reg_r with M; [lra|]. rewrite Ht. lra. }
  replace (2 / 100 * X / M)%R with (2 / 100 * (X / M))%R by (unfold Rdiv; ring).
  revert Ht Ht1. generalize (X / M)%R. intros t Ht Ht1.
  assert (Ha : (X * (1 - 2 / 16777216) <= t * fR)%R).
  { apply Rle_trans with (t * (M * (1 - 2 / 16777216)))%R; [lra|].
    apply Rmult_le_compat_l; lra. }
  assert (Ha' : (t * fR <= X * (1 + 2 / 16777216))%R).
  { apply Rle_trans with (t * (M * (1 + 2 / 16777216)))%R; [|lra].
    apply Rmult_le_compat_l; lra. }
  assert (Hq_hi : (q <= 10737418 / 536870912 * t * (1 + 5 / 16777216)
                        + 2 * / 1000000000000000000000000000000)%R).
  { apply Rmult_le_reg_r with fR; [lra|]. rewrite Hq. lra. }
  assert (Hq_lo : (10737418 / 536870912 * t * (1 - 5 / 16777216)
                   - 2 * / 1000000000000000000000000000000 <= q)%R).
  { apply Rmult_le_reg_r with fR; [lra|]. rewrite Hq. lra. }
  pose proof (nearest_accuracy _ _ Nq) as Ed.
  assert (Hq0 : (0 <= q)%R).
  { apply Rmult_le_reg_r with fR; [lra|]. rewrite Hq. lra. }
  rewrite (Rabs_pos_eq q) in Ed by exact Hq0. specialize (Ed ltac:(lra)).
  (* the difference *)
  assert (Hdc : (Rabs (d - 10737418 / 1073741824) <= 3 / 100)%R) by (apply Rabs_le; lra).
  pose proof (nearest_accuracy _ _ Nr ltac:(lra)) as Er.
  apply Rabs_le. lra.
Qed.

End Accuracy.

(** ** Initialization *)

Lemma platform_ok_31 : platform_ok RAND_MAX_31 = true.
Proof. vm_compute. reflexivity. Qed.

Lemma platform_ok_15 : platform_ok 32767 = true.
Proof. vm_compute. reflexivity. Qed.

(** The condition is not void: with [RAND_MAX = 13107209] the quotient of the
    largest draw rounds to the successor of [0.02f]. *)
Lemma platform_ok_13107209 : platform_ok 13107209 = false.
Proof. vm_compute. reflexivity. Qed.

Section Initialize.

Variable RAND_MAX : Z.
Variable rand : nat -> Z.
Variable junk : nat -> float.
Variables width height : Z.
Hypothesis Hw : 0 < width.
Hypothesis Hh : 0 < height.
Hypothesis Hwh : width * height <= INT_MAX.

Lemma initializeConcentrations_spec (calls : nat) :
  exists fin calls',
    initializeConcentrations RAND_MAX rand junk width height calls = Some (fin, calls') /\
    forall i j, 0 <= i < height -> 0 <= j < width ->
      exists c : nat,
        fin.1 !! Z.to_nat (i * width + j)
        = Some (perturbed RAND_MAX (seedU width height i j) (rand c)) /\
        fin.2 !! Z.to_nat (i * width + j)
        = Some (perturbed RAND_MAX (seedV width height i j)
                  (rand (c + below (Some (seedU width height i j)))%nat)).
Proof.
  destruct (seeded_fields_spec junk width height Hw Hh Hwh) as (orig & Hseed & L1 & L2 & Hcell).
  assert (Hn : umul width height = width * height).
  { unfold umul. apply wrap32_small. unfold UINT_MOD, INT_MAX in *. nia. }
  destruct (perturb_loop_spec RAND_MAX rand orig calls (Z.to_nat (width * height)) L1 L2
              (Z.to_nat (width * height)) 0%nat orig calls L1 L2 ltac:(lia)
              ltac:(auto) ltac:(cbn [draw_index]; lia))
    as (fin & calls' & Hrun & _ & _ & _ & Hat & _).
  exists fin, calls'. split.
  - unfold initializeConcentrations. rewrite Hseed, Hn. cbn [mbind option_bind]. exact Hrun.
  - intros i j Hi Hj. destruct (Hcell i j Hi Hj) as [HU HV].
    exists (calls + draw_index orig (Z.to_nat (i * width + j)))%nat.
    apply Hat; [|exact HU|exact HV].
    split; [lia|]. cbn [Nat.add]. apply Z2Nat.inj_lt; nia.
Qed.

(** The same cell by cell of the arrays, with the number of the call of
    [rand] each value is perturbed with. *)
Lemma initializeConcentrations_cells (calls : nat) :
  exists orig fin calls',
    seeded_fields junk width height = Some orig /\
    length orig.1 = Z.to_nat (width * height) /\
    length orig.2 = Z.to_nat (width * height) /\
    (forall i j, 0 <= i < height -> 0 <= j < width ->
       orig.1 !! Z.to_nat (i * width + j) = Some (seedU width height i j) /\
       orig.2 !! Z.to_nat (i * width + j) = Some (seedV width height i j)) /\
    initializeConcentrations RAND_MAX rand junk width height calls = Some (fin, calls') /\
    calls' = (calls + draw_index orig (Z.to_nat (width * height)))%nat /\
    forall k u v, (k < Z.to_nat (width * height))%nat ->
      orig.1 !! k = Some u -> orig.2 !! k = Some v ->
      fin.1 !! k = Some (perturbed RAND_MAX u (rand (calls + draw_index orig k))) /\
      fin.2 !! k = Some (perturbed RAND_MAX v
                           (rand (calls + draw_index orig k + below (Some u)))).
Proof.
  destruct (seeded_fields_spec junk width height Hw Hh Hwh) as (orig & Hseed & L1 & L2 & Hcell).
  assert (Hn : umul width height = width * height).
  { unfold umul. apply wrap32_small. unfold UINT_MOD, INT_MAX in *. nia. }
  destruct (perturb_loop_spec RAND_MAX rand orig calls (Z.to_nat (width * height)) L1 L2
              (Z.to_nat (width * height)) 0%nat orig calls L1 L2 ltac:(lia)
              ltac:(auto) ltac:(cbn [draw_index]; lia))
    as (fin & calls' & Hrun & _ & _ & _ & Hat & Hc).
  exists orig, fin, calls'. split; [exact Hseed|]. split; [exact L1|]. split; [exact L2|].
  split; [exact Hcell|]. split; [|split; [exact Hc|]].
  - unfold initializeConcentrations. rewrite Hseed, Hn. cbn [mbind option_bind]. exact Hrun.
  - intros k u v Hk Hu Hv. apply Hat; [lia|exact Hu|exact Hv].
Qed.

End Initialize.

(** C10. After [initializeConcentrations] has returned, random perturbation
    included, every cell outside the seeded patch holds U = 1.0f and V = 0.0f
    exactly, whatever numbers [rand] returned within [0, RAND_MAX]: the cell
    of U fails the test [< 1.0f] and is not written; the cell of V becomes
    [0 + r*0 = 0] because [r] is a finite number. *)
Theorem perturbation_keeps_background RAND_MAX rand junk width height calls :
  0 < width -> 0 < height -> width * height <= INT_MAX ->
  1 <= RAND_MAX <= INT_MAX -> (forall n, 0 <= rand n <= RAND_MAX) ->
  exists _U _V calls',
    initializeConcentrations RAND_MAX rand junk width height calls
    = Some ((_U, _V), calls') /\
    forall i j, 0 <= i < height -> 0 <= j < width ->
      in_patch width height i j = false ->
      _U !! Z.to_nat (i * width + j) = Some F32.one /\
      _V !! Z.to_nat (i * width + j) = Some F32.zero.
Proof.
  intros Hw Hh Hwh HRM Hrand.
  destruct (initializeConcentrations_spec RAND_MAX rand junk width height Hw Hh Hwh calls)
    as ([_U _V] & calls' & Hrun & Hcell).
  exists _U, _V, calls'. split; [exact Hrun|].
  intros i j Hi Hj Hout. destruct (Hcell i j Hi Hj) as (c & HU & HV).
  cbn [fst snd] in HU, HV. unfold seedU, seedV in HU, HV. rewrite Hout in HU, HV.
  rewrite perturbed_one in HU.
  rewrite perturbed_zero in HV by (apply rRand_finite; auto).
  split; assumption.
Qed.

Lemma perturbation_keeps_background_witness :
  exists _U _V calls',
    initializeConcentrations RAND_MAX_31 rand_zero junk_zero 16 16 0
    = Some ((_U, _V), calls') /\
    forall i j, 0 <= i < 16 -> 0 <= j < 16 ->
      in_patch 16 16 i j = false ->
      _U !! Z.to_nat (i * 16 + j) = Some F32.one /\
      _V !! Z.to_nat (i * 16 + j) = Some F32.zero.
Proof.
  apply (perturbation_keeps_background RAND_MAX_31 rand_zero junk_zero 16 16 0%nat);
    unfold RAND_MAX_31, rand_zero, INT_MAX; intros; lia.
Defined.

(** C6. The perturbation loop goes through the cells in order and replaces
    the value [a] of U, then the value [b] of V, by [a + rRand * a] when it is
    below [1.0f], leaving it alone otherwise.  Every such value takes the next
    call of [rand]: [draw k] is the number of calls made when the loop reaches
    cell [k], the value of U uses call [draw k], the value of V the call after
    it if U used one, and no call is used twice.  The factor [rRand] made of
    the number [x] that [rand] returned is a finite number within [10^-8] of
    [0.02 * x / RAND_MAX - 0.01], and it lies in [-0.01, 0.01].  A cell of
    the seeded patch holds 0.5f and 0.25f before the loop and ends with
    [|U - 0.5| <= 0.005] and [|V - 0.25| <= 0.0025], for every sequence of
    numbers [rand] returns within [0, RAND_MAX]. *)
Theorem perturbation_bounds RAND_MAX rand junk width height calls :
  0 < width -> 0 < height -> width * height <= INT_MAX ->
  1 <= RAND_MAX <= INT_MAX -> platform_ok RAND_MAX = true ->
  (forall n, 0 <= rand n <= RAND_MAX) ->
  (forall n,
     is_finite (rRand RAND_MAX (rand n)) = true /\
     (Rabs (B2R (rRand RAND_MAX (rand n))
            - (2 / 100 * IZR (rand n) / IZR RAND_MAX - 1 / 100)) <= 1 / 100000000)%R /\
     (Rabs (B2R (rRand RAND_MAX (rand n))) <= 1 / 100)%R) /\
  exists (u0 v0 _U _V : list float) (calls' : nat) (draw : nat -> nat),
    seeded_fields junk width height = Some (u0, v0) /\
    initializeConcentrations RAND_MAX rand junk width height calls
    = Some ((_U, _V), calls') /\
    draw 0%nat = calls /\ draw (Z.to_nat (width * height)) = calls' /\
    (forall k, (k < Z.to_nat (width * height))%nat ->
       exists a b : float,
         u0 !! k = Some a /\ v0 !! k = Some b /\
         _U !! k
         = Some (if F32.ltb a F32.one
                 then F32.add a (F32.mul (rRand RAND_MAX (rand (draw k))) a)
                 else a) /\
         _V !! k
         = Some (if F32.ltb b F32.one
                 then F32.add b
                        (F32.mul (rRand RAND_MAX
                                    (rand (draw k + Nat.b2n (F32.ltb a F32.one))%nat)) b)
                 else b) /\
         draw (S k)
         = (draw k + Nat.b2n (F32.ltb a F32.one) + Nat.b2n (F32.ltb b F32.one))%nat) /\
    (forall i j, 0 <= i < height -> 0 <= j < width ->
       in_patch width height i j = true ->
       u0 !! Z.to_nat (i * width + j) = Some F32.c0_5 /\
       v0 !! Z.to_nat (i * width + j) = Some F32.c0_25 /\
       exists u v : float,
         _U !! Z.to_nat (i * width + j) = Some u /\
         _V !! Z.to_nat (i * width + j) = Some v /\
         is_finite u = true /\ is_finite v = true /\
         (Rabs (B2R u - 5 / 10) <= 5 / 1000)%R /\
         (Rabs (B2R v - 25 / 100) <= 25 / 10000)%R).
Proof.
  intros Hw Hh Hwh HRM Hok Hrand.
  assert (Hr : forall n, valid (rRand RAND_MAX (rand n)) /\
                         is_finite (rRand RAND_MAX (rand n)) = true /\
                         (- B2R F32.c0_01 <= B2R (rRand RAND_MAX (rand n))
                          <= B2R F32.c0_01)%R).
  { intros n. split; [apply (rRand_stages RAND_MAX HRM (rand n) (Hrand n))|].
    split; [apply rRand_finite; auto|].
    split; [apply rRand_lower; auto|apply rRand_upper; auto]. }
  assert (Hb2n : forall a, below (Some a) = Nat.b2n (F32.ltb a F32.one)).
  { intros a. unfold below. destruct (F32.ltb a F32.one); reflexivity. }
  split.
  - intros n. destruct (Hr n) as (_ & Hf & Hb). split; [exact Hf|].
    split; [apply rRand_accuracy; auto|].
    rewrite B2R_c0_01 in Hb. apply Rabs_le. lra.
  - destruct (initializeConcentrations_cells RAND_MAX rand junk width height Hw Hh Hwh calls)
      as ([u0 v0] & [_U _V] & calls' & Hseed & L1 & L2 & Hcell & Hrun & Hc & Hat).
    cbn [fst snd] in L1, L2, Hcell, Hat.
    exists u0, v0, _U, _V, calls', (fun k => (calls + draw_index (u0, v0) k)%nat).
    split; [exact Hseed|]. split; [exact Hrun|].
    split; [cbn [draw_index]; lia|]. split; [symmetry; exact Hc|]. split.
    + intros k Hk.
      destruct (lookup_lt_is_Some_2 u0 k ltac:(lia)) as [a Ha].
      destruct (lookup_lt_is_Some_2 v0 k ltac:(lia)) as [b Hb].
      exists a, b. split; [exact Ha|]. split; [exact Hb|].
      destruct (Hat k a b Hk Ha Hb) as [HU HV]. unfold perturbed in HU, HV.
      rewrite Hb2n in HV. split; [exact HU|]. split; [exact HV|].
      cbn [draw_index fst snd]. rewrite Ha, Hb, !Hb2n. lia.
    + intros i j Hi Hj Hin. destruct (Hcell i j Hi Hj) as [SU SV].
      unfold seedU, seedV in SU, SV. rewrite Hin in SU, SV.
      split; [exact SU|]. split; [exact SV|].
      assert (Hk : (Z.to_nat (i * width + j) < Z.to_nat (width * height))%nat).
      { apply Z2Nat.inj_lt; nia. }
      destruct (Hat _ _ _ Hk SU SV) as [HU HV].
      eexists _, _. split; [exact HU|]. split; [exact HV|].
      destruct (Hr (calls + draw_index (u0, v0) (Z.to_nat (i * width + j)))%nat)
        as (V1 & F1 & B1).
      destruct (Hr (calls + draw_index (u0, v0) (Z.to_nat (i * width + j))
                    + below (Some F32.c0_5))%nat) as (V2 & F2 & B2).
      destruct (perturbed_c0_5 RAND_MAX _ V1 F1 B1) as [Fu Bu].
      destruct (perturbed_c0_25 RAND_MAX _ V2 F2 B2) as [Fv Bv].
      auto.
Qed.

Lemma perturbation_bounds_witness :
  (forall n,
     is_finite (rRand 32767 (Z.of_nat n mod 32768)) = true /\
     (Rabs (B2R (rRand 32767 (Z.of_nat n mod 32768))
            - (2 / 100 * IZR (Z.of_nat n mod 32768) / IZR 32767 - 1 / 100))
      <= 1 / 100000000)%R /\
     (Rabs (B2R (rRand 32767 (Z.of_nat n mod 32768))) <= 1 / 100)%R) /\
  exists (u0 v0 _U _V : list float) (calls' : nat) (draw : nat -> nat),
    seeded_fields junk_zero 16 16 = Some (u0, v0) /\
    initializeConcentrations 32767 (fun n => Z.of_nat n mod 32768) junk_zero 16 16 0
    = Some ((_U, _V), calls') /\
    draw 0%nat = 0%nat /\ draw (Z.to_nat (16 * 16)) = calls' /\
    (forall k, (k < Z.to_nat (16 * 16))%nat ->
       exists a b : float,
         u0 !! k = Some a /\ v0 !! k = Some b /\
         _U !! k
         = Some (if F32.ltb a F32.one
                 then F32.add a (F32.mul (rRand 32767 (Z.of_nat (draw k) mod 32768)) a)
                 else a) /\
         _V !! k
         = Some (if F32.ltb b F32.one
                 then F32.add b
                        (F32.mul (rRand 32767
                                    (Z.of_nat (draw k + Nat.b2n (F32.ltb a F32.one)) mod 32768)) b)
                 else b) /\
         draw (S k)
         = (draw k + Nat.b2n (F32.ltb a F32.one) + Nat.b2n (F32.ltb b F32.one))%nat) /\
    (forall i j, 0 <= i < 16 -> 0 <= j < 16 ->
       in_patch 16 16 i j = true ->
       u0 !! Z.to_nat (i * 16 + j) = Some F32.c0_5 /\
       v0 !! Z.to_nat (i * 16 + j) = Some F32.c0_25 /\
       exists u v : float,
         _U !! Z.to_nat (i * 16 + j) = Some u /\
         _V !! Z.to_nat (i * 16 + j) = Some v /\
         is_finite u = true /\ is_finite v = true /\
         (Rabs (B2R u - 5 / 10) <= 5 / 1000)%R /\
         (Rabs (B2R v - 25 / 100) <= 25 / 10000)%R).
Proof.
  apply (perturbation_bounds 32767 (fun n => Z.of_nat n mod 32768) junk_zero 16 16 0%nat);
    try (vm_compute; reflexivity);
    unfold INT_MAX; intros; cbv beta; try lia.
  pose proof (Z.mod_pos_bound (Z.of_nat n) 32768 ltac:(lia)). lia.
Defined.

(** C5, as the code has it: before the perturbation every cell of the patch
    holds U = 0.5f, V = 0.25f and every other cell U = 1.0f, V = 0.0f, where
    the patch is the set of cells the two loops visit: the rows [i] with
    [(int)(0.48f*height) <= i] and [(float)i < 0.52f*height], and the columns
    [j] with the same bounds taken of [width]. *)
Theorem seeded_patch junk width height :
  0 < width -> 0 < height -> width * height <= INT_MAX ->
  exists _U _V,
    seeded_fields junk width height = Some (_U, _V) /\
    forall i j, 0 <= i < height -> 0 <= j < width ->
      (in_patch width height i j = true ->
       _U !! Z.to_nat (i * width + j) = Some F32.c0_5 /\
       _V !! Z.to_nat (i * width + j) = Some F32.c0_25) /\
      (in_patch width height i j = false ->
       _U !! Z.to_nat (i * width + j) = Some F32.one /\
       _V !! Z.to_nat (i * width + j) = Some F32.zero).
Proof.
  intros Hw Hh Hwh.
  destruct (seeded_fields_spec junk width height Hw Hh Hwh)
    as ([_U _V] & Hseed & _ & _ & Hcell).
  exists _U, _V. split; [exact Hseed|].
  intros i j Hi Hj. destruct (Hcell i j Hi Hj) as [HU HV]. cbn [fst snd] in HU, HV.
  split; intros Hin; rewrite Hin in HU, HV; split; assumption.
Qed.

Lemma seeded_patch_witness :
  exists _U _V,
    seeded_fields junk_zero 16 16 = Some (_U, _V) /\
    forall i j, 0 <= i < 16 -> 0 <= j < 16 ->
      (in_patch 16 16 i j = true ->
       _U !! Z.to_nat (i * 16 + j) = Some F32.c0_5 /\
       _V !! Z.to_nat (i * 16 + j) = Some F32.c0_25) /\
      (in_patch 16 16 i j = false ->
       _U !! Z.to_nat (i * 16 + j) = Some F32.one /\
       _V !! Z.to_nat (i * 16 + j) = Some F32.zero).
Proof.
  apply (seeded_patch junk_zero 16 16); unfold INT_MAX; lia.
Defined.

(** C5, the counterexample: on the 16 x 16 grid the loops start at row and
    column [(int)(0.48f*16) = 7], so the cell (7, 7) is seeded with 0.5f and
    0.25f although 7/16 is below 0.48. *)
Lemma seeded_patch_starts_at_7 :
  exists _U _V,
    seeded_fields junk_zero 16 16 = Some (_U, _V) /\
    first_index 16 = Some 7 /\
    _U !! Z.to_nat (7 * 16 + 7) = Some F32.c0_5 /\
    _V !! Z.to_nat (7 * 16 + 7) = Some F32.c0_25 /\
    ~ fractional_patch 16 16 7 7.
Proof.
  eexists. eexists. split; [vm_compute; reflexivity|].
  split; [vm_compute; reflexivity|].
  split; [vm_compute; reflexivity|].
  split; [vm_compute; reflexivity|].
  unfold fractional_patch. lia.
Qed.

(** ** Round to nearest even on integers *)

Lemma rounds_to_rne M e x m1 e1 :
  0 <= M -> rounds_to M e x m1 e1 -> rne x (F2R m1 e1).
Proof.
  intros HM ((He1 & Hee) & Hm1 & Habs & Hx & _ & Htie & _ & _ & Hemin & Hgrid).
  exists (M / 2 ^ (e1 - e)), e1, m1.
  assert (Hp : 0 < 2 ^ (e1 - e)) by (apply Z.pow_pos_nonneg; lia).
  assert (Hq0 : 0 <= M / 2 ^ (e1 - e)) by (apply Z.div_pos; lia).
  assert (Hq : M / 2 ^ (e1 - e) < 16777216).
  { destruct (Z.eq_dec M 0) as [->|HM0]; [rewrite Zdiv_0_l; lia|].
    pose proof (Zdigits2_spec M ltac:(lia)) as [_ Hd].
    apply Z.div_lt_upper_bound; [exact Hp|].
    assert (Hle : Zdigits2 M <= (e1 - e) + 24) by (unfold fexp32 in He1; lia).
    assert (2 ^ Zdigits2 M <= 2 ^ ((e1 - e) + 24)).
    { apply Z.pow_le_mono_r; lia. }
    rewrite Z.pow_add_r in H by lia. change (2 ^ 24) with 16777216 in H. lia. }
  destruct Hx as [Hx1 Hx2]. repeat split; auto; lia.
Qed.

Lemma rounded_rne s x f :
  rounded s x f -> is_finite f = true -> exists y, rne x y /\ B2R f = signed s y.
Proof.
  intros (M & e & m1 & e1 & HM & H & ->) Hf. exists (F2R m1 e1). split.
  - eapply rounds_to_rne; eauto.
  - apply pack32_B2R; [eapply rounds_to_m1_ge_0; eauto|exact Hf].
Qed.

Lemma F2R_scale m e k : 0 <= k -> F2R m (e + k) = F2R (m * 2 ^ k) e.
Proof.
  intros Hk. rewrite <- (F2R_shift m (e + k) k Hk). f_equal. ring.
Qed.

Lemma binade_le x q1 e1 q2 e2 :
  0 <= q1 < 16777216 -> -149 <= e1 ->
  (e2 = -149 \/ 8388608 <= q2) ->
  (x < F2R (q1 + 1) e1)%R -> (F2R q2 e2 <= x)%R -> e2 <= e1.
Proof.
  intros Hq1 He1 Hg2 Hx1 Hx2.
  destruct (Z_lt_le_dec e1 e2) as [Hlt|]; [exfalso|assumption].
  destruct Hg2 as [->|Hq2]; [lia|].
  assert (H1 : (F2R (q1 + 1) e1 <= F2R 16777216 e1)%R) by (apply F2R_le; lia).
  assert (H2 : (F2R 8388608 e2 <= F2R q2 e2)%R) by (apply F2R_le; lia).
  assert (H3 : (bpow (e1 + 1) <= bpow e2)%R) by (apply bpow_le; lia).
  rewrite bpow_succ in H3. unfold F2R in *. pose proof (bpow_gt_0 e1). lra.
Qed.

Lemma binade_unique x q1 e1 q2 e2 :
  0 <= q1 < 16777216 -> -149 <= e1 -> (e1 = -149 \/ 8388608 <= q1) ->
  0 <= q2 < 16777216 -> -149 <= e2 -> (e2 = -149 \/ 8388608 <= q2) ->
  (F2R q1 e1 <= x < F2R (q1 + 1) e1)%R ->
  (F2R q2 e2 <= x < F2R (q2 + 1) e2)%R ->
  e1 = e2 /\ q1 = q2.
Proof.
  intros Hq1 He1 Hg1 Hq2 He2 Hg2 [Hx1 Hx1'] [Hx2 Hx2'].
  pose proof (binade_le x q1 e1 q2 e2 Hq1 He1 Hg2 Hx1' Hx2).
  pose proof (binade_le x q2 e2 q1 e1 Hq2 He2 Hg1 Hx2' Hx1).
  assert (e1 = e2) by lia. subst e2. split; [reflexivity|].
  assert (q1 < q2 + 1) by (apply (F2R_lt_inv _ _ e1); lra).
  assert (q2 < q1 + 1) by (apply (F2R_lt_inv _ _ e1); lra).
  lia.
Qed.

(** Rounding [N * 2^e] when the grid of the format at that point is
    [2^(e+k)]: the result is one of the two multiples of [2^k] around [N],
    the nearer one, and the one of even quotient when [N] is half way. *)
Lemma rne_int N e k y :
  0 <= N -> 0 <= k -> -149 <= e + k -> N / 2 ^ k < 16777216 ->
  (e + k = -149 \/ 8388608 <= N / 2 ^ k) ->
  rne (F2R N e) y ->
  exists m1, y = F2R (m1 * 2 ^ k) e /\
    N / 2 ^ k <= m1 <= N / 2 ^ k + 1 /\
    2 * Z.abs (m1 * 2 ^ k - N) <= 2 ^ k /\
    (2 * (N mod 2 ^ k) = 2 ^ k -> Z.even m1 = true).
Proof.
  intros HN Hk He Hq Hg (q & e1 & m1 & He1 & Hq1 & Hg1 & Hx & Hm1 & Habs & Htie & ->).
  set (P := 2 ^ k) in *.
  assert (HP : 0 < P) by (apply Z.pow_pos_nonneg; lia).
  pose proof (Z.div_mod N P ltac:(lia)) as Hdm.
  pose proof (Z.mod_pos_bound N P HP) as Hr.
  assert (Hq0 : 0 <= N / P) by (apply Z.div_pos; lia).
  set (q' := N / P) in *. set (r := N mod P) in *. clearbody q' r.
  assert (Hx' : (F2R q' (e + k) <= F2R N e < F2R (q' + 1) (e + k))%R).
  { rewrite !F2R_scale by lia. fold P. split.
    - apply F2R_le. nia.
    - unfold F2R. apply Rmult_lt_compat_r; [apply bpow_gt_0|]. apply IZR_lt. nia. }
  destruct (binade_unique (F2R N e) q e1 q' (e + k)) as [-> ->]; try assumption; try lia.
  exists m1. rewrite F2R_scale by lia. fold P. split; [reflexivity|]. split; [exact Hm1|].
  assert (Hb : bpow (e + k) = (IZR P * bpow e)%R).
  { rewrite Z.add_comm, bpow_plus. unfold P. rewrite (bpow_IZR k) by lia. reflexivity. }
  pose proof (bpow_gt_0 e) as Hbe.
  split.
  - rewrite F2R_scale in Habs by lia. fold P in Habs. rewrite Hb in Habs.
    unfold F2R in Habs. rewrite <- Rmult_minus_distr_r, <- minus_IZR in Habs.
    rewrite Rabs_mult, (Rabs_pos_eq (bpow e)) in Habs by lra.
    rewrite <- abs_IZR in Habs.
    assert (H2 : (2 * IZR (Z.abs (m1 * P - N)) <= IZR P)%R).
    { apply Rmult_le_reg_r with (bpow e); [exact Hbe|]. lra. }
    rewrite <- mult_IZR in H2. apply le_IZR in H2. exact H2.
  - intros Hhalf. apply Htie. rewrite Hb. unfold F2R. rewrite Hdm.
    rewrite plus_IZR, mult_IZR.
    assert (Hr2 : (2 * IZR r = IZR P)%R) by (rewrite <- mult_IZR; f_equal; exact Hhalf).
    nra.
Qed.

Lemma canonical32_grid m e :
  canonical32 m e -> 0 < m < 16777216 /\ -149 <= e /\ (e = -149 \/ 8388608 <= m).
Proof.
  intros [Hm Hc]. split; [exact Hm|].
  pose proof (Zdigits2_spec m ltac:(lia)) as Hd. unfold fexp32 in Hc.
  split; [lia|]. destruct (Z.eq_dec e (-149)) as [|Hne]; [left; assumption|right].
  assert (Zdigits2 m = 24) as E by lia. rewrite E in Hd.
  change (2 ^ (24 - 1)) with 8388608 in Hd. lia.
Qed.

(** Rounding [N * 2^e] for [N < 2^26], in units of [2^e]. *)
Lemma rne_step N e y :
  0 < N < 67108864 -> -149 <= e -> (e = -149 \/ 8388608 <= N) ->
  rne (F2R N e) y ->
  exists N2, y = F2R N2 e /\
    ((N < 16777216 /\ N2 = N) \/
     (16777216 <= N < 33554432 /\
      exists m1, N2 = 2 * m1 /\ -1 <= N2 - N <= 1 /\ (N2 <> N -> exists t, m1 = 2 * t)) \/
     (33554432 <= N /\
      exists m1, N2 = 4 * m1 /\ -2 <= N2 - N <= 2 /\
                 (N2 - N = 2 \/ N2 - N = -2 -> exists t, m1 = 2 * t))).
Proof.
  intros HN He Hg Hr.
  destruct (Z_lt_le_dec N 16777216) as [H0|H0];
    [|destruct (Z_lt_le_dec N 33554432) as [H1|H1]].
  - destruct (rne_int N e 0 y) as (m1 & -> & Hm1 & Hd & _); try assumption; try lia;
      change (2 ^ 0) with 1 in *; rewrite ?Z.div_1_r, ?Z.add_0_r in *; try lia.
    exists (m1 * 1). split; [reflexivity|]. left. lia.
  - destruct (rne_int N e 1 y) as (m1 & -> & Hm1 & Hd & Htie); try assumption; try lia;
      change (2 ^ 1) with 2 in *.
    + Z.div_mod_to_equations. lia.
    + right. Z.div_mod_to_equations. lia.
    + exists (m1 * 2). split; [reflexivity|]. right; left. split; [lia|].
      exists m1. split; [lia|]. split; [lia|]. intros Hne.
      apply Z.even_spec. apply Htie. Z.div_mod_to_equations. lia.
  - destruct (rne_int N e 2 y) as (m1 & -> & Hm1 & Hd & Htie); try assumption; try lia;
      change (2 ^ 2) with 4 in *.
    + Z.div_mod_to_equations. lia.
    + right. Z.div_mod_to_equations. lia.
    + exists (m1 * 4). split; [reflexivity|]. right; right. split; [lia|].
      exists m1. split; [lia|]. split; [lia|]. intros Hne.
      apply Z.even_spec. apply Htie. Z.div_mod_to_equations. lia.
Qed.

Lemma F2R_plus a b e : (F2R a e + F2R b e)%R = F2R (a + b) e.
Proof. unfold F2R. rewrite plus_IZR. ring. Qed.

Ltac split_even H :=
  let E := fresh "E" in
  let Hn := fresh "Hn" in
  match type of H with
  | (?a <> ?b -> _) =>
      destruct (Z.eq_dec a b) as [E|Hn]; [|destruct (H Hn) as [? ?]]
  | (?a = ?b \/ ?c = ?d -> _) =>
      destruct (Z.eq_dec a b) as [E|Hn];
      [destruct (H (or_introl E)) as [? ?]
      |destruct (Z.eq_dec c d) as [E|?]; [destruct (H (or_intror E)) as [? ?]|]]
  end.

(** [((c + c) + c) + c], each sum rounded, is [4c] for [c = m * 2^e]. *)
Lemma triple_sum m e y2 y3 :
  canonical32 m e ->
  rne (F2R (3 * m) e) y2 -> rne (y2 + F2R m e) y3 -> y3 = F2R (4 * m) e.
Proof.
  intros Hc H2 H3. apply canonical32_grid in Hc. destruct Hc as (Hm & He & Hg).
  destruct (rne_step (3 * m) e y2 ltac:(lia) He ltac:(lia) H2) as (N2 & -> & HN2).
  rewrite F2R_plus in H3.
  assert (HN' : 0 < N2 + m < 67108864 /\ (e = -149 \/ 8388608 <= N2 + m)).
  { destruct HN2 as [?|[(? & m1 & ? & ? & ?)|(? & m1 & ? & ? & ?)]]; lia. }
  destruct HN' as [HN' Hg'].
  destruct (rne_step (N2 + m) e y3 HN' He Hg' H3) as (N3 & -> & HN3).
  f_equal.
  destruct HN2 as [(A1 & A2)|[(A1 & a & A2 & A3 & A4)|(A1 & a & A2 & A3 & A4)]];
    destruct HN3 as [(B1 & B2)|[(B1 & b & B2 & B3 & B4)|(B1 & b & B2 & B3 & B4)]];
    try lia; try split_even A4; try split_even B4; lia.
Qed.

(** ** The Laplacian of a uniform field *)

Lemma double_sum m e y :
  canonical32 m e -> rne (F2R (2 * m) e) y -> y = F2R (2 * m) e.
Proof.
  intros Hc H. apply canonical32_grid in Hc. destruct Hc as (Hm & He & Hg).
  destruct (rne_step (2 * m) e y ltac:(lia) He ltac:(lia) H) as (N2 & -> & HN2).
  f_equal. destruct HN2 as [?|[(? & m1 & ? & ? & ?)|(? & m1 & ? & ? & ?)]]; lia.
Qed.

Lemma triple_sum_bounds m e y2 :
  canonical32 m e -> rne (F2R (3 * m) e) y2 ->
  (0 < y2)%R /\ (y2 + F2R m e < F2R 67108864 e)%R.
Proof.
  intros Hc H. apply canonical32_grid in Hc. destruct Hc as (Hm & He & Hg).
  destruct (rne_step (3 * m) e y2 ltac:(lia) He ltac:(lia) H) as (N2 & -> & HN2).
  assert (HN : 0 < N2 /\ N2 + m < 67108864).
  { destruct HN2 as [?|[(? & m1 & ? & ? & ?)|(? & m1 & ? & ? & ?)]]; lia. }
  split; [apply F2R_gt_0; lia|]. rewrite F2R_plus.
  unfold F2R. apply Rmult_lt_compat_r; [apply bpow_gt_0|]. apply IZR_lt. lia.
Qed.

(** The sum of two finite numbers of the same sign [s]. *)
Lemma add_rne sx mx ex sy my ey s u v :
  B2R (S754_finite sx mx ex) = signed s u -> B2R (S754_finite sy my ey) = signed s v ->
  (0 < u)%R -> (0 < v)%R ->
  is_finite (SFadd 24 128 (S754_finite sx mx ex) (S754_finite sy my ey)) = true ->
  exists y, rne (u + v) y /\
    B2R (SFadd 24 128 (S754_finite sx mx ex) (S754_finite sy my ey)) = signed s y.
Proof.
  intros Hx Hy Hu Hv Hf. cbn [SFadd] in *.
  set (ez := Z.min ex ey) in *.
  set (z := cond_Zopp sx (Zpos (fst (shl_align mx ex ez)))
            + cond_Zopp sy (Zpos (fst (shl_align my ey ez)))) in *.
  assert (Hz : F2R z ez = signed s (u + v)).
  { unfold z. rewrite <- F2R_plus, !aligned_F2R by (unfold ez; lia).
    rewrite <- !B2R_finite, Hx, Hy. destruct s; simpl; ring. }
  assert (Hz0 : z <> 0).
  { intros E. rewrite E, F2R_0 in Hz. destruct s; simpl in Hz; lra. }
  pose proof (binary_normalize_rounded z ez Hz0) as Hr.
  rewrite F2R_signed in Hz.
  assert (Habs : (0 < F2R (Z.abs z) ez)%R) by (apply F2R_gt_0; lia).
  assert (Hs : (z <? 0) = s /\ F2R (Z.abs z) ez = (u + v)%R).
  { destruct (z <? 0), s; simpl in Hz; split; try reflexivity; lra. }
  destruct Hs as [Hs Hm]. rewrite Hs, Hm in Hr.
  apply rounded_rne; assumption.
Qed.

Lemma sub_diag s m e :
  SFsub 24 128 (S754_finite s m e) (S754_finite s m e) = S754_zero false.
Proof. cbn [SFsub]. rewrite Z.sub_diag. reflexivity. Qed.

Lemma finite_nonzero f :
  is_finite f = true -> B2R f <> 0%R -> exists s m e, f = S754_finite s m e.
Proof.
  destruct f as [s|s| |s m e]; try discriminate; intros _ H.
  - simpl in H. lra.
  - eauto.
Qed.

Lemma in_format_double y : in_format y -> in_format (2 * y).
Proof.
  intros [->|(m & e & Hc & Hy)]; [left; ring|].
  pose proof (canonical32_grid m e Hc) as (Hm & He & Hg). destruct Hc as [_ Hc].
  assert (H2 : in_format (2 * F2R m e)).
  { destruct (Z_lt_le_dec m 8388608) as [Hlt|Hge].
    - assert (e = -149) by lia. subst e.
      replace (2 * F2R m (-149))%R with (F2R (m * 2) (-149))
        by (unfold F2R; rewrite mult_IZR; ring).
      apply in_format_canonical; [lia|].
      change (m * 2) with (m * 2 ^ 1). rewrite Zdigits2_mul_pow by lia.
      pose proof (Zdigits2_spec m ltac:(lia)) as Hd.
      assert (Zdigits2 m <= 23).
      { destruct (Z_lt_le_dec 23 (Zdigits2 m)) as [Hc'|]; [|assumption].
        assert (2 ^ 23 <= 2 ^ (Zdigits2 m - 1)) by (apply Z.pow_le_mono_r; lia).
        change (2 ^ 23) with 8388608 in *. lia. }
      unfold fexp32. lia.
    - replace (2 * F2R m e)%R with (F2R m (e + 1))
        by (unfold F2R; rewrite bpow_succ; ring).
      apply in_format_canonical; [lia|].
      pose proof (Zdigits2_spec m ltac:(lia)) as Hd.
      assert (Zdigits2 m = 24) as E.
      { apply Zdigits2_unique; [change (2 ^ (24 - 1)) with 8388608;
                                 change (2 ^ 24) with 16777216; lia|lia]. }
      rewrite E in *. unfold fexp32 in *. lia. }
  destruct Hy as [->| ->]; [exact H2|].
  replace (2 * - F2R m e)%R with (- (2 * F2R m e))%R by ring.
  apply in_format_opp, H2.
Qed.

Lemma B2R_four : B2R F32.four = 4%R.
Proof.
  unfold F32.four. rewrite B2R_finite. cbn [signed].
  rewrite (F2R_neg_exp _ 21) by lia. change (2 ^ 21) with 2097152. lra.
Qed.

Lemma bpow_bound_26 e : e <= 101 -> (F2R 67108864 e <= bpow 127)%R.
Proof.
  intros He. unfold F2R. change 67108864 with (2 ^ 26). rewrite <- bpow_IZR by lia.
  rewrite <- bpow_plus. apply bpow_le. lia.
Qed.

(** [((c + c) + c) + c - 4*c] is [+0] for a finite [c] below [2^125]. *)
Lemma stencil_finite s m e :
  valid (S754_finite s m e) -> e <= 101 ->
  let c := S754_finite s m e in
  F32.sub (F32.add (F32.add (F32.add c c) c) c) (F32.mul F32.four c) = F32.zero.
Proof.
  intros Hv He c. unfold F32.sub, F32.add, F32.mul, F32.prec, F32.emax.
  pose proof (valid_canonical s m e Hv) as [Hc _].
  pose proof (canonical32_grid _ _ Hc) as (Hm & Hemin & Hg).
  set (a := F2R (Zpos m) e).
  assert (Ha : (0 < a)%R) by (apply F2R_gt_0; lia).
  assert (Bc : B2R c = signed s a) by apply B2R_finite.
  assert (Fc : is_finite c = true) by reflexivity.
  pose proof (bpow_bound_26 e He) as Hbig.
  assert (Hgrow : forall n, 0 <= n < 67108864 -> (F2R n e < bpow 127)%R).
  { intros n Hn. apply Rlt_le_trans with (F2R 67108864 e); [|exact Hbig].
    unfold F2R. apply Rmult_lt_compat_r; [apply bpow_gt_0|]. apply IZR_lt. lia. }
  (* c + c *)
  assert (F1 : is_finite (SFadd 24 128 c c) = true).
  { apply add_finite; try assumption. rewrite Bc.
    replace (signed s a + signed s a)%R with (signed s (a + a)) by (destruct s; simpl; ring).
    rewrite signed_abs by lra. unfold a. rewrite F2R_plus. apply Hgrow. lia. }
  destruct (add_rne s m e s m e s a a Bc Bc Ha Ha F1) as (y1 & R1 & B1).
  unfold a in R1 at 1 2. rewrite F2R_plus in R1.
  replace (Zpos m + Zpos m) with (2 * Zpos m) in R1 by ring.
  apply (double_sum _ _ _ Hc) in R1. subst y1.
  assert (P1 : (0 < F2R (2 * Zpos m) e)%R) by (apply F2R_gt_0; lia).
  destruct (finite_nonzero _ F1) as (s1 & m1 & e1 & E1).
  { fold c in B1. rewrite B1. destruct s; simpl; lra. }
  fold c in B1, F1. rewrite E1 in *.
  (* (c + c) + c *)
  assert (F2 : is_finite (SFadd 24 128 (S754_finite s1 m1 e1) c) = true).
  { apply add_finite; try assumption; try reflexivity.
    - rewrite <- E1. apply add_valid; assumption.
    - rewrite B1, Bc.
      replace (signed s (F2R (2 * Zpos m) e) + signed s a)%R
        with (signed s (F2R (2 * Zpos m) e + a)) by (destruct s; simpl; ring).
      rewrite signed_abs by lra. unfold a. rewrite F2R_plus. apply Hgrow. lia. }
  destruct (add_rne s1 m1 e1 s m e s _ a B1 Bc P1 Ha F2) as (y2 & R2 & B2).
  fold c in B2.
  unfold a in R2. rewrite F2R_plus in R2.
  replace (2 * Zpos m + Zpos m) with (3 * Zpos m) in R2 by ring.
  destruct (triple_sum_bounds _ _ _ Hc R2) as [P2 U2]. fold a in U2.
  destruct (finite_nonzero _ F2) as (s2 & m2 & e2 & E2).
  { rewrite B2. destruct s; simpl; lra. }
  rewrite E2 in *.
  (* ((c + c) + c) + c *)
  assert (V2 : valid (S754_finite s2 m2 e2)).
  { rewrite <- E2. apply add_valid; [|assumption]. rewrite <- E1. apply add_valid; assumption. }
  assert (F3 : is_finite (SFadd 24 128 (S754_finite s2 m2 e2) c) = true).
  { apply add_finite; try assumption; try reflexivity.
    rewrite B2, Bc.
    replace (signed s y2 + signed s a)%R with (signed s (y2 + a)) by (destruct s; simpl; ring).
    rewrite signed_abs by lra. lra. }
  destruct (add_rne s2 m2 e2 s m e s _ a B2 Bc P2 Ha F3) as (y3 & R3 & B3).
  fold c in B3.
  apply (triple_sum _ _ _ _ Hc R2) in R3. subst y3.
  (* 4 * c *)
  assert (F4 : is_finite (SFmul 24 128 F32.four c) = true).
  { apply mul_finite; try assumption; try reflexivity.
    rewrite B2R_four, Bc.
    replace (4 * signed s a)%R with (signed s (4 * a)) by (destruct s; simpl; ring).
    rewrite signed_abs by lra.
    replace (4 * a)%R with (F2R (4 * Zpos m) e) by (unfold a, F2R; rewrite mult_IZR; ring).
    apply Hgrow. lia. }
  assert (V4 : valid (SFmul 24 128 F32.four c)) by (apply mul_valid; [reflexivity|assumption]).
  pose proof (mul_nearest F32.four c ltac:(reflexivity) Hv ltac:(reflexivity) Fc F4) as N4.
  assert (B4 : B2R (SFmul 24 128 F32.four c) = signed s (F2R (4 * Zpos m) e)).
  { apply nearest_in_format in N4.
    - rewrite N4, B2R_four, Bc. unfold a, F2R. rewrite mult_IZR.
      destruct s; cbn [signed]; ring.
    - rewrite B2R_four. replace (4 * B2R c)%R with (2 * (2 * B2R c))%R by ring.
      apply in_format_double, in_format_double, valid_in_format, Hv. }
  (* the difference *)
  assert (P4 : (0 < F2R (4 * Zpos m) e)%R) by (apply F2R_gt_0; lia).
  assert (V3 : valid (SFadd 24 128 (S754_finite s2 m2 e2) c)) by (apply add_valid; assumption).
  destruct (B2R_inj _ _ V3 V4 F3 F4 ltac:(rewrite B3, B4; reflexivity))
    as [E|(? & ? & E & _)].
  - rewrite E. destruct (finite_nonzero _ F4) as (s4 & m4 & e4 & E4).
    { rewrite B4. destruct s; simpl; lra. }
    rewrite E4. apply sub_diag.
  - exfalso. rewrite E in B3. simpl in B3. destruct s; simpl in B3; lra.
Qed.

Lemma stencil_zero c :
  valid c -> no_overflow c = true ->
  F32.sub (F32.add (F32.add (F32.add c c) c) c) (F32.mul F32.four c) = F32.zero.
Proof.
  destruct c as [s|s| |s m e]; try discriminate; intros Hv Ho.
  - destruct s; reflexivity.
  - apply stencil_finite; [exact Hv|apply Z.leb_le; exact Ho].
Qed.

(** [no_overflow] holds of the finite numbers of magnitude below [2^125]. *)
Lemma no_overflow_spec c :
  valid c -> is_finite c = true -> (Rabs (B2R c) < bpow 125)%R -> no_overflow c = true.
Proof.
  destruct c as [s|s| |s m e]; try discriminate; intros Hv _ Hb; [reflexivity|].
  cbn [no_overflow]. apply Z.leb_le.
  destruct (Z_lt_le_dec 101 e) as [Hgt|]; [exfalso|assumption].
  pose proof (valid_canonical s m e Hv) as [Hc _].
  pose proof (canonical32_grid _ _ Hc) as (Hm & Hemin & Hg).
  rewrite B2R_finite, signed_abs in Hb by (apply F2R_ge_0; lia).
  assert (H1 : (F2R 8388608 e <= F2R (Zpos m) e)%R) by (apply F2R_le; lia).
  assert (H2 : (bpow 125 <= F2R 8388608 e)%R).
  { unfold F2R. change 8388608 with (2 ^ 23). rewrite <- bpow_IZR by lia.
    rewrite <- bpow_plus. apply bpow_le. lia. }
  lra.
Qed.

(** C8, as the code has it: on a field all of whose cells hold the same
    finite number [c] of magnitude below [2^125], [calculateLaplacian]
    returns [+0] at every cell, the four corners included, for a grid of
    positive dimensions whose indices fit 32 bits and a [dx] whose square
    is a positive finite number. *)
Theorem uniform_Laplacian_zero (dx c : float) (width height : Z) (coordinate : uint2)
    (md : positive) (ed : Z) :
  valid c -> no_overflow c = true ->
  F32.mul dx dx = S754_finite false md ed ->
  0 < width <= 2147483648 -> 0 < height <= 2147483648 ->
  width * height <= UINT_MOD -> in_grid width height coordinate ->
  calculateLaplacian dx (replicate (Z.to_nat (width * height)) c) coordinate c width height
  = Some F32.zero.
Proof.
  intros Hv Ho Hdx Hw Hh Hwh Hin.
  rewrite calculateLaplacian_uniform by assumption.
  unfold uniform_stencil. rewrite stencil_zero by assumption. rewrite Hdx. reflexivity.
Qed.

Lemma uniform_Laplacian_zero_witness :
  calculateLaplacian F32.c2_0 (replicate (Z.to_nat (16 * 16)) F32.c0_5)
    (make_uint2 0 0) F32.c0_5 16 16
  = Some F32.zero.
Proof.
  apply (uniform_Laplacian_zero F32.c2_0 F32.c0_5 16 16 (make_uint2 0 0) 8388608 (-21));
    try reflexivity; unfold UINT_MOD, in_grid; simpl; lia.
Defined.

(** C8, the counterexample: on the field all of whose cells hold [FLT_MAX]
    the four-neighbour sum and [4*FLT_MAX] both overflow to infinity, and
    the Laplacian at the corner (0, 0) is a NaN, not 0. *)
Lemma uniform_Laplacian_FLT_MAX :
  valid FLT_MAX /\ is_finite FLT_MAX = true /\
  calculateLaplacian F32.c2_0 (replicate (Z.to_nat (16 * 16)) FLT_MAX)
    (make_uint2 0 0) FLT_MAX 16 16
  = Some S754_nan.
Proof. split; [reflexivity|]. split; [reflexivity|]. vm_compute. reflexivity. Qed.

(** ** A launch with a barrier *)

Lemma rd_kernel_computeV_fields a co vU vV st st' :
  st'.2 = st.2 -> rd_kernel_computeV a co vU vV st' = rd_kernel_computeV a co vU vV st.
Proof. intros E. unfold rd_kernel_computeV. rewrite E. reflexivity. Qed.

Lemma rd_kernel_computeU_index a co st r :
  rd_kernel_computeU a co st = Some r ->
  (Z.to_nat (linear_index a co) < length st.1)%nat /\
  (Z.to_nat (linear_index a co) < length st.2)%nat.
Proof.
  unfold rd_kernel_computeU, load.
  destruct (st.1 !! Z.to_nat (linear_index a co)) as [vU|] eqn:E1; [|discriminate].
  destruct (st.2 !! Z.to_nat (linear_index a co)) as [vV|] eqn:E2; [|discriminate].
  intros _. split; eapply lookup_lt_Some; eauto.
Qed.

(** The loads of a lock-step group are the loads of the reference step. *)
Lemma reference_values_phases a g old : forall rs,
  reference_values a g old = Some rs ->
  exists rsU vs,
    computeU_all a g old = Some rsU /\
    (forall old', old'.2 = old.2 -> computeV_all a rsU old' = Some vs) /\
    same_threads rs rsU vs /\
    Forall (fun r => (Z.to_nat (linear_index a r.1) < length old.1)%nat /\
                     (Z.to_nat (linear_index a r.1) < length old.2)%nat) rs.
Proof.
  induction g as [|co g IH]; intros rs H; cbn [reference_values] in H.
  - inversion H; subst. exists [], []. repeat split; auto; constructor.
  - destruct (rd_kernel_computeU a co old) as [[[vU vV] newU]|] eqn:EU;
      cbn [mbind option_bind] in H; [|discriminate H].
    destruct (rd_kernel_computeV a co vU vV old) as [newV|] eqn:EV;
      cbn [mbind option_bind] in H; [|discriminate H].
    destruct (reference_values a g old) as [rs'|] eqn:ER;
      cbn [mbind option_bind] in H; [|discriminate H].
    inversion H; subst. destruct (IH rs' eq_refl) as (rsU & vs & HU & HV & Hs & Hi).
    exists ((co, (vU, vV, newU)) :: rsU), ((co, newV) :: vs).
    split; [|split; [|split]].
    + cbn [computeU_all]. rewrite EU. cbn [mbind option_bind]. rewrite HU. reflexivity.
    + intros old' E. cbn [computeV_all].
      rewrite (rd_kernel_computeV_fields a co vU vV old old' E), EV.
      cbn [mbind option_bind]. rewrite (HV old' E). reflexivity.
    + constructor. exact Hs.
    + constructor; [|exact Hi]. cbn [fst]. eapply rd_kernel_computeU_index; eauto.
Qed.

(** The stores of a lock-step group write what the reference step writes. *)
Lemma reference_store_phases a (n1 n2 : nat) rs rsU vs :
  same_threads rs rsU vs ->
  Forall (fun r => (Z.to_nat (linear_index a r.1) < n1)%nat /\
                   (Z.to_nat (linear_index a r.1) < n2)%nat) rs ->
  forall _U _V, length _U = n1 -> length _V = n2 ->
  exists U' V',
    reference_store a rs (_U, _V) = Some (U', V') /\
    (forall V0, storeU_all a rsU (_U, V0) = Some (U', V0)) /\
    (forall U0, storeV_all a vs (U0, _V) = Some (U0, V')).
Proof.
  induction 1 as [|co newU newV vU vV rs rsU vs Hs IH]; intros Hi _U _V L1 L2.
  - exists _U, _V. repeat split.
  - inversion Hi as [|r l [H1 H2] Hi']; subst. cbn [fst] in H1, H2.
    destruct (IH Hi' (<[Z.to_nat (linear_index a co) := newU]> _U)
                (<[Z.to_nat (linear_index a co) := newV]> _V))
      as (U' & V' & HR & HU & HV); rewrite ?length_insert; auto.
    exists U', V'. split; [|split].
    + cbn [reference_store]. unfold rd_kernel_storeU, rd_kernel_storeV. cbn [fst snd].
      rewrite store_Some by lia. cbn [mbind option_bind fst snd].
      rewrite store_Some by lia. cbn [mbind option_bind]. exact HR.
    + intros V0. cbn [storeU_all]. unfold rd_kernel_storeU. cbn [fst snd].
      rewrite store_Some by lia. cbn [mbind option_bind]. apply HU.
    + intros U0. cbn [storeV_all]. unfold rd_kernel_storeV. cbn [fst snd].
      rewrite store_Some by lia. cbn [mbind option_bind]. apply HV.
Qed.

(** A launch all of whose threads run in lock-step, as if a barrier
    separated the loads from the stores, is the double-buffered step. *)
Lemma lock_step_launch_is_reference a old new :
  reference_step a old = Some new ->
  rd_kernel_launch a [threads (k_width a) (k_height a)] old = Some new.
Proof.
  unfold reference_step. intros H.
  destruct (reference_values a (threads (k_width a) (k_height a)) old) as [rs|] eqn:ER;
    cbn [mbind option_bind] in H; [|discriminate H].
  destruct (reference_values_phases a _ old rs ER) as (rsU & vs & HU & HV & Hs & Hi).
  destruct old as [_U _V]. cbn [fst snd] in *.
  destruct (reference_store_phases a (length _U) (length _V) rs rsU vs Hs Hi _U _V
              eq_refl eq_refl) as (U' & V' & HR & HSU & HSV).
  rewrite HR in H. inversion H; subst.
  cbn [rd_kernel_launch]. unfold run_group. rewrite HU. cbn [mbind option_bind].
  rewrite (HSU _V). cbn [mbind option_bind].
  rewrite (HV (U', _V) eq_refl). cbn [mbind option_bind].
  rewrite (HSV U'). reflexivity.
Qed.

(** * Further properties of the launch, of [rd] and of the initialization *)

(** ** The threads of a launch *)

Lemma length_zrange n : length (zrange n) = Z.to_nat n.
Proof. unfold zrange. rewrite length_map, length_seq. reflexivity. Qed.

Lemma length_bind_const {A B : Type} (f : A -> list B) (l : list A) (c : nat) :
  (forall a, a ∈ l -> length (f a) = c) -> length (l ≫= f) = (length l * c)%nat.
Proof.
  induction l as [|a l IH]; intros Hc; [reflexivity|].
  rewrite bind_cons, length_app, Hc by (left). rewrite IH; [cbn [length]; lia|].
  intros b Hb. apply Hc. right. exact Hb.
Qed.

Lemma length_concat_const {A : Type} (ll : list (list A)) (c : nat) :
  Forall (fun g => length g = c) ll -> length (concat ll) = (length ll * c)%nat.
Proof.
  induction 1 as [|g ll Hg _ IH]; [reflexivity|].
  cbn [concat length]. rewrite length_app, Hg, IH. lia.
Qed.

Lemma length_warp bx by_ w : length (warp bx by_ w) = 32%nat.
Proof.
  unfold warp. rewrite (length_bind_const _ _ 16); [reflexivity|].
  intros ty _. rewrite (length_bind_const _ _ 1); [rewrite length_zrange; reflexivity|].
  reflexivity.
Qed.

Lemma length_threads width height :
  length (threads width height)
  = (Z.to_nat (udiv height BLOCK) * Z.to_nat (udiv width BLOCK) * 256)%nat.
Proof.
  unfold threads. rewrite (length_concat_const _ 32).
  - unfold warps_in_order. rewrite (length_bind_const _ _ 8).
    + unfold grid_blocks. rewrite (length_bind_const _ _ (Z.to_nat (udiv width BLOCK))).
      * rewrite length_zrange. lia.
      * intros by_ _. rewrite (length_bind_const _ _ 1); [rewrite length_zrange; lia|].
        reflexivity.
    + intros b _. unfold block_warps. rewrite length_map, length_zrange. reflexivity.
  - apply Forall_forall. intros g Hg. unfold warps_in_order in Hg.
    apply list_elem_of_bind in Hg. destruct Hg as (b & Hg & _).
    unfold block_warps in Hg. apply list_elem_of_In, in_map_iff in Hg.
    destruct Hg as (w & <- & _). apply length_warp.
Qed.

(** The thread of block [(x/16, y/16)] with thread index [(x mod 16, y mod 16)]
    is the one of the cell [(x, y)]. *)
Lemma in_grid_thread width height co :
  0 < width < UINT_MOD -> 0 < height < UINT_MOD ->
  umod width BLOCK = 0 -> umod height BLOCK = 0 ->
  in_grid width height co -> co ∈ threads width height.
Proof.
  unfold umod, BLOCK, UINT_MOD. intros Hw Hh Hwm Hhm [Hx Hy]. destruct co as [cx cy].
  cbn [x y] in Hx, Hy.
  assert (Ew : width = 16 * (width / 16)) by (apply Z.div_exact; lia).
  assert (Eh : height = 16 * (height / 16)) by (apply Z.div_exact; lia).
  pose proof (Z.div_mod cx 16 ltac:(lia)) as Dx.
  pose proof (Z.div_mod cy 16 ltac:(lia)) as Dy.
  pose proof (Z.mod_pos_bound cx 16 ltac:(lia)) as Mx.
  pose proof (Z.mod_pos_bound cy 16 ltac:(lia)) as My.
  assert (Bx : 0 <= cx / 16 < width / 16).
  { split; [apply Z.div_pos; lia|apply Z.div_lt_upper_bound; lia]. }
  assert (By : 0 <= cy / 16 < height / 16).
  { split; [apply Z.div_pos; lia|apply Z.div_lt_upper_bound; lia]. }
  pose proof (Z.div_mod (cy mod 16) 2 ltac:(lia)) as Dw.
  pose proof (Z.mod_pos_bound (cy mod 16) 2 ltac:(lia)) as Mw.
  assert (Bw : 0 <= cy mod 16 / 2 < 8).
  { split; [apply Z.div_pos; lia|apply Z.div_lt_upper_bound; lia]. }
  unfold threads. apply list_elem_of_In, in_concat.
  exists (warp (cx / 16) (cy / 16) (cy mod 16 / 2)). split.
  - apply list_elem_of_In. unfold warps_in_order. apply list_elem_of_bind.
    exists (cx / 16, cy / 16). split.
    + cbn [fst snd]. unfold block_warps. apply list_elem_of_In, in_map.
      apply list_elem_of_In, elem_of_zrange. exact Bw.
    + unfold grid_blocks. apply list_elem_of_bind. exists (cy / 16). split.
      * apply list_elem_of_bind. exists (cx / 16). split.
        -- apply list_elem_of_singleton. reflexivity.
        -- apply elem_of_zrange. exact Bx.
      * apply elem_of_zrange. exact By.
  - apply list_elem_of_In. unfold warp. apply list_elem_of_bind.
    exists (cy mod 16). split.
    + apply list_elem_of_bind. exists (cx mod 16). split.
      * apply list_elem_of_singleton. unfold thread_coordinate, uadd, umul, BLOCK.
        rewrite (wrap32_small (cx / 16 * 16)) by (unfold UINT_MOD; lia).
        rewrite (wrap32_small (cy / 16 * 16)) by (unfold UINT_MOD; lia).
        rewrite !wrap32_small by (unfold UINT_MOD; lia). f_equal; lia.
      * apply elem_of_zrange. exact Mx.
    + assert (cy mod 16 = 2 * (cy mod 16 / 2) \/ cy mod 16 = 2 * (cy mod 16 / 2) + 1)
        as [E|E] by lia; rewrite E at 1.
      * left.
      * right. left.
Qed.

Lemma thread_in_grid width height co :
  0 < width < UINT_MOD -> 0 < height < UINT_MOD ->
  co ∈ threads width height -> in_grid width height co.
Proof.
  intros Hw Hh Hco. pose proof (warps_in_grid width height Hw Hh) as Hall.
  apply Forall_concat in Hall. rewrite Forall_forall in Hall. apply Hall. exact Hco.
Qed.

(** The threads of the launch are the cells of the grid, each once. *)
Lemma threads_enumerate_grid (width height : Z) :
  0 < width < UINT_MOD -> 0 < height < UINT_MOD ->
  umod width BLOCK = 0 -> umod height BLOCK = 0 ->
  NoDup (threads width height) /\
  length (threads width height) = Z.to_nat (width * height) /\
  forall co, co ∈ threads width height <-> in_grid width height co.
Proof.
  intros Hw Hh Hwm Hhm.
  assert (Hlen : length (threads width height) = Z.to_nat (width * height)).
  { rewrite length_threads. unfold umod, udiv, BLOCK in *.
    assert (Ew : width = 16 * (width / 16)) by (apply Z.div_exact; lia).
    assert (Eh : height = 16 * (height / 16)) by (apply Z.div_exact; lia).
    assert (0 <= width / 16) by (apply Z.div_pos; lia).
    assert (0 <= height / 16) by (apply Z.div_pos; lia).
    rewrite Ew at 2. rewrite Eh at 2.
    replace (16 * (width / 16) * (16 * (height / 16)))
      with (height / 16 * (width / 16) * 256) by ring.
    rewrite !Z2Nat.inj_mul by lia. reflexivity. }
  assert (Hiff : forall co, co ∈ threads width height <-> in_grid width height co).
  { intros co. split; [apply thread_in_grid|apply in_grid_thread]; assumption. }
  split; [|split; assumption].
  set (cell_of := fun k : nat => make_uint2 (Z.of_nat k mod width) (Z.of_nat k / width)).
  set (cells := map cell_of (seq 0 (Z.to_nat (width * height)))).
  apply NoDup_ListNoDup.
  apply (NoDup_incl_NoDup (l := cells)).
  - apply NoDup_ListNoDup. unfold cells. apply (NoDup_fmap_2_strong cell_of).
    + intros k1 k2 _ _ E. unfold cell_of in E. inversion E as [[E1 E2]].
      pose proof (Z.div_mod (Z.of_nat k1) width ltac:(lia)).
      pose proof (Z.div_mod (Z.of_nat k2) width ltac:(lia)).
      apply Nat2Z.inj. congruence.
    + apply NoDup_seq.
  - unfold cells. rewrite length_map, length_seq, Hlen. lia.
  - intros co Hco. apply list_elem_of_In. apply Hiff.
    unfold cells in Hco. apply in_map_iff in Hco. destruct Hco as (k & <- & Hk).
    apply in_seq in Hk. unfold in_grid, cell_of. cbn [x y].
    pose proof (Z.mod_pos_bound (Z.of_nat k) width ltac:(lia)).
    split; [lia|]. split; [apply Z.div_pos; lia|].
    apply Z.div_lt_upper_bound; [lia|]. lia.
Qed.

(** X1. The launch [<<<dim3(width/16, height/16), dim3(16,16)>>>] of [rd]
    starts, for dimensions that are multiples of 16, exactly one thread for
    every cell of the grid and none outside it: the coordinates the threads
    compute are the cells of the grid, each once. *)
Theorem threads_cover_grid (width height : Z) :
  0 < width < UINT_MOD -> 0 < height < UINT_MOD ->
  umod width BLOCK = 0 -> umod height BLOCK = 0 ->
  NoDup (threads width height) /\
  length (threads width height) = Z.to_nat (width * height) /\
  forall co, co ∈ threads width height <-> in_grid width height co.
Proof. intros. apply threads_enumerate_grid; assumption. Qed.

Lemma threads_cover_grid_witness :
  NoDup (threads 16 16) /\
  length (threads 16 16) = Z.to_nat (16 * 16) /\
  forall co, co ∈ threads 16 16 <-> in_grid 16 16 co.
Proof.
  apply (threads_cover_grid 16 16); unfold UINT_MOD; try reflexivity; lia.
Defined.

(** ** The cells a launch touches *)

(** *** The cells a launch writes *)

Lemma computeU_all_threads a g st : forall rs,
  computeU_all a g st = Some rs -> rs.*1 = g.
Proof.
  induction g as [|co g IH]; intros rs H; cbn [computeU_all] in H.
  - inversion H. reflexivity.
  - destruct (rd_kernel_computeU a co st) as [r|]; cbn [mbind option_bind] in H;
      [|discriminate H].
    destruct (computeU_all a g st) as [rs'|]; cbn [mbind option_bind] in H;
      [|discriminate H].
    inversion H; subst. cbn [fmap list_fmap fst]. f_equal. apply IH. reflexivity.
Qed.

Lemma computeV_all_threads a rs st : forall vs,
  computeV_all a rs st = Some vs -> vs.*1 = rs.*1.
Proof.
  induction rs as [|[co [[vU vV] nu]] rs IH]; intros vs H; cbn [computeV_all] in H.
  - inversion H. reflexivity.
  - destruct (rd_kernel_computeV a co vU vV st) as [v|]; cbn [mbind option_bind] in H;
      [|discriminate H].
    destruct (computeV_all a rs st) as [vs'|]; cbn [mbind option_bind] in H;
      [|discriminate H].
    inversion H; subst. cbn [fmap list_fmap fst]. f_equal. apply IH. reflexivity.
Qed.

Lemma store_other (A : list float) (i : Z) (v : float) (A' : list float) (k : nat) :
  store A i v = Some A' -> Z.to_nat i <> k -> A' !! k = A !! k.
Proof.
  unfold store. destruct (decide _); [|discriminate]. intros H Hne. inversion H.
  apply list_lookup_insert_ne. exact Hne.
Qed.

Lemma storeU_all_frame a rs (i : nat) : forall st st',
  storeU_all a rs st = Some st' ->
  (forall co, co ∈ rs.*1 -> thread_index a co <> i) ->
  st'.1 !! i = st.1 !! i.
Proof.
  induction rs as [|[co [[vU vV] nu]] rs IH]; intros st st' H Hi; cbn [storeU_all] in H.
  - inversion H. reflexivity.
  - unfold rd_kernel_storeU in H at 1.
    destruct (store st.1 (linear_index a co) nu) as [U'|] eqn:E;
      cbn [mbind option_bind] in H; [|discriminate H].
    rewrite (IH _ _ H) by (intros co' Hco'; apply Hi; right; exact Hco').
    cbn [fst]. eapply store_other; [exact E|]. apply Hi. left.
Qed.

Lemma storeV_all_frame a vs (i : nat) : forall st st',
  storeV_all a vs st = Some st' ->
  (forall co, co ∈ vs.*1 -> thread_index a co <> i) ->
  st'.2 !! i = st.2 !! i.
Proof.
  induction vs as [|[co nv] vs IH]; intros st st' H Hi; cbn [storeV_all] in H.
  - inversion H. reflexivity.
  - unfold rd_kernel_storeV in H at 1.
    destruct (store st.2 (linear_index a co) nv) as [V'|] eqn:E;
      cbn [mbind option_bind] in H; [|discriminate H].
    rewrite (IH _ _ H) by (intros co' Hco'; apply Hi; right; exact Hco').
    cbn [snd]. eapply store_other; [exact E|]. apply Hi. left.
Qed.

Lemma run_group_frame a g st st' (i : nat) :
  run_group a g st = Some st' ->
  (forall co, co ∈ g -> thread_index a co <> i) ->
  st'.1 !! i = st.1 !! i /\ st'.2 !! i = st.2 !! i.
Proof.
  unfold run_group. intros H Hi.
  destruct (computeU_all a g st) as [rs|] eqn:EU; cbn [mbind option_bind] in H;
    [|discriminate H].
  destruct (storeU_all a rs st) as [st1|] eqn:ES; cbn [mbind option_bind] in H;
    [|discriminate H].
  destruct (computeV_all a rs st1) as [vs|] eqn:EV; cbn [mbind option_bind] in H;
    [|discriminate H].
  pose proof (computeU_all_threads _ _ _ _ EU) as T1.
  pose proof (computeV_all_threads _ _ _ _ EV) as T2.
  destruct (storeU_all_length _ _ _ _ ES) as [_ S2].
  destruct (storeV_all_length _ _ _ _ H) as [S1 _].
  split.
  - rewrite S1. eapply storeU_all_frame; [exact ES|]. rewrite T1. exact Hi.
  - rewrite <- S2. eapply storeV_all_frame; [exact H|]. rewrite T2, T1. exact Hi.
Qed.

(** X2. A launch writes no cell but those of its threads: a position of [U]
    or [V] that is the index [co.y*width + co.x] of none of the threads holds
    after the launch what it held before, whatever the order of the threads. *)
Theorem launch_frame (a : kernel_args) (sched : schedule) (st st' : fields) (i : nat) :
  rd_kernel_launch a sched st = Some st' ->
  (forall co, co ∈ concat sched -> thread_index a co <> i) ->
  st'.1 !! i = st.1 !! i /\ st'.2 !! i = st.2 !! i.
Proof.
  revert st. induction sched as [|g sched IH]; intros st H Hi; cbn [rd_kernel_launch] in H.
  - inversion H. auto.
  - destruct (run_group a g st) as [st1|] eqn:E; cbn [mbind option_bind] in H;
      [|discriminate H].
    destruct (run_group_frame a g st st1 i E) as [F1 F2].
    { intros co Hco. apply Hi. cbn [concat]. apply elem_of_app. left. exact Hco. }
    destruct (IH st1 H) as [G1 G2].
    { intros co Hco. apply Hi. cbn [concat]. apply elem_of_app. right. exact Hco. }
    split; congruence.
Qed.

Lemma launch_frame_witness :
  (flat 256).1 !! 17%nat = (flat 256).1 !! 17%nat /\
  (flat 256).2 !! 17%nat = (flat 256).2 !! 17%nat.
Proof.
  apply (launch_frame (rd_args 16 16) [[make_uint2 0 0]] (flat 256) (flat 256) 17%nat).
  - vm_compute. reflexivity.
  - intros co Hco. cbn [concat app] in Hco. apply list_elem_of_singleton in Hco.
    subst co. vm_compute. lia.
Defined.

(** *** Indices outside the arrays *)

Lemma rd_kernel_computeU_outside a co st :
  (length st.1 <= thread_index a co)%nat \/ (length st.2 <= thread_index a co)%nat ->
  rd_kernel_computeU a co st = None.
Proof.
  unfold thread_index, rd_kernel_computeU, load. intros [H|H].
  - rewrite (lookup_ge_None_2 st.1) by exact H. reflexivity.
  - destruct (st.1 !! _); cbn [mbind option_bind]; [|reflexivity].
    rewrite (lookup_ge_None_2 st.2) by exact H. reflexivity.
Qed.

Lemma computeU_all_outside a g st co :
  co ∈ g ->
  (length st.1 <= thread_index a co)%nat \/ (length st.2 <= thread_index a co)%nat ->
  computeU_all a g st = None.
Proof.
  intros Hco Hout. induction g as [|co' g IH]; [inversion Hco|].
  cbn [computeU_all]. apply elem_of_cons in Hco. destruct Hco as [<-|Hco].
  - rewrite rd_kernel_computeU_outside by exact Hout. reflexivity.
  - destruct (rd_kernel_computeU a co' st); cbn [mbind option_bind]; [|reflexivity].
    rewrite IH by exact Hco. reflexivity.
Qed.

(** A launch one of whose threads has its index [co.y*width + co.x]
    outside [U] or outside [V] has no defined result, wherever the thread
    comes in the order: its first statement loads [U[idx]] and [V[idx]]. *)
Lemma launch_out_of_bounds (a : kernel_args) (sched : schedule) (st : fields)
    (co : uint2) :
  co ∈ concat sched ->
  (length st.1 <= thread_index a co)%nat \/ (length st.2 <= thread_index a co)%nat ->
  rd_kernel_launch a sched st = None.
Proof.
  revert st. induction sched as [|g sched IH]; intros st Hco Hout; [inversion Hco|].
  cbn [rd_kernel_launch]. cbn [concat] in Hco. apply elem_of_app in Hco.
  destruct Hco as [Hco|Hco].
  - unfold run_group. rewrite (computeU_all_outside a g st co Hco Hout). reflexivity.
  - destruct (run_group a g st) as [st1|] eqn:E; cbn [mbind option_bind]; [|reflexivity].
    destruct (run_group_length _ _ _ _ E) as [L1 L2].
    apply IH; [exact Hco|]. rewrite L1, L2. exact Hout.
Qed.

(** ** Threads in lock-step *)

(** A group in lock-step writes what the double-buffered step writes for
    its threads. *)
Lemma run_group_is_reference a g old rs :
  reference_values a g old = Some rs ->
  run_group a g old = reference_store a rs old.
Proof.
  intros ER.
  destruct (reference_values_phases a _ old rs ER) as (rsU & vs & HU & HV & Hs & Hi).
  destruct old as [_U _V]. cbn [fst snd] in *.
  destruct (reference_store_phases a (length _U) (length _V) rs rsU vs Hs Hi _U _V
              eq_refl eq_refl) as (U' & V' & HR & HSU & HSV).
  rewrite HR. unfold run_group. rewrite HU. cbn [mbind option_bind].
  rewrite (HSU _V). cbn [mbind option_bind].
  rewrite (HV (U', _V) eq_refl). cbn [mbind option_bind].
  apply HSV.
Qed.

(** What the stores of the double-buffered step leave in the arrays. *)
Lemma reference_store_cells a rs : forall st st',
  reference_store a rs st = Some st' ->
  NoDup (thread_index a <$> rs.*1) ->
  (length st'.1 = length st.1 /\ length st'.2 = length st.2) /\
  (forall co nu nv, (co, (nu, nv)) ∈ rs ->
     st'.1 !! thread_index a co = Some nu /\ st'.2 !! thread_index a co = Some nv) /\
  (forall i, i ∉ thread_index a <$> rs.*1 ->
     st'.1 !! i = st.1 !! i /\ st'.2 !! i = st.2 !! i).
Proof.
  induction rs as [|[co [nu nv]] rs IH]; intros st st' H Hnd; cbn [reference_store] in H.
  - inversion H; subst. split; [auto|]. split; [|auto].
    intros co nu nv Hin. inversion Hin.
  - cbn [fmap list_fmap fst] in Hnd. apply NoDup_cons in Hnd. destruct Hnd as [Hni Hnd].
    unfold rd_kernel_storeU, rd_kernel_storeV in H.
    destruct (store st.1 (linear_index a co) nu) as [U1|] eqn:EU;
      cbn [mbind option_bind fst snd] in H; [|discriminate H].
    destruct (store st.2 (linear_index a co) nv) as [V1|] eqn:EV;
      cbn [mbind option_bind fst snd] in H; [|discriminate H].
    destruct (IH _ _ H Hnd) as ((L1 & L2) & Hin & Hout). cbn [fst snd] in *.
    pose proof (store_length _ _ _ _ EU) as LU. pose proof (store_length _ _ _ _ EV) as LV.
    split; [split; congruence|]. split.
    + intros co' nu' nv' Hc. apply elem_of_cons in Hc. destruct Hc as [Hc|Hc].
      * inversion Hc; subst co' nu' nv'.
        destruct (Hout (thread_index a co) Hni) as [O1 O2]. rewrite O1, O2.
        unfold store in EU, EV.
        destruct (decide (Z.to_nat (linear_index a co) < length st.1)%nat) as [H1|];
          [|discriminate EU].
        destruct (decide (Z.to_nat (linear_index a co) < length st.2)%nat) as [H2|];
          [|discriminate EV].
        inversion EU; inversion EV; subst. unfold thread_index.
        rewrite !list_lookup_insert_eq by assumption. auto.
      * apply Hin. exact Hc.
    + intros i Hi. cbn [fmap list_fmap fst] in Hi. apply not_elem_of_cons in Hi.
      destruct Hi as [Hne Hi]. destruct (Hout i Hi) as [O1 O2]. rewrite O1, O2.
      split; eapply store_other; eauto.
Qed.

Lemma reference_values_threads a g old : forall rs,
  reference_values a g old = Some rs -> rs.*1 = g.
Proof.
  induction g as [|co g IH]; intros rs H; cbn [reference_values] in H.
  - inversion H. reflexivity.
  - destruct (rd_kernel_computeU a co old) as [[[vU vV] newU]|];
      cbn [mbind option_bind] in H; [|discriminate H].
    destruct (rd_kernel_computeV a co vU vV old) as [newV|];
      cbn [mbind option_bind] in H; [|discriminate H].
    destruct (reference_values a g old) as [rs'|];
      cbn [mbind option_bind] in H; [|discriminate H].
    inversion H; subst. cbn [fmap list_fmap fst]. f_equal. apply IH. reflexivity.
Qed.

Section Grid.

Variables width height : Z.
Hypothesis Hw : 0 < width <= 2147483648.
Hypothesis Hh : 0 < height <= 2147483648.
Hypothesis Hwh : width * height < UINT_MOD.

Local Abbreviation a := (rd_args width height).
Local Abbreviation n := (Z.to_nat (width * height)).

Lemma thread_index_grid co :
  in_grid width height co ->
  thread_index a co = Z.to_nat (y co * width + x co) /\ (thread_index a co < n)%nat.
Proof.
  intros Hco. destruct (flat_index width height Hw Hh Hwh co Hco) as [E Hlt].
  unfold thread_index. rewrite E in *. auto.
Qed.

Lemma thread_index_inj co1 co2 :
  in_grid width height co1 -> in_grid width height co2 ->
  thread_index a co1 = thread_index a co2 -> co1 = co2.
Proof.
  intros H1 H2 E.
  destruct (thread_index_grid co1 H1) as [E1 _], (thread_index_grid co2 H2) as [E2 _].
  rewrite E1, E2 in E. destruct H1 as [X1 Y1], H2 as [X2 Y2].
  apply Z2Nat.inj in E; try nia.
  destruct co1 as [x1 y1], co2 as [x2 y2]. cbn [x y] in *.
  assert (y1 = y2) by nia. subst. f_equal. lia.
Qed.

(** The two halves of a thread on arrays of [width*height] cells. *)
Lemma thread_values (st : fields) co :
  length st.1 = n -> length st.2 = n -> in_grid width height co ->
  exists u v nu nv,
    Spec.newU width height st (x co) (y co) = Some nu /\
    Spec.newV width height st (x co) (y co) = Some nv /\
    rd_kernel_computeU a co st = Some (u, v, nu) /\
    rd_kernel_computeV a co u v st = Some nv.
Proof.
  intros HU HV [Hx Hy]. destruct st as [Uo Vo]; cbn [fst snd] in *.
  rewrite rd_args_spec by nia.
  destruct (cell_is_Some Uo width height _ _ HU Hx Hy) as [u Hu].
  destruct (cell_is_Some Vo width height _ _ HV Hx Hy) as [v Hv].
  destruct (Laplacian_is_Some Spec.dx Uo width height _ _ HU Hx Hy) as [lu Hlu].
  destruct (Laplacian_is_Some Spec.dx Vo width height _ _ HV Hx Hy) as [lv Hlv].
  unfold Spec.newU, Spec.newV. cbn [fst snd]. rewrite Hu, Hv, Hlu, Hlv.
  cbn [mbind option_bind].
  eexists u, v, _, _. split; [reflexivity|]. split; [reflexivity|].
  unfold rd_kernel_computeU, rd_kernel_computeV. cbn [fst snd k_width k_height k_dx].
  rewrite linear_index_small by (cbn [k_width k_height]; lia).
  cbn [k_width k_height].
  unfold load. unfold Spec.cell in Hu, Hv. rewrite Hu, Hv. cbn [mbind option_bind].
  rewrite (calculateLaplacian_wraps _ Uo co u width height) by (auto; lia).
  rewrite Hlu. cbn [mbind option_bind].
  rewrite (calculateLaplacian_wraps _ Vo co v width height) by (auto; lia).
  rewrite Hlv. cbn [mbind option_bind].
  split; reflexivity.
Qed.

Lemma reference_values_grid (st : fields) g :
  length st.1 = n -> length st.2 = n -> Forall (in_grid width height) g ->
  exists rs,
    reference_values a g st = Some rs /\
    forall co nu nv, (co, (nu, nv)) ∈ rs ->
      Spec.newU width height st (x co) (y co) = Some nu /\
      Spec.newV width height st (x co) (y co) = Some nv.
Proof.
  intros HU HV. induction 1 as [|co g Hco _ IH].
  - exists []. split; [reflexivity|]. intros co nu nv Hin. inversion Hin.
  - destruct IH as (rs & ER & Hrs).
    destruct (thread_values st co HU HV Hco) as (u & v & nu & nv & N1 & N2 & C1 & C2).
    exists ((co, (nu, nv)) :: rs). split.
    + cbn [reference_values]. rewrite C1. cbn [mbind option_bind]. rewrite C2.
      cbn [mbind option_bind]. rewrite ER. reflexivity.
    + intros co' nu' nv' Hin. apply elem_of_cons in Hin. destruct Hin as [Hin|Hin].
      * inversion Hin; subst. auto.
      * apply Hrs. exact Hin.
Qed.

Lemma reference_store_grid (st : fields) rs :
  length st.1 = n -> length st.2 = n -> Forall (in_grid width height) rs.*1 ->
  exists st', reference_store a rs st = Some st' /\ length st'.1 = n /\ length st'.2 = n.
Proof.
  revert st. induction rs as [|[co [nu nv]] rs IH]; intros st HU HV Hg.
  - exists st. auto.
  - cbn [fmap list_fmap fst] in Hg. inversion Hg as [|? ? Hco Hg']; subst.
    destruct (thread_index_grid co Hco) as [_ Hlt]. unfold thread_index in Hlt.
    cbn [reference_store]. unfold rd_kernel_storeU, rd_kernel_storeV.
    rewrite store_Some by (rewrite HU; exact Hlt). cbn [mbind option_bind fst snd].
    rewrite store_Some by (rewrite HV; exact Hlt). cbn [mbind option_bind fst snd].
    apply IH; cbn [fst snd]; rewrite ?length_insert; assumption.
Qed.

(** A group of threads of the grid runs within the arrays. *)
Lemma run_group_grid (st : fields) g :
  length st.1 = n -> length st.2 = n -> Forall (in_grid width height) g ->
  exists rs st',
    reference_values a g st = Some rs /\ reference_store a rs st = Some st' /\
    run_group a g st = Some st' /\ length st'.1 = n /\ length st'.2 = n.
Proof.
  intros HU HV Hg. destruct (reference_values_grid st g HU HV Hg) as (rs & ER & _).
  pose proof (reference_values_threads _ _ _ _ ER) as Ht.
  destruct (reference_store_grid st rs HU HV) as (st' & ES & L1 & L2).
  { rewrite Ht. exact Hg. }
  exists rs, st'. rewrite (run_group_is_reference _ _ _ _ ER). auto.
Qed.

Lemma launch_grid sched : forall st : fields,
  length st.1 = n -> length st.2 = n ->
  Forall (Forall (in_grid width height)) sched ->
  exists st', rd_kernel_launch a sched st = Some st' /\
              length st'.1 = n /\ length st'.2 = n.
Proof.
  induction sched as [|g sched IH]; intros st HU HV Hs.
  - exists st. auto.
  - inversion Hs as [|? ? Hg Hs']; subst.
    destruct (run_group_grid st g HU HV Hg) as (rs & st1 & _ & _ & ER & L1 & L2).
    cbn [rd_kernel_launch]. rewrite ER. cbn [mbind option_bind].
    apply IH; assumption.
Qed.

Lemma lock_step_cells (st : fields) g :
  length st.1 = n -> length st.2 = n ->
  Forall (in_grid width height) g -> NoDup g ->
  exists st',
    run_group a g st = Some st' /\
    (forall co, co ∈ g ->
       Spec.cell st'.1 width (x co) (y co) = Spec.newU width height st (x co) (y co) /\
       Spec.cell st'.2 width (x co) (y co) = Spec.newV width height st (x co) (y co)) /\
    (forall co, in_grid width height co -> co ∉ g ->
       Spec.cell st'.1 width (x co) (y co) = Spec.cell st.1 width (x co) (y co) /\
       Spec.cell st'.2 width (x co) (y co) = Spec.cell st.2 width (x co) (y co)).
Proof.
  intros HU HV Hg Hnd.
  destruct (run_group_grid st g HU HV Hg) as (rs & st' & ER & ES & ERun & _).
  destruct (reference_values_grid st g HU HV Hg) as (rs' & ER' & Hvals).
  rewrite ER in ER'. inversion ER'; subst rs'. clear ER'.
  pose proof (reference_values_threads _ _ _ _ ER) as Ht.
  rewrite Forall_forall in Hg.
  assert (Hndi : NoDup (thread_index a <$> rs.*1)).
  { rewrite Ht. apply NoDup_fmap_2_strong; [|exact Hnd].
    intros c1 c2 H1 H2. apply thread_index_inj; apply Hg; assumption. }
  destruct (reference_store_cells a rs st st' ES Hndi) as (_ & Hin & Hout).
  exists st'. split; [exact ERun|]. split.
  - intros co Hco. rewrite <- Ht in Hco. apply list_elem_of_fmap in Hco.
    destruct Hco as ([co' [nu nv]] & E & Hr). cbn [fst] in E. subst co'.
    destruct (Hvals co nu nv Hr) as [N1 N2]. destruct (Hin co nu nv Hr) as [I1 I2].
    destruct (thread_index_grid co (Hg co ltac:(rewrite <- Ht; apply list_elem_of_fmap;
      exists (co, (nu, nv)); auto))) as [E _].
    unfold Spec.cell. rewrite <- E, I1, I2, N1, N2. auto.
  - intros co Hco Hni. destruct (thread_index_grid co Hco) as [E _].
    unfold Spec.cell. rewrite <- E. apply Hout. rewrite Ht.
    intros Hi. apply list_elem_of_fmap in Hi. destruct Hi as (co' & E' & Hco').
    apply thread_index_inj in E'; [|exact Hco|apply Hg; exact Hco'].
    subst co'. contradiction.
Qed.

End Grid.

(** ** Launches and calls of rd *)

(** X3. When a group of distinct threads of the grid runs in lock-step
    (every thread of the group has finished its loads when the first store
    of the group happens), each of its cells holds after the group [newU]
    and [newV] computed from the fields as they were when the group started,
    whatever the order of the threads inside the group, and the cells of the
    other threads are untouched. *)
Theorem lock_step_group_exact (width height : Z) (st : fields) (g : list uint2) :
  0 < width <= 2147483648 -> 0 < height <= 2147483648 ->
  width * height < UINT_MOD ->
  length st.1 = Z.to_nat (width * height) ->
  length st.2 = Z.to_nat (width * height) ->
  Forall (in_grid width height) g -> NoDup g ->
  exists st',
    run_group (rd_args width height) g st = Some st' /\
    (forall co, co ∈ g ->
       Spec.cell st'.1 width (x co) (y co) = Spec.newU width height st (x co) (y co) /\
       Spec.cell st'.2 width (x co) (y co) = Spec.newV width height st (x co) (y co)) /\
    (forall co, in_grid width height co -> co ∉ g ->
       Spec.cell st'.1 width (x co) (y co) = Spec.cell st.1 width (x co) (y co) /\
       Spec.cell st'.2 width (x co) (y co) = Spec.cell st.2 width (x co) (y co)).
Proof. intros. apply lock_step_cells; assumption. Qed.

Lemma lock_step_group_exact_witness :
  exists st',
    run_group (rd_args 16 16) [make_uint2 0 0; make_uint2 1 0] (flat 256) = Some st' /\
    (forall co, co ∈ [make_uint2 0 0; make_uint2 1 0] ->
       Spec.cell st'.1 16 (x co) (y co) = Spec.newU 16 16 (flat 256) (x co) (y co) /\
       Spec.cell st'.2 16 (x co) (y co) = Spec.newV 16 16 (flat 256) (x co) (y co)) /\
    (forall co, in_grid 16 16 co -> co ∉ [make_uint2 0 0; make_uint2 1 0] ->
       Spec.cell st'.1 16 (x co) (y co) = Spec.cell (flat 256).1 16 (x co) (y co) /\
       Spec.cell st'.2 16 (x co) (y co) = Spec.cell (flat 256).2 16 (x co) (y co)).
Proof.
  apply (lock_step_group_exact 16 16 (flat 256) [make_uint2 0 0; make_uint2 1 0]);
    unfold UINT_MOD; try lia; try reflexivity.
  - repeat constructor; simpl; lia.
  - apply NoDup_cons. split; [|apply NoDup_singleton].
    intros H. apply list_elem_of_singleton in H. discriminate H.
Defined.

(** X4. A launch whose threads all lie in the grid, run on arrays of
    [width*height] cells, stays within the arrays: every load and store of
    every thread is in bounds, whatever the order of the threads, and the
    arrays keep their size. *)
Theorem launch_in_bounds (width height : Z) (sched : schedule) (st : fields) :
  0 < width <= 2147483648 -> 0 < height <= 2147483648 ->
  width * height < UINT_MOD ->
  length st.1 = Z.to_nat (width * height) ->
  length st.2 = Z.to_nat (width * height) ->
  Forall (Forall (in_grid width height)) sched ->
  exists st',
    rd_kernel_launch (rd_args width height) sched st = Some st' /\
    length st'.1 = Z.to_nat (width * height) /\
    length st'.2 = Z.to_nat (width * height).
Proof. intros. apply launch_grid; assumption. Qed.

Lemma launch_in_bounds_witness :
  exists st',
    rd_kernel_launch (rd_args 16 16) [[make_uint2 15 15]; [make_uint2 0 0]] (flat 256)
    = Some st' /\
    length st'.1 = Z.to_nat (16 * 16) /\ length st'.2 = Z.to_nat (16 * 16).
Proof.
  apply (launch_in_bounds 16 16 [[make_uint2 15 15]; [make_uint2 0 0]] (flat 256));
    unfold UINT_MOD; try lia; try reflexivity.
  repeat constructor; simpl; lia.
Defined.

(** *** The calls of rd *)

Lemma aligned_dims width height :
  0 < width -> 0 < height -> umod width BLOCK = 0 -> umod height BLOCK = 0 ->
  16 <= width /\ 16 <= height.
Proof.
  unfold umod, BLOCK. intros Hw Hh Hwm Hhm.
  apply Z.mod_divide in Hwm; [|lia]. apply Z.mod_divide in Hhm; [|lia].
  destruct Hwm as [a Ha], Hhm as [b Hb]. lia.
Qed.

Lemma schedule_in_grid width height sched :
  0 < width < UINT_MOD -> 0 < height < UINT_MOD ->
  concat sched ≡ₚ threads width height ->
  Forall (Forall (in_grid width height)) sched.
Proof.
  intros Hw Hh Hp. apply Forall_concat. rewrite Hp. apply Forall_concat.
  apply warps_in_grid; assumption.
Qed.

Lemma rd_step_launched sched width height result w u v st' :
  umod width BLOCK = 0 -> umod height BLOCK = 0 ->
  U w = Some u -> V w = Some v ->
  rd_kernel_launch (rd_args width height) sched (u, v) = Some st' ->
  rd_step sched true width height result w
  = if decide (Z.to_nat (umul width height) <= length st'.1
               ∧ Z.to_nat (umul width height) <= length result)%nat
    then Returned
           {| first_pass := first_pass w; U := Some st'.1; V := Some st'.2;
              rand_calls := rand_calls w;
              trace := (trace w ++ [EvLaunch width height])
                       ++ [EvCopyOut (umul width height)] |}
           (take (Z.to_nat (umul width height)) st'.1
            ++ drop (Z.to_nat (umul width height)) result)
    else Undefined.
Proof.
  intros Hwm Hhm HU HV HL. unfold rd_step.
  destruct (decide (umod width BLOCK ≠ 0 ∨ umod height BLOCK ≠ 0)) as [[?|?]|_];
    try contradiction.
  rewrite HU, HV, HL. destruct st' as [u' v']. reflexivity.
Qed.

Lemma rd_step_no_launch sched width height result w u v :
  umod width BLOCK = 0 -> umod height BLOCK = 0 ->
  U w = Some u -> V w = Some v ->
  rd_kernel_launch (rd_args width height) sched (u, v) = None ->
  rd_step sched true width height result w = Undefined.
Proof.
  intros Hwm Hhm HU HV HL. unfold rd_step.
  destruct (decide (umod width BLOCK ≠ 0 ∨ umod height BLOCK ≠ 0)) as [[?|?]|_];
    try contradiction.
  rewrite HU, HV, HL. reflexivity.
Qed.

(** X6. When [cudaMalloc] fails on the first call, [rd] quits with the CUDA
    error before anything else: the host arrays are not initialised, [rand]
    is not called, the dimensions are not looked at and no kernel is
    launched. *)
Theorem rd_allocation_failure RAND_MAX rand junk sched launch_ok width height result w :
  first_pass w = true ->
  exists w',
    rd RAND_MAX rand junk sched false launch_ok width height result w
    = Exited CudaAllocError w' /\
    rand_calls w' = rand_calls w /\
    trace w' = trace w ++ [EvMalloc (umul width height); EvMalloc (umul width height);
                           EvExit CudaAllocError].
Proof.
  intros Hfp. unfold rd, rd_first_pass. rewrite Hfp. eexists. split; [reflexivity|].
  cbn [log rand_calls trace]. rewrite <- !app_assoc. split; reflexivity.
Qed.

Lemma rd_allocation_failure_witness :
  exists w',
    rd RAND_MAX_31 rand_zero junk_zero (warps_in_order 17 16) false true 17 16 []
       initial_world
    = Exited CudaAllocError w' /\
    rand_calls w' = rand_calls initial_world /\
    trace w' = trace initial_world ++ [EvMalloc (umul 17 16); EvMalloc (umul 17 16);
                                       EvExit CudaAllocError].
Proof.
  apply (rd_allocation_failure RAND_MAX_31 rand_zero junk_zero (warps_in_order 17 16)
           true 17 16 [] initial_world).
  reflexivity.
Defined.

(** X7. The first call of [rd] on a grid whose dimensions are positive
    multiples of 16 initialises the fields, runs one step on them and copies
    the new [U] to the output buffer: the first [width*height] cells of the
    result are [U] after the step, not the initial concentrations, and the
    rest of the buffer is as it was.  A buffer of fewer cells is written
    beyond its end. *)
Theorem rd_first_call_output RAND_MAX rand junk sched width height result w :
  first_pass w = true ->
  0 < width -> 0 < height -> umod width BLOCK = 0 -> umod height BLOCK = 0 ->
  width * height <= INT_MAX ->
  concat sched ≡ₚ threads width height ->
  exists uv calls st',
    initializeConcentrations RAND_MAX rand junk width height (rand_calls w)
    = Some (uv, calls) /\
    rd_kernel_launch (rd_args width height) sched uv = Some st' /\
    ((Z.to_nat (width * height) <= length result)%nat ->
     exists w',
       rd RAND_MAX rand junk sched true true width height result w
       = Returned w' (take (Z.to_nat (width * height)) st'.1
                      ++ drop (Z.to_nat (width * height)) result) /\
       first_pass w' = false /\ U w' = Some st'.1 /\ V w' = Some st'.2 /\
       rand_calls w' = calls) /\
    ((length result < Z.to_nat (width * height))%nat ->
     rd RAND_MAX rand junk sched true true width height result w = Undefined).
Proof.
  intros Hfp Hw Hh Hwm Hhm Hwh Hperm.
  destruct (aligned_dims width height Hw Hh Hwm Hhm) as [Hw16 Hh16].
  assert (Hlt : width * height < UINT_MOD) by (unfold UINT_MOD, INT_MAX in *; lia).
  assert (Hw31 : width <= 2147483648) by (unfold INT_MAX in *; nia).
  assert (Hh31 : height <= 2147483648) by (unfold INT_MAX in *; nia).
  assert (Hn : umul width height = width * height).
  { unfold umul. apply wrap32_small. nia. }
  destruct (seeded_fields_spec junk width height Hw Hh Hwh) as (uv0 & Hs & _).
  destruct (initializeConcentrations_Some RAND_MAX rand junk width height (rand_calls w)
              uv0 Hs) as (uv & calls & Hi & L1 & L2).
  rewrite Hn in L1, L2.
  destruct (launch_grid width height ltac:(lia) ltac:(lia) Hlt sched uv L1 L2)
    as (st' & HL & M1 & M2).
  { apply schedule_in_grid; [unfold UINT_MOD; lia|unfold UINT_MOD; lia|exact Hperm]. }
  exists uv, calls, st'. split; [exact Hi|]. split; [exact HL|].
  rewrite (rd_first_call _ _ _ _ _ _ _ _ _ uv calls Hfp Hi).
  rewrite (rd_step_launched sched width height result _ uv.1 uv.2 st' Hwm Hhm);
    [|reflexivity|reflexivity|destruct uv; exact HL].
  rewrite Hn, M1. split.
  - intros Hr. destruct (decide _) as [_|Hc]; [|lia].
    eexists. split; [reflexivity|]. cbn [first_pass U V rand_calls after_first_pass].
    auto.
  - intros Hr. destruct (decide _) as [[_ Hc]|_]; [lia|reflexivity].
Qed.

Lemma rd_first_call_output_witness :
  exists uv calls st',
    initializeConcentrations RAND_MAX_31 rand_zero junk_zero 16 16
      (rand_calls initial_world) = Some (uv, calls) /\
    rd_kernel_launch (rd_args 16 16) (warps_in_order 16 16) uv = Some st' /\
    ((Z.to_nat (16 * 16) <= length (replicate 256 F32.zero))%nat ->
     exists w',
       rd RAND_MAX_31 rand_zero junk_zero (warps_in_order 16 16) true true 16 16
          (replicate 256 F32.zero) initial_world
       = Returned w' (take (Z.to_nat (16 * 16)) st'.1
                      ++ drop (Z.to_nat (16 * 16)) (replicate 256 F32.zero)) /\
       first_pass w' = false /\ U w' = Some st'.1 /\ V w' = Some st'.2 /\
       rand_calls w' = calls) /\
    ((length (replicate 256 F32.zero) < Z.to_nat (16 * 16))%nat ->
     rd RAND_MAX_31 rand_zero junk_zero (warps_in_order 16 16) true true 16 16
        (replicate 256 F32.zero) initial_world = Undefined).
Proof.
  apply (rd_first_call_output RAND_MAX_31 rand_zero junk_zero (warps_in_order 16 16)
           16 16 (replicate 256 F32.zero) initial_world);
    unfold INT_MAX; try lia; reflexivity.
Defined.

(** X8. After the first pass [rd] never allocates, initialises or calls
    [rand] again: a later call that returns has only launched the kernel and
    copied [U] out, and the fields and the output buffer keep their sizes; a
    later call never quits with the allocation error, and one that quits at
    the dimension check has launched nothing and leaves the fields as they
    were. *)
Theorem rd_later_call_keeps RAND_MAX rand junk sched alloc_ok launch_ok width height
    result w :
  first_pass w = false ->
  match rd RAND_MAX rand junk sched alloc_ok launch_ok width height result w with
  | Returned w' r =>
      first_pass w' = false /\ rand_calls w' = rand_calls w /\
      (length <$> U w') = (length <$> U w) /\ (length <$> V w') = (length <$> V w) /\
      length r = length result /\
      trace w' = trace w ++ [EvLaunch width height; EvCopyOut (umul width height)]
  | Exited f w' =>
      f <> CudaAllocError /\ first_pass w' = false /\ rand_calls w' = rand_calls w /\
      (f = DimensionError ->
       U w' = U w /\ V w' = V w /\ trace w' = trace w ++ [EvExit DimensionError])
  | Undefined => True
  end.
Proof.
  intros Hfp. rewrite rd_later_call by exact Hfp. unfold rd_step.
  destruct (decide (umod width BLOCK ≠ 0 ∨ umod height BLOCK ≠ 0)).
  { cbn [log first_pass U V rand_calls trace]. repeat split; auto; discriminate. }
  destruct (U w) as [u|] eqn:HU; [|exact I]. destruct (V w) as [v|] eqn:HV; [|exact I].
  destruct launch_ok.
  - destruct (rd_kernel_launch (rd_args width height) sched (u, v)) as [[u' v']|] eqn:E;
      [|exact I].
    destruct (decide _) as [[H1 H2]|_]; [|exact I].
    apply rd_kernel_launch_length in E. cbn [fst snd] in E. destruct E as [E1 E2].
    cbn [log first_pass U V rand_calls trace fmap option_fmap option_map].
    rewrite E1, E2, <- app_assoc.
    repeat split; auto.
    rewrite length_app, length_take, length_drop. lia.
  - cbn [log first_pass U V rand_calls]. split; [discriminate|].
    split; [exact Hfp|]. split; [reflexivity|]. discriminate.
Qed.

Lemma rd_later_call_keeps_witness :
  match rd RAND_MAX_31 rand_zero junk_zero [] true true 17 16 []
           (world_with (flat 256).1 (flat 256).2) with
  | Returned w' r =>
      first_pass w' = false /\
      rand_calls w' = rand_calls (world_with (flat 256).1 (flat 256).2) /\
      (length <$> U w') = (length <$> U (world_with (flat 256).1 (flat 256).2)) /\
      (length <$> V w') = (length <$> V (world_with (flat 256).1 (flat 256).2)) /\
      length r = length (@nil float) /\
      trace w' = trace (world_with (flat 256).1 (flat 256).2)
                 ++ [EvLaunch 16 16; EvCopyOut (umul 16 16)]
  | Exited f w' =>
      f <> CudaAllocError /\ first_pass w' = false /\
      rand_calls w' = rand_calls (world_with (flat 256).1 (flat 256).2) /\
      (f = DimensionError ->
       U w' = U (world_with (flat 256).1 (flat 256).2) /\
       V w' = V (world_with (flat 256).1 (flat 256).2) /\
       trace w' = trace (world_with (flat 256).1 (flat 256).2)
                  ++ [EvExit DimensionError])
  | Undefined => True
  end.
Proof.
  apply (rd_later_call_keeps RAND_MAX_31 rand_zero junk_zero [] true true 17 16 []
           (world_with (flat 256).1 (flat 256).2)).
  reflexivity.
Defined.

(** X9. A later call of [rd] with a grid of more cells than the buffers of
    the first call hold is not caught anywhere: the kernel is launched with
    the new dimensions and the thread of the first cell beyond the buffers
    loads outside them, so the call has no defined result. *)
Theorem rd_larger_grid_undefined RAND_MAX rand junk sched alloc_ok width height result
    w u v :
  first_pass w = false -> U w = Some u -> V w = Some v ->
  0 < width -> 0 < height -> width * height < UINT_MOD ->
  umod width BLOCK = 0 -> umod height BLOCK = 0 ->
  concat sched ≡ₚ threads width height ->
  (length u < Z.to_nat (width * height))%nat \/
  (length v < Z.to_nat (width * height))%nat ->
  rd RAND_MAX rand junk sched alloc_ok true width height result w = Undefined.
Proof.
  intros Hfp HU HV Hw Hh Hwh Hwm Hhm Hperm Hshort.
  destruct (aligned_dims width height Hw Hh Hwm Hhm) as [Hw16 Hh16].
  assert (Hw31 : width <= 2147483648) by (unfold UINT_MOD in *; nia).
  assert (Hh31 : height <= 2147483648) by (unfold UINT_MOD in *; nia).
  rewrite rd_later_call by exact Hfp.
  apply (rd_step_no_launch sched width height result w u v Hwm Hhm HU HV).
  assert (Hcell : forall k : nat, (k < Z.to_nat (width * height))%nat ->
            exists co, co ∈ concat sched /\ thread_index (rd_args width height) co = k).
  { intros k Hk. exists (make_uint2 (Z.of_nat k mod width) (Z.of_nat k / width)).
    assert (Hin : in_grid width height
                    (make_uint2 (Z.of_nat k mod width) (Z.of_nat k / width))).
    { unfold in_grid. cbn [x y].
      pose proof (Z.mod_pos_bound (Z.of_nat k) width ltac:(lia)).
      split; [lia|]. split; [apply Z.div_pos; lia|].
      apply Z.div_lt_upper_bound; lia. }
    split.
    - rewrite Hperm. apply in_grid_thread; try assumption; unfold UINT_MOD in *; lia.
    - destruct (thread_index_grid width height ltac:(lia) ltac:(lia) Hwh _ Hin) as [E _].
      rewrite E. cbn [x y].
      pose proof (Z.div_mod (Z.of_nat k) width ltac:(lia)). lia. }
  destruct Hshort as [Hs|Hs].
  - destruct (Hcell (length u) Hs) as (co & Hco & E).
    apply (launch_out_of_bounds _ sched (u, v) co Hco). left. cbn [fst]. lia.
  - destruct (Hcell (length v) Hs) as (co & Hco & E).
    apply (launch_out_of_bounds _ sched (u, v) co Hco). right. cbn [snd]. lia.
Qed.

Lemma rd_larger_grid_undefined_witness :
  rd RAND_MAX_31 rand_zero junk_zero (warps_in_order 32 16) true true 32 16 []
     (world_with (flat 256).1 (flat 256).2)
  = Undefined.
Proof.
  apply (rd_larger_grid_undefined RAND_MAX_31 rand_zero junk_zero (warps_in_order 32 16)
           true 32 16 [] (world_with (flat 256).1 (flat 256).2) (flat 256).1 (flat 256).2);
    unfold UINT_MOD; try lia; try reflexivity.
  left. vm_compute. lia.
Defined.

(** ** The range of the initial values *)

(** *** The first row and column of the patch *)

Lemma B2R_c0_52_low : (51 / 100 <= B2R F32.c0_52)%R.
Proof.
  unfold F32.c0_52. rewrite B2R_finite. cbn [signed].
  rewrite (F2R_neg_exp _ 24) by lia. change (2 ^ 24) with 16777216. lra.
Qed.

(** [0.48f*n] and [0.52f*n] round to different numbers. *)
Lemma limits_apart n :
  1 <= n <= INT_MAX -> (B2R (lower_limit n) < B2R (upper_limit n))%R.
Proof.
  intros Hn. destruct (RAND_MAX_float n Hn) as (m & e & E & Hv & HB).
  unfold INT_MAX in Hn.
  destruct (of_Z_facts n ltac:(lia)) as (Hvn & Hfn & _ & Hbn).
  destruct (scale_facts F32.c0_48 (F32.of_Z n)) as (_ & _ & Hnl & _);
    try assumption; try reflexivity.
  { pose proof B2R_c0_48. lra. }
  destruct (scale_facts F32.c0_52 (F32.of_Z n)) as (_ & _ & Hnu & _);
    try assumption; try reflexivity; try apply B2R_c0_52.
  fold (lower_limit n) in Hnl. fold (upper_limit n) in Hnu.
  rewrite E in Hnl, Hnu. rewrite B2R_finite in HB, Hnl, Hnu. cbn [signed] in *.
  pose proof (valid_canonical _ _ _ Hv) as [Hc _].
  pose proof (canonical32_grid _ _ Hc) as (Hm & Hemin & Hg).
  pose proof (bpow_gt_0 e) as He0.
  (* the mantissa is normal and the exponent at least -23 *)
  assert (He : -24 < e).
  { destruct (Z_lt_le_dec (-24) e) as [|Hle]; [assumption|exfalso].
    assert (bpow e <= bpow (-24))%R by (apply bpow_le; lia).
    assert (bpow (-24) = / 16777216)%R.
    { change (-24) with (- (24)). rewrite bpow_opp, (bpow_IZR 24) by lia. reflexivity. }
    assert (IZR (Zpos m) < 16777216)%R by (apply IZR_lt; lia).
    assert (0 < IZR (Zpos m))%R by (apply IZR_lt; lia).
    unfold F2R in HB. nra. }
  assert (Hm23 : 8388608 <= Zpos m) by lia.
  assert (Hd : Zdigits2 (Zpos m) = 24).
  { apply Zdigits2_unique; [change (2 ^ (24 - 1)) with 8388608;
                             change (2 ^ 24) with 16777216; lia|lia]. }
  assert (Hhalf : bpow e = (2 * bpow (e - 1))%R).
  { replace e with (e - 1 + 1) at 1 by ring. apply bpow_succ. }
  (* two numbers of the format between the two products *)
  assert (G1 : in_format (F2R (Zpos m) (e - 1))).
  { apply in_format_canonical; [lia|]. rewrite Hd. unfold fexp32. lia. }
  assert (G2 : in_format (F2R (Zpos m + 1) (e - 1))).
  { destruct (Z.eq_dec (Zpos m + 1) 16777216) as [E2|Hne].
    - rewrite E2. replace (F2R 16777216 (e - 1)) with (F2R 8388608 (e - 1 + 1)).
      + apply in_format_F2R, canonical32_carry. lia.
      + unfold F2R. rewrite bpow_succ. lra.
    - apply in_format_canonical; [lia|].
      assert (Zdigits2 (Zpos m + 1) = 24) as ->.
      { apply Zdigits2_unique; [change (2 ^ (24 - 1)) with 8388608;
                                 change (2 ^ 24) with 16777216; lia|lia]. }
      unfold fexp32. lia. }
  assert (Hmr : (8388608 <= IZR (Zpos m))%R) by (apply IZR_le; lia).
  pose proof (bpow_gt_0 (e - 1)) as He1.
  assert (HX : (8388608 * bpow (e - 1) <= IZR (Zpos m) * bpow (e - 1))%R).
  { apply Rmult_le_compat_r; lra. }
  set (X := (IZR (Zpos m) * bpow (e - 1))%R) in *.
  assert (L1 : (B2R (lower_limit n) <= F2R (Zpos m) (e - 1))%R).
  { apply (nearest_le _ _ _ Hnl G1). pose proof B2R_c0_48 as Ha. unfold F2R.
    rewrite Hhalf. fold X.
    replace (B2R F32.c0_48 * (IZR (Zpos m) * (2 * bpow (e - 1))))%R
      with (2 * B2R F32.c0_48 * X)%R by (unfold X; ring).
    nra. }
  assert (L2 : (F2R (Zpos m + 1) (e - 1) <= B2R (upper_limit n))%R).
  { apply (nearest_ge _ _ _ Hnu G2). pose proof B2R_c0_52_low as Hb.
    unfold F2R. rewrite plus_IZR, Hhalf.
    replace (B2R F32.c0_52 * (IZR (Zpos m) * (2 * bpow (e - 1))))%R
      with (2 * B2R F32.c0_52 * X)%R by (unfold X; ring).
    replace ((IZR (Zpos m) + 1) * bpow (e - 1))%R with (X + bpow (e - 1))%R
      by (unfold X; ring).
    nra. }
  rewrite F2R_succ in L2. unfold F2R in L1, L2. fold X in L1, L2. lra.
Qed.

Lemma first_index_in_patch n :
  1 <= n <= INT_MAX ->
  exists i0, first_index n = Some i0 /\ 0 <= i0 < n /\ in_patch_axis n i0 = true.
Proof.
  intros Hn. pose proof (limits_apart n Hn) as Hlt. unfold INT_MAX in Hn.
  destruct (of_Z_facts n ltac:(lia)) as (Hvn & Hfn & _ & Hbn).
  destruct (scale_facts F32.c0_48 (F32.of_Z n)) as (Hvl & Hfl & _ & Hbl);
    try assumption; try reflexivity.
  { pose proof B2R_c0_48. lra. }
  fold (lower_limit n) in Hvl, Hfl, Hbl.
  destruct (first_index_spec n ltac:(lia)) as (i0 & Hi0 & Hr).
  destruct (to_Z_trunc_spec (lower_limit n) Hvl Hfl ltac:(lra)) as (i1 & Hi1 & _ & Hb1).
  rewrite Hi0 in Hi1. inversion Hi1; subst i1.
  destruct (of_Z_facts i0 ltac:(lia)) as (_ & _ & Hni & _).
  assert (Hbelow : below_limit n i0 = true).
  { apply below_limit_spec; try lia.
    assert (B2R (F32.of_Z i0) <= B2R (lower_limit n))%R; [|lra].
    apply (nearest_le _ _ _ Hni); [apply valid_in_format, Hvl|lra]. }
  exists i0. split; [exact Hi0|]. split.
  - split; [lia|]. apply (below_limit_lt n i0); try lia. exact Hbelow.
  - unfold in_patch_axis, first_index. rewrite Hi0, Z.leb_refl, Hbelow. reflexivity.
Qed.

(** X11. The patch is never empty: on every grid of positive dimensions,
    the 1 x 1 grid included, the cell in row [(int)(0.48f*height)] and
    column [(int)(0.48f*width)] is visited by the two patch loops and is
    seeded with U = 0.5f, V = 0.25f. *)
Theorem patch_not_empty junk width height :
  0 < width -> 0 < height -> width * height <= INT_MAX ->
  exists i0 j0 _U _V,
    first_index height = Some i0 /\ first_index width = Some j0 /\
    0 <= i0 < height /\ 0 <= j0 < width /\
    seeded_fields junk width height = Some (_U, _V) /\
    _U !! Z.to_nat (i0 * width + j0) = Some F32.c0_5 /\
    _V !! Z.to_nat (i0 * width + j0) = Some F32.c0_25.
Proof.
  intros Hw Hh Hwh.
  assert (Hdims : width <= INT_MAX /\ height <= INT_MAX) by (unfold INT_MAX in *; split; nia).
  destruct (first_index_in_patch height ltac:(lia)) as (i0 & Hi0 & Hi & Pi).
  destruct (first_index_in_patch width ltac:(lia)) as (j0 & Hj0 & Hj & Pj).
  destruct (seeded_fields_spec junk width height Hw Hh Hwh)
    as ([_U _V] & Hseed & _ & _ & Hcell).
  destruct (Hcell i0 j0 Hi Hj) as [HU HV]. cbn [fst snd] in HU, HV.
  unfold in_patch in HU, HV. rewrite Pi, Pj in HU, HV. cbn [andb] in HU, HV.
  exists i0, j0, _U, _V. auto 10.
Qed.

Lemma patch_not_empty_witness :
  exists i0 j0 _U _V,
    first_index 1 = Some i0 /\ first_index 1 = Some j0 /\
    0 <= i0 < 1 /\ 0 <= j0 < 1 /\
    seeded_fields junk_zero 1 1 = Some (_U, _V) /\
    _U !! Z.to_nat (i0 * 1 + j0) = Some F32.c0_5 /\
    _V !! Z.to_nat (i0 * 1 + j0) = Some F32.c0_25.
Proof.
  apply (patch_not_empty junk_zero 1 1); unfold INT_MAX; lia.
Defined.

Lemma B2R_one : B2R F32.one = 1%R.
Proof.
  unfold F32.one. rewrite B2R_finite. cbn [signed].
  rewrite (F2R_neg_exp _ 23) by lia. change (2 ^ 23) with 8388608. lra.
Qed.

(** X12. Every value [initializeConcentrations] uploads is a finite number
    between 0 and 1 (the source's "Bound the values by [0,1]"), for every
    sequence of numbers [rand] returns within [0, RAND_MAX]: U lies in
    [0.495, 1] and V in [0, 0.2525]. *)
Theorem initial_values_bounded RAND_MAX rand junk width height calls :
  0 < width -> 0 < height -> width * height <= INT_MAX ->
  1 <= RAND_MAX <= INT_MAX -> platform_ok RAND_MAX = true ->
  (forall n, 0 <= rand n <= RAND_MAX) ->
  exists _U _V calls',
    initializeConcentrations RAND_MAX rand junk width height calls
    = Some ((_U, _V), calls') /\
    forall i j, 0 <= i < height -> 0 <= j < width ->
      exists u v : float,
        _U !! Z.to_nat (i * width + j) = Some u /\
        _V !! Z.to_nat (i * width + j) = Some v /\
        is_finite u = true /\ is_finite v = true /\
        (495 / 1000 <= B2R u <= 1)%R /\ (0 <= B2R v <= 2525 / 10000)%R.
Proof.
  intros Hw Hh Hwh HRM Hok Hrand.
  assert (Hr : forall n, valid (rRand RAND_MAX (rand n)) /\
                         is_finite (rRand RAND_MAX (rand n)) = true /\
                         (- B2R F32.c0_01 <= B2R (rRand RAND_MAX (rand n))
                          <= B2R F32.c0_01)%R).
  { intros n. split; [apply (rRand_stages RAND_MAX HRM (rand n) (Hrand n))|].
    split; [apply rRand_finite; auto|].
    split; [apply rRand_lower; auto|apply rRand_upper; auto]. }
  destruct (initializeConcentrations_spec RAND_MAX rand junk width height Hw Hh Hwh calls)
    as ([_U _V] & calls' & Hrun & Hcell).
  exists _U, _V, calls'. split; [exact Hrun|].
  intros i j Hi Hj. destruct (Hcell i j Hi Hj) as (c & HU & HV). cbn [fst snd] in HU, HV.
  eexists _, _. split; [exact HU|]. split; [exact HV|].
  unfold seedU, seedV. destruct (in_patch width height i j).
  - destruct (Hr c) as (V1 & F1 & B1).
    destruct (Hr (c + below (Some F32.c0_5))%nat) as (V2 & F2 & B2).
    destruct (perturbed_c0_5 RAND_MAX (rand c) V1 F1 B1) as [Fu Bu].
    destruct (perturbed_c0_25 RAND_MAX _ V2 F2 B2) as [Fv Bv].
    split; [exact Fu|]. split; [exact Fv|].
    revert Bu Bv. unfold Rabs. destruct (Rcase_abs _), (Rcase_abs _); lra.
  - rewrite perturbed_one, perturbed_zero by (apply rRand_finite; auto).
    rewrite B2R_one. cbn [B2R F32.zero]. split; [reflexivity|]. split; [reflexivity|]. lra.
Qed.

Lemma initial_values_bounded_witness :
  exists _U _V calls',
    initializeConcentrations RAND_MAX_31 rand_zero junk_zero 16 16 0
    = Some ((_U, _V), calls') /\
    forall i j, 0 <= i < 16 -> 0 <= j < 16 ->
      exists u v : float,
        _U !! Z.to_nat (i * 16 + j) = Some u /\
        _V !! Z.to_nat (i * 16 + j) = Some v /\
        is_finite u = true /\ is_finite v = true /\
        (495 / 1000 <= B2R u <= 1)%R /\ (0 <= B2R v <= 2525 / 10000)%R.
Proof.
  apply (initial_values_bounded RAND_MAX_31 rand_zero junk_zero 16 16 0%nat);
    try (vm_compute; reflexivity);
    unfold RAND_MAX_31, rand_zero, INT_MAX; intros; lia.
Defined.

(** ** The calls of rand *)

Lemma below_seedU width height i j :
  below (Some (seedU width height i j)) = if in_patch width height i j then 1%nat else 0%nat.
Proof. unfold seedU. destruct (in_patch width height i j); reflexivity. Qed.

Lemma below_seedV width height i j : below (Some (seedV width height i j)) = 1%nat.
Proof. unfold seedV. destruct (in_patch width height i j); reflexivity. Qed.

Section Draws.

Variable junk : nat -> float.
Variables width height : Z.
Hypothesis Hw : 0 < width.
Hypothesis Hh : 0 < height.
Hypothesis Hwh : width * height <= INT_MAX.

Lemma draw_index_seeded (orig : fields) :
  (forall i j, 0 <= i < height -> 0 <= j < width ->
     orig.1 !! Z.to_nat (i * width + j) = Some (seedU width height i j) /\
     orig.2 !! Z.to_nat (i * width + j) = Some (seedV width height i j)) ->
  forall k : nat, (k <= Z.to_nat (width * height))%nat ->
    draw_index orig k
    = (k + length (List.filter
                     (fun k : nat => in_patch width height (Z.of_nat k / width)
                                       (Z.of_nat k mod width))
                     (seq 0 k)))%nat.
Proof.
  intros Hcell. induction k as [|k IH]; intros Hk; [reflexivity|].
  cbn [draw_index]. rewrite IH by lia.
  pose proof (Z.div_mod (Z.of_nat k) width ltac:(lia)) as Hdm.
  pose proof (Z.mod_pos_bound (Z.of_nat k) width ltac:(lia)) as Hm.
  assert (Hi : 0 <= Z.of_nat k / width < height).
  { split; [apply Z.div_pos; lia|]. apply Z.div_lt_upper_bound; lia. }
  destruct (Hcell _ _ Hi Hm) as [HU HV].
  replace (Z.to_nat (Z.of_nat k / width * width + Z.of_nat k mod width)) with k
    in HU, HV by lia.
  rewrite HU, HV, below_seedU, below_seedV.
  rewrite seq_S, List.filter_app, length_app. cbn [List.filter plus].
  destruct (in_patch width height (Z.of_nat k / width) (Z.of_nat k mod width));
    cbn [length]; lia.
Qed.

Lemma initializeConcentrations_calls RAND_MAX rand (calls : nat) :
  exists uv calls',
    initializeConcentrations RAND_MAX rand junk width height calls = Some (uv, calls') /\
    length uv.1 = Z.to_nat (width * height) /\
    length uv.2 = Z.to_nat (width * height) /\
    calls' = (calls + Z.to_nat (width * height) + patch_cells width height)%nat.
Proof.
  destruct (seeded_fields_spec junk width height Hw Hh Hwh) as (orig & Hseed & L1 & L2 & Hcell).
  assert (Hn : umul width height = width * height).
  { unfold umul. apply wrap32_small. unfold UINT_MOD, INT_MAX in *. nia. }
  destruct (perturb_loop_spec RAND_MAX rand orig calls (Z.to_nat (width * height)) L1 L2
              (Z.to_nat (width * height)) 0%nat orig calls L1 L2 ltac:(lia)
              ltac:(auto) ltac:(cbn [draw_index]; lia))
    as (fin & calls' & Hrun & M1 & M2 & _ & _ & Hc).
  exists fin, calls'. split; [|split; [exact M1|split; [exact M2|]]].
  - unfold initializeConcentrations. rewrite Hseed, Hn. cbn [mbind option_bind]. exact Hrun.
  - rewrite Hc. cbn [plus]. rewrite (draw_index_seeded orig) by (auto; lia).
    unfold patch_cells. lia.
Qed.

Lemma patch_cells_bounds :
  (1 <= patch_cells width height <= Z.to_nat (width * height))%nat.
Proof.
  unfold patch_cells. split.
  - assert (Hdims : width <= INT_MAX /\ height <= INT_MAX)
      by (unfold INT_MAX in *; split; nia).
    destruct (first_index_in_patch height ltac:(lia)) as (i0 & _ & Hi & Pi).
    destruct (first_index_in_patch width ltac:(lia)) as (j0 & _ & Hj & Pj).
    set (f := fun k : nat => in_patch width height (Z.of_nat k / width) (Z.of_nat k mod width)).
    assert (Hin : In (Z.to_nat (i0 * width + j0))
                     (List.filter f (seq 0 (Z.to_nat (width * height))))).
    { apply filter_In. split.
      - apply in_seq. split; [lia|]. cbn [plus]. apply Z2Nat.inj_lt; nia.
      - unfold f. rewrite Z2Nat.id by nia.
        replace ((i0 * width + j0) / width) with i0
          by (apply (Z.div_unique _ _ _ j0); lia).
        replace ((i0 * width + j0) mod width) with j0
          by (apply (Z.mod_unique _ _ i0); lia).
        unfold in_patch. rewrite Pi, Pj. reflexivity. }
    destruct (List.filter f (seq 0 (Z.to_nat (width * height)))); [inversion Hin|].
    cbn [length]. lia.
  - etransitivity; [apply List.filter_length_le|]. rewrite length_seq. lia.
Qed.

End Draws.

(** X10. [initializeConcentrations] returns two arrays of [width*height]
    cells and calls [rand] once for every cell and once more for every cell
    of the patch: the test [_V[k] < 1.0f] holds of every cell (0.0f and
    0.25f), the test [_U[k] < 1.0f] of the patch cells only; the patch has
    at least one cell. *)
Theorem initializeConcentrations_draws RAND_MAX rand junk width height calls :
  0 < width -> 0 < height -> width * height <= INT_MAX ->
  exists uv calls',
    initializeConcentrations RAND_MAX rand junk width height calls = Some (uv, calls') /\
    length uv.1 = Z.to_nat (width * height) /\
    length uv.2 = Z.to_nat (width * height) /\
    calls' = (calls + Z.to_nat (width * height) + patch_cells width height)%nat /\
    (1 <= patch_cells width height <= Z.to_nat (width * height))%nat.
Proof.
  intros Hw Hh Hwh.
  destruct (initializeConcentrations_calls junk width height Hw Hh Hwh RAND_MAX rand calls)
    as (uv & calls' & H1 & H2 & H3 & H4).
  exists uv, calls'. repeat split; try assumption;
    apply (patch_cells_bounds width height Hw Hh Hwh).
Qed.

Lemma initializeConcentrations_draws_witness :
  exists uv calls',
    initializeConcentrations RAND_MAX_31 rand_zero junk_zero 16 16 0 = Some (uv, calls') /\
    length uv.1 = Z.to_nat (16 * 16) /\
    length uv.2 = Z.to_nat (16 * 16) /\
    calls' = (0 + Z.to_nat (16 * 16) + patch_cells 16 16)%nat /\
    (1 <= patch_cells 16 16 <= Z.to_nat (16 * 16))%nat.
Proof.
  apply (initializeConcentrations_draws RAND_MAX_31 rand_zero junk_zero 16 16 0%nat);
    unfold INT_MAX; lia.
Defined.

(** ** A field without V *)

(** [vV + dt*(Dv*0 + vU*vV*vV - (F + k)*vV)] for [vV = 0] and a finite [vU]. *)
Lemma quiet_newV (Dv vU : float) :
  is_finite Dv = true -> is_finite vU = true ->
  F32.add F32.zero
    (F32.mul F32.c0_5
       (F32.sub (F32.add (F32.mul Dv (uniform_stencil F32.c2_0 F32.zero))
                         (F32.mul (F32.mul vU F32.zero) F32.zero))
                (F32.mul (F32.add F32.c0_012 F32.c0_052) F32.zero)))
  = F32.zero.
Proof.
  destruct Dv as [s|s| |s m e]; try discriminate; intros _;
    destruct vU as [t|t| |t p q]; try discriminate; intros _;
    destruct s, t; reflexivity.
Qed.

Lemma rd_kernel_computeU_loads a co st vU vV nu :
  rd_kernel_computeU a co st = Some (vU, vV, nu) ->
  st.1 !! thread_index a co = Some vU /\ st.2 !! thread_index a co = Some vV.
Proof.
  unfold rd_kernel_computeU, load, thread_index.
  destruct (st.1 !! Z.to_nat (linear_index a co)) as [u|]; [|discriminate].
  destruct (st.2 !! Z.to_nat (linear_index a co)) as [v|]; [|discriminate].
  cbn [mbind option_bind].
  destruct (calculateLaplacian _ _ _ _ _ _) as [l|]; [|discriminate].
  cbn [mbind option_bind]. intros H. inversion H; subst. auto.
Qed.

Section Quiet.

Variables width height : Z.
Hypothesis Hw : 0 < width <= 2147483648.
Hypothesis Hh : 0 < height <= 2147483648.
Hypothesis Hwh : width * height < UINT_MOD.

Local Abbreviation a := (rd_args width height).
Local Abbreviation n := (Z.to_nat (width * height)).

Lemma quiet_computeV co vU (st : fields) :
  in_grid width height co -> st.2 = replicate n F32.zero -> is_finite vU = true ->
  rd_kernel_computeV a co vU F32.zero st = Some F32.zero.
Proof.
  intros Hco HV Hf. unfold rd_kernel_computeV. rewrite HV.
  change (k_width a) with width. change (k_height a) with height.
  change (k_dx a) with F32.c2_0.
  rewrite (calculateLaplacian_uniform F32.c2_0 F32.zero width height co) by (auto; lia).
  cbn [mbind option_bind].
  change (k_dt a) with F32.c0_5. change (k_F a) with F32.c0_012.
  change (k_k a) with F32.c0_052.
  rewrite quiet_newV; [reflexivity|apply Dv_finite; lia|exact Hf].
Qed.

Lemma reference_values_quiet (st : fields) g :
  length st.1 = n -> st.2 = replicate n F32.zero ->
  Forall (in_grid width height) g ->
  (forall co u, co ∈ g -> st.1 !! thread_index a co = Some u -> is_finite u = true) ->
  exists rs,
    reference_values a g st = Some rs /\
    Forall (fun r => r.2.2 = F32.zero) rs.
Proof.
  intros HU HV Hg. induction Hg as [|co g Hco _ IH]; intros Hfin.
  - exists []. split; [reflexivity|constructor].
  - destruct IH as (rs & ER & Hrs).
    { intros c u Hc. apply Hfin. right. exact Hc. }
    assert (LV : length st.2 = n) by (rewrite HV; apply length_replicate).
    destruct (thread_values width height Hw Hh Hwh st co HU LV Hco)
      as (u & v & nu & nv & _ & _ & C1 & C2).
    destruct (rd_kernel_computeU_loads _ _ _ _ _ _ C1) as [Lu Lv].
    destruct (thread_index_grid width height Hw Hh Hwh co Hco) as [_ Hlt].
    rewrite HV, lookup_replicate_2 in Lv by exact Hlt. inversion Lv; subst v.
    rewrite quiet_computeV in C2; [|exact Hco|exact HV|].
    2:{ apply (Hfin co u); [left|exact Lu]. }
    inversion C2; subst nv.
    exists ((co, (nu, F32.zero)) :: rs). split.
    + cbn [reference_values]. rewrite C1. cbn [mbind option_bind].
      rewrite quiet_computeV; [|exact Hco|exact HV|apply (Hfin co u); [left|exact Lu]].
      cbn [mbind option_bind]. rewrite ER. reflexivity.
    + constructor; [reflexivity|exact Hrs].
Qed.

Lemma reference_store_quiet rs : forall st st' : fields,
  Forall (fun r => r.2.2 = F32.zero) rs ->
  st.2 = replicate n F32.zero ->
  reference_store a rs st = Some st' ->
  st'.2 = replicate n F32.zero.
Proof.
  induction rs as [|[co [nu nv]] rs IH]; intros st st' Hz HV H; cbn [reference_store] in H.
  - inversion H; subst. exact HV.
  - inversion Hz as [|? ? Hnv Hz']; subst. cbn [snd] in Hnv. subst nv.
    unfold rd_kernel_storeU, rd_kernel_storeV in H.
    destruct (store st.1 (linear_index a co) nu) as [U1|];
      cbn [mbind option_bind fst snd] in H; [|discriminate H].
    unfold store in H.
    destruct (decide (Z.to_nat (linear_index a co) < length st.2)%nat) as [Hlt|];
      cbn [mbind option_bind fst snd] in H; [|discriminate H].
    apply (IH _ _ Hz') in H; [exact H|]. cbn [snd]. rewrite HV in *.
    rewrite length_replicate in Hlt.
    apply list_insert_id, lookup_replicate_2. exact Hlt.
Qed.

Lemma launch_quiet sched : forall st : fields,
  length st.1 = n -> st.2 = replicate n F32.zero ->
  Forall (in_grid width height) (concat sched) -> NoDup (concat sched) ->
  (forall co u, co ∈ concat sched -> st.1 !! thread_index a co = Some u ->
                is_finite u = true) ->
  exists U', rd_kernel_launch a sched st = Some (U', replicate n F32.zero).
Proof.
  induction sched as [|g sched IH]; intros st HU HV Hg Hnd Hfin.
  - exists st.1. cbn [rd_kernel_launch]. rewrite <- HV. destruct st; reflexivity.
  - cbn [concat] in Hg, Hnd, Hfin. apply Forall_app in Hg. destruct Hg as [Hg Hg'].
    apply NoDup_app in Hnd. destruct Hnd as (Hndg & Hdisj & Hnd').
    assert (LV : length st.2 = n) by (rewrite HV; apply length_replicate).
    destruct (reference_values_quiet st g HU HV Hg) as (rs & ER & Hz).
    { intros co u Hco. apply Hfin. apply elem_of_app. left. exact Hco. }
    destruct (run_group_grid width height Hw Hh Hwh st g HU LV Hg)
      as (rs' & st1 & ER' & ES & ERun & L1 & L2).
    rewrite ER in ER'. inversion ER'; subst rs'. clear ER'.
    pose proof (reference_store_quiet rs st st1 Hz HV ES) as HV1.
    cbn [rd_kernel_launch]. rewrite ERun. cbn [mbind option_bind].
    apply IH; try assumption.
    intros co u Hco Hu. apply (Hfin co u); [apply elem_of_app; right; exact Hco|].
    rewrite <- Hu. symmetry.
    apply (run_group_frame a g st st1 (thread_index a co) ERun).
    intros co' Hco' E. rewrite Forall_forall in Hg, Hg'.
    apply thread_index_inj in E; try assumption; [|apply Hg; exact Hco'|apply Hg'; exact Hco].
    subst co'. exact (Hdisj co Hco' Hco).
Qed.

End Quiet.

(** X5. Without V there is no reaction: when [V] is 0.0f in every cell and
    every [U] is a finite number, a launch on a grid whose dimensions are
    multiples of 16 leaves [V] at exactly 0.0f in every cell, in whatever
    order the device runs the threads. *)
Theorem V_zero_stays_zero (width height : Z) (sched : schedule) (_U : list float) :
  0 < width -> 0 < height ->
  umod width BLOCK = 0 -> umod height BLOCK = 0 ->
  width * height < UINT_MOD ->
  concat sched ≡ₚ threads width height ->
  length _U = Z.to_nat (width * height) ->
  Forall (fun u => is_finite u = true) _U ->
  exists U',
    rd_kernel_launch (rd_args width height) sched
      (_U, replicate (Z.to_nat (width * height)) F32.zero)
    = Some (U', replicate (Z.to_nat (width * height)) F32.zero).
Proof.
  intros Hw Hh Hwm Hhm Hwh Hperm HU Hfin.
  destruct (aligned_dims width height Hw Hh Hwm Hhm) as [Hw16 Hh16].
  assert (Hw31 : width <= 2147483648) by (unfold UINT_MOD in *; nia).
  assert (Hh31 : height <= 2147483648) by (unfold UINT_MOD in *; nia).
  destruct (threads_enumerate_grid width height) as (Hnd & _ & Hiff);
    try assumption; try (unfold UINT_MOD in *; lia).
  apply launch_quiet; try assumption; try lia; try reflexivity.
  - rewrite Hperm. apply Forall_forall. intros co Hco. apply Hiff. exact Hco.
  - rewrite Hperm. exact Hnd.
  - intros co u _ Hu. cbn [fst] in Hu. rewrite Forall_forall in Hfin.
    apply Hfin. eapply list_elem_of_lookup_2. exact Hu.
Qed.

Lemma V_zero_stays_zero_witness :
  exists U',
    rd_kernel_launch (rd_args 16 16) (warps_in_order 16 16)
      (replicate 256 F32.c0_5, replicate (Z.to_nat (16 * 16)) F32.zero)
    = Some (U', replicate (Z.to_nat (16 * 16)) F32.zero).
Proof.
  apply (V_zero_stays_zero 16 16 (warps_in_order 16 16) (replicate 256 F32.c0_5));
    unfold UINT_MOD; try lia; try reflexivity.
  apply Forall_replicate. reflexivity.
Defined.

(** ** What a call of rd reads and writes *)

Lemma seeded_fields_junk (junk junk' : nat -> float) (width height : Z) :
  0 < width -> 0 < height -> width * height <= INT_MAX ->
  seeded_fields junk width height = seeded_fields junk' width height.
Proof.
  intros Hw Hh Hwh.
  destruct (seeded_fields_spec junk width height Hw Hh Hwh) as ([U1 V1] & -> & L1 & M1 & C1).
  destruct (seeded_fields_spec junk' width height Hw Hh Hwh) as ([U2 V2] & -> & L2 & M2 & C2).
  cbn [fst snd] in *.
  assert (Hk : forall k : nat, (k < Z.to_nat (width * height))%nat ->
            U1 !! k = U2 !! k /\ V1 !! k = V2 !! k).
  { intros k Hk.
    pose proof (Z.div_mod (Z.of_nat k) width ltac:(lia)) as Hdm.
    pose proof (Z.mod_pos_bound (Z.of_nat k) width ltac:(lia)) as Hm.
    assert (Hi : 0 <= Z.of_nat k / width < height).
    { split; [apply Z.div_pos; lia|]. apply Z.div_lt_upper_bound; lia. }
    destruct (C1 _ _ Hi Hm) as [A1 B1]. destruct (C2 _ _ Hi Hm) as [A2 B2].
    replace (Z.to_nat (Z.of_nat k / width * width + Z.of_nat k mod width)) with k
      in A1, B1, A2, B2 by lia.
    split; congruence. }
  f_equal. f_equal; apply list_eq; intros k;
    destruct (Nat.lt_ge_cases k (Z.to_nat (width * height))) as [Hlt|Hge];
    try (apply Hk; exact Hlt);
    rewrite !lookup_ge_None_2 by lia; reflexivity.
Qed.

(** X13. [initializeConcentrations] reads no cell of its two fresh arrays
    before it has written it, and [rd] uploads over all of the two device
    buffers before the kernel reads them: the outcome of a call of [rd]
    does not depend on what the allocated memory held. *)
Theorem rd_ignores_fresh_memory RAND_MAX rand (junk junk' : nat -> float) sched
    alloc_ok launch_ok width height result w :
  0 < width -> 0 < height -> width * height <= INT_MAX ->
  rd RAND_MAX rand junk sched alloc_ok launch_ok width height result w
  = rd RAND_MAX rand junk' sched alloc_ok launch_ok width height result w.
Proof.
  intros Hw Hh Hwh. unfold rd, rd_first_pass, initializeConcentrations.
  rewrite (seeded_fields_junk junk junk' width height Hw Hh Hwh).
  destruct (first_pass w); [|reflexivity].
  destruct alloc_ok; reflexivity.
Qed.

Lemma rd_ignores_fresh_memory_witness :
  rd RAND_MAX_31 rand_zero junk_zero (warps_in_order 16 16) true true 16 16 []
     initial_world
  = rd RAND_MAX_31 rand_zero (fun _ => F32.one) (warps_in_order 16 16) true true 16 16 []
       initial_world.
Proof.
  apply (rd_ignores_fresh_memory RAND_MAX_31 rand_zero junk_zero (fun _ => F32.one)
           (warps_in_order 16 16) true true 16 16 [] initial_world);
    unfold INT_MAX; lia.
Defined.

(** X14. A later call of [rd] with the dimensions of the first call, on an
    output buffer of at least [width*height] cells, stays within the buffers
    and advances the fields by exactly one launch: the fields it leaves are
    those of the launch on the fields it found, the first [width*height]
    cells of the result are the new [U], and the rest of the output buffer is
    as it was. *)
Theorem rd_later_call_output RAND_MAX rand junk sched alloc_ok width height result
    w u v :
  first_pass w = false -> U w = Some u -> V w = Some v ->
  0 < width -> 0 < height -> width * height < UINT_MOD ->
  umod width BLOCK = 0 -> umod height BLOCK = 0 ->
  length u = Z.to_nat (width * height) -> length v = Z.to_nat (width * height) ->
  concat sched ≡ₚ threads width height ->
  (Z.to_nat (width * height) <= length result)%nat ->
  exists st' w',
    rd_kernel_launch (rd_args width height) sched (u, v) = Some st' /\
    rd RAND_MAX rand junk sched alloc_ok true width height result w
    = Returned w' (take (Z.to_nat (width * height)) st'.1
                   ++ drop (Z.to_nat (width * height)) result) /\
    U w' = Some st'.1 /\ V w' = Some st'.2 /\
    length st'.1 = Z.to_nat (width * height) /\
    length st'.2 = Z.to_nat (width * height).
Proof.
  intros Hfp HU HV Hw Hh Hwh Hwm Hhm Lu Lv Hperm Hres.
  destruct (aligned_dims width height Hw Hh Hwm Hhm) as [Hw16 Hh16].
  assert (Hw31 : width <= 2147483648) by (unfold UINT_MOD in *; nia).
  assert (Hh31 : height <= 2147483648) by (unfold UINT_MOD in *; nia).
  assert (Hn : umul width height = width * height).
  { unfold umul. apply wrap32_small. nia. }
  destruct (launch_grid width height ltac:(lia) ltac:(lia) Hwh sched (u, v) Lu Lv)
    as (st' & HL & M1 & M2).
  { apply schedule_in_grid; [unfold UINT_MOD in *; lia|unfold UINT_MOD in *; lia|exact Hperm]. }
  rewrite rd_later_call by exact Hfp.
  rewrite (rd_step_launched sched width height result w u v st' Hwm Hhm HU HV HL).
  rewrite Hn, M1. destruct (decide _) as [_|Hc]; [|lia].
  eexists st', _. split; [exact HL|]. split; [reflexivity|].
  cbn [U V]. auto.
Qed.

Lemma rd_later_call_output_witness :
  exists st' w',
    rd_kernel_launch (rd_args 16 16) (warps_in_order 16 16) ((flat 256).1, (flat 256).2)
    = Some st' /\
    rd RAND_MAX_31 rand_zero junk_zero (warps_in_order 16 16) true true 16 16
       (replicate 300 F32.c0_5) (world_with (flat 256).1 (flat 256).2)
    = Returned w' (take (Z.to_nat (16 * 16)) st'.1
                   ++ drop (Z.to_nat (16 * 16)) (replicate 300 F32.c0_5)) /\
    U w' = Some st'.1 /\ V w' = Some st'.2 /\
    length st'.1 = Z.to_nat (16 * 16) /\ length st'.2 = Z.to_nat (16 * 16).
Proof.
  apply (rd_later_call_output RAND_MAX_31 rand_zero junk_zero (warps_in_order 16 16)
           true 16 16 (replicate 300 F32.c0_5) (world_with (flat 256).1 (flat 256).2)
           (flat 256).1 (flat 256).2);
    unfold UINT_MOD; try lia; try reflexivity.
  vm_compute. lia.
Defined.

(** ** The diffusion rates *)

Lemma B2R_c0_0002 : (1 / 8192 <= B2R F32.c0_0002 <= 2 / 8192)%R.
Proof.
  unfold F32.c0_0002. rewrite B2R_finite. cbn [signed].
  rewrite (F2R_neg_exp _ 36) by lia. change (2 ^ 36) with 68719476736. lra.
Qed.

Lemma B2R_c0_0004 : (3 / 8192 <= B2R F32.c0_0004 <= 4 / 8192)%R.
Proof.
  unfold F32.c0_0004. rewrite B2R_finite. cbn [signed].
  rewrite (F2R_neg_exp _ 35) by lia. change (2 ^ 35) with 34359738368. lra.
Qed.

Lemma in_format_bpow k : -126 <= k -> in_format (bpow k).
Proof.
  intros Hk. replace (bpow k) with (F2R 8388608 (k - 23)).
  - apply in_format_canonical; [lia|]. change (Zdigits2 8388608) with 24.
    unfold fexp32. lia.
  - unfold F2R. change 8388608 with (2 ^ 23). rewrite <- (bpow_IZR 23) by lia.
    rewrite <- bpow_plus. f_equal. ring.
Qed.

(** [(n)/100.0f] for [1 <= n < 2^32]. *)
Lemma cells_over_100 n :
  1 <= n <= 4294967296 ->
  let q := F32.div (F32.of_Z n) F32.hundred in
  valid q /\ is_finite q = true /\ (bpow (-7) <= B2R q <= 4294967296)%R.
Proof.
  intros Hn q. destruct (of_Z_facts n ltac:(lia)) as (Hv & Hf & Hnn & Hb).
  pose proof B2R_hundred as Hh. pose proof bpow_127_big as Hbig.
  assert (H1 : (1 <= B2R (F32.of_Z n))%R).
  { apply (nearest_ge _ _ _ Hnn in_format_1). apply IZR_le. lia. }
  unfold q, F32.div, F32.prec, F32.emax.
  assert (Hd : is_finite (SFdiv 24 128 (F32.of_Z n) F32.hundred) = true).
  { apply div_finite; try assumption; try reflexivity.
    fold F32.hundred. rewrite Hh. apply Rabs_def1; lra. }
  assert (Hdn := div_nearest (F32.of_Z n) false 13107200 (-17) Hv valid_hundred Hf Hd).
  fold F32.hundred in Hdn. rewrite Hh in Hdn.
  split; [apply div_valid; [assumption|reflexivity]|]. split; [exact Hd|].
  assert (H7 : bpow (-7) = (/ 128)%R).
  { change (-7) with (- (7)). rewrite bpow_opp, (bpow_IZR 7) by lia. reflexivity. }
  split.
  - apply (nearest_ge _ _ _ Hdn (in_format_bpow (-7) ltac:(lia))). rewrite H7. lra.
  - apply (nearest_le _ _ _ Hdn in_format_2_32). lra.
Qed.

(** X15. On every grid whose number of cells is not 0 modulo [2^32], the
    diffusion rates [Du = 0.0004f*((width*height)/100.0f)] and
    [Dv = 0.0002f*((width*height)/100.0f)] that [rd] passes to the kernel
    are finite numbers with [0 < Dv <= Du]. *)
Theorem diffusion_rates (width height : Z) :
  1 <= umul width height ->
  is_finite (k_Du (rd_args width height)) = true /\
  is_finite (k_Dv (rd_args width height)) = true /\
  (0 < B2R (k_Dv (rd_args width height)) <= B2R (k_Du (rd_args width height)))%R.
Proof.
  intros Hn. pose proof (wrap32_range (width * height)) as Hr. fold (umul width height) in Hr.
  unfold UINT_MOD in Hr.
  destruct (cells_over_100 (umul width height) ltac:(lia)) as (Hvq & Hfq & Hbq).
  cbv zeta in Hvq, Hfq, Hbq. cbn [k_Du k_Dv rd_args].
  set (q := F32.div (F32.of_Z (umul width height)) F32.hundred) in *.
  pose proof B2R_c0_0002 as H2. pose proof B2R_c0_0004 as H4.
  assert (H7 : bpow (-7) = (/ 128)%R).
  { change (-7) with (- (7)). rewrite bpow_opp, (bpow_IZR 7) by lia. reflexivity. }
  assert (H20 : bpow (-20) = (/ 1048576)%R).
  { change (-20) with (- (20)). rewrite bpow_opp, (bpow_IZR 20) by lia. reflexivity. }
  rewrite H7 in Hbq.
  destruct (scale_facts F32.c0_0004 q) as (_ & Fu & Nu & _);
    try assumption; try reflexivity; try lra.
  destruct (scale_facts F32.c0_0002 q) as (_ & Fv & Nv & _);
    try assumption; try reflexivity; try lra.
  split; [exact Fu|]. split; [exact Fv|]. split.
  - assert (bpow (-20) <= B2R (F32.mul F32.c0_0002 q))%R; [|rewrite H20 in *; lra].
    apply (nearest_ge _ _ _ Nv (in_format_bpow (-20) ltac:(lia))). rewrite H20. nra.
  - apply (nearest_mono _ _ _ _ Nv Nu). nra.
Qed.

Lemma diffusion_rates_witness :
  is_finite (k_Du (rd_args 16 16)) = true /\
  is_finite (k_Dv (rd_args 16 16)) = true /\
  (0 < B2R (k_Dv (rd_args 16 16)) <= B2R (k_Du (rd_args 16 16)))%R.
Proof.
  apply (diffusion_rates 16 16). vm_compute. discriminate.
Defined.

(** ** The stencil on the torus *)

Lemma mod_shift_succ c s m : 0 < m -> ((c + 1) mod m + s) mod m = ((c + s) mod m + 1) mod m.
Proof.
  intros Hm. rewrite !Zplus_mod_idemp_l. f_equal. ring.
Qed.

Lemma mod_shift_pred c s m : 0 < m -> ((c - 1) mod m + s) mod m = ((c + s) mod m - 1) mod m.
Proof.
  intros Hm. rewrite Zplus_mod_idemp_l, Zminus_mod_idemp_l. f_equal. ring.
Qed.

(** X16. The stencil has no edges: when the field [A'] is the field [A]
    moved cyclically by [a] columns and [b] rows, the Laplacian of [A'] at a
    cell is the Laplacian of [A] at the cell moved likewise, bit for bit. *)
Theorem calculateLaplacian_shift (dx : float) (A A' : list float) (width height a b : Z)
    (co : uint2) (v : float) :
  0 < width <= 2147483648 -> 0 < height <= 2147483648 ->
  width * height <= UINT_MOD ->
  in_grid width height co ->
  (forall cx cy, 0 <= cx < width -> 0 <= cy < height ->
     Spec.cell A' width cx cy
     = Spec.cell A width ((cx + a) mod width) ((cy + b) mod height)) ->
  Spec.cell A' width (x co) (y co) = Some v ->
  calculateLaplacian dx A' co v width height
  = calculateLaplacian dx A
      (make_uint2 ((x co + a) mod width) ((y co + b) mod height)) v width height.
Proof.
  intros Hw Hh Hwh [Hx Hy] Hshift Hv.
  pose proof (Z.mod_pos_bound (x co + a) width ltac:(lia)) as Mx.
  pose proof (Z.mod_pos_bound (y co + b) height ltac:(lia)) as My.
  pose proof (Z.mod_pos_bound (x co + 1) width ltac:(lia)) as M1.
  pose proof (Z.mod_pos_bound (x co - 1) width ltac:(lia)) as M2.
  pose proof (Z.mod_pos_bound (y co - 1) height ltac:(lia)) as M3.
  pose proof (Z.mod_pos_bound (y co + 1) height ltac:(lia)) as M4.
  rewrite (calculateLaplacian_wraps dx A' co v width height) by assumption.
  rewrite (calculateLaplacian_wraps dx A _ v width height);
    cbn [x y]; try assumption.
  2:{ rewrite <- Hshift by assumption. exact Hv. }
  unfold Spec.Laplacian.
  rewrite !Hshift by assumption.
  rewrite !mod_shift_succ, !mod_shift_pred by lia. reflexivity.
Qed.

Lemma calculateLaplacian_shift_witness :
  calculateLaplacian F32.c2_0 (replicate 256 F32.c0_5) (make_uint2 15 15) F32.c0_5 16 16
  = calculateLaplacian F32.c2_0 (replicate 256 F32.c0_5)
      (make_uint2 ((x (make_uint2 15 15) + 3) mod 16) ((y (make_uint2 15 15) + 5) mod 16))
      F32.c0_5 16 16.
Proof.
  apply (calculateLaplacian_shift F32.c2_0 (replicate 256 F32.c0_5) (replicate 256 F32.c0_5)
           16 16 3 5 (make_uint2 15 15) F32.c0_5);
    unfold UINT_MOD, in_grid; cbn [x y]; try lia; try reflexivity.
  intros cx cy Hx Hy.
  pose proof (Z.mod_pos_bound (cx + 3) 16 ltac:(lia)).
  pose proof (Z.mod_pos_bound (cy + 5) 16 ltac:(lia)).
  unfold Spec.cell. rewrite !lookup_replicate_2 by lia. reflexivity.
Defined.

